(** * VelocityDRIVE LAN9662 host tools: CBOR codec, WebSerial core and client

    A shallow embedding of three JavaScript sources of the repository:

    - the CBOR encoder/decoder ([encode], [decode], [encodeItem],
      [encodeUnsigned], [decodeItem]),
    - [WebSerialCore] (line oriented command/response over WebSerial),
    - [VelocityDriveClient] (event emitter, read loop, YANG operations).

    JavaScript values are modelled as follows.  A number is an IEEE-754
    binary64 value, given by its 64-bit pattern (a [Z] in [0, 2^64)); the
    integer valued ones are read and written as [Z].  Bytes are [Z] in
    [0, 256).  A typed array or a [DataView] is a window (offset, length)
    on an underlying [ArrayBuffer].  Exceptions are explicit: functions
    that can throw return a [completion]. *)

From Stdlib Require Import ZArith Lia Bool Ascii String.
From stdpp Require Import base option list strings gmap.

Local Open Scope Z_scope.
Set Warnings "-register-all".
Set Default Proof Using "Type".

(** ** Exceptions and completions *)

Inductive exn : Type :=
| RangeError                (* DataView / TypedArray bounds; call stack exhausted *)
| Error (message : string). (* [new Error(message)] *)

Inductive completion (A : Type) : Type :=
| Normal (a : A)
| Throw (e : exn).
Arguments Normal {A} a.
Arguments Throw {A} e.

Definition cbind {A B} (c : completion A) (k : A -> completion B) : completion B :=
  match c with
  | Normal a => k a
  | Throw e => Throw e
  end.

Declare Scope completion_scope.
Delimit Scope completion_scope with completion.
Notation "'let*' x ':=' c 'in' k" := (cbind c (fun x => k))
  (at level 10, x pattern, c at level 100, k at level 200) : completion_scope.
Local Open Scope completion_scope.

(** ** JavaScript number and bit operations *)

Module JS.

(** [ToInt32]: reduce modulo 2^32 into the signed 32-bit range. *)
Definition ToInt32 (z : Z) : Z :=
  let m := z mod 2 ^ 32 in
  if m <? 2 ^ 31 then m else m - 2 ^ 32.

(** [ToUint8], the conversion [new Uint8Array(array)] applies to each
    element. *)
Definition ToUint8 (z : Z) : Z := z mod 256.

(** [a << b], [a >> b], [a | b], [a & b] on integer valued numbers. *)
Definition shl (a b : Z) : Z := ToInt32 (Z.shiftl (ToInt32 a) (b mod 32)).
Definition sar (a b : Z) : Z := Z.shiftr (ToInt32 a) (b mod 32).
Definition bor (a b : Z) : Z := Z.lor (ToInt32 a) (ToInt32 b).
Definition band (a b : Z) : Z := Z.land (ToInt32 a) (ToInt32 b).

(** *** binary64 numbers by bit pattern *)

Definition b64_sign (bits : Z) : bool := Z.testbit bits 63.
Definition b64_exponent (bits : Z) : Z := Z.land (Z.shiftr bits 52) 2047.
Definition b64_fraction (bits : Z) : Z := Z.land bits (2 ^ 52 - 1).

Definition NaN : Z := 0x7FF8000000000000.

(** [Number.isInteger]: finite and without fractional part.  A normal
    number has the value (2^52 + fraction) * 2^(exponent - 1075). *)
Definition Number_isInteger (bits : Z) : bool :=
  let e := b64_exponent bits in
  let m := b64_fraction bits in
  if e =? 2047 then false
  else if e =? 0 then m =? 0
  else if 1075 <=? e then true
  else (2 ^ 52 + m) mod 2 ^ (1075 - e) =? 0.

(** The mathematical value of a number for which [Number_isInteger]
    holds. *)
Definition Number_toZ (bits : Z) : Z :=
  let e := b64_exponent bits in
  let m := b64_fraction bits in
  let magnitude :=
    if e =? 0 then 0
    else if 1075 <=? e then (2 ^ 52 + m) * 2 ^ (e - 1075)
    else (2 ^ 52 + m) / 2 ^ (1075 - e) in
  if b64_sign bits then - magnitude else magnitude.

(** The number whose value is the integer [n]; exact for |n| < 2^53,
    which covers every integer the decoder produces (below 2^32 in
    magnitude, plus one). *)
Definition Number_ofZ (n : Z) : Z :=
  if n =? 0 then 0
  else
    let a := Z.abs n in
    let k := Z.log2 a in
    (if n <? 0 then 2 ^ 63 else 0) + (k + 1023) * 2 ^ 52
    + (a * 2 ^ (52 - k) - 2 ^ 52).

End JS.

(** ** ArrayBuffer views: Uint8Array and DataView *)

Record View : Type := mkView {
  buffer : list Z;      (* the bytes of the underlying ArrayBuffer *)
  byteOffset : Z;
  byteLength : Z
}.

(** [new Uint8Array(array)]: a fresh buffer holding each element
    reduced by [ToUint8]. *)
Definition Uint8Array_from (array : list Z) : View :=
  let bytes := map JS.ToUint8 array in
  mkView bytes 0 (Z.of_nat (length bytes)).

(** The bytes a view shows. *)
Definition view_bytes (v : View) : list Z :=
  take (Z.to_nat (byteLength v)) (drop (Z.to_nat (byteOffset v)) (buffer v)).

(** An index expression: an integer, or NaN (the sum of a number and
    [undefined]). *)
Inductive index : Type :=
| Idx (i : Z)
| IdxNaN.

Definition index_add (a : index) (b : index) : index :=
  match a, b with
  | Idx x, Idx y => Idx (x + y)
  | _, _ => IdxNaN
  end.

Definition index_sub (a : index) (b : index) : index :=
  match a, b with
  | Idx x, Idx y => Idx (x - y)
  | _, _ => IdxNaN
  end.

(** [ToIndex]: NaN becomes 0; a negative integer is a RangeError. *)
Definition ToIndex (a : index) : completion Z :=
  match a with
  | IdxNaN => Normal 0
  | Idx i => if i <? 0 then Throw RangeError else Normal i
  end.

Module DataView.

Definition byte_at (v : View) (i : Z) : completion Z :=
  match buffer v !! Z.to_nat (byteOffset v + i) with
  | Some b => Normal b
  | None => Throw RangeError
  end.

(** Reads [size] bytes at [requestIndex], big-endian, as an unsigned
    integer; RangeError when the view is too short. *)
Fixpoint be_read (v : View) (i : Z) (size : nat) (acc : Z) : completion Z :=
  match size with
  | O => Normal acc
  | S size' =>
      let* b := byte_at v i in
      be_read v (i + 1) size' (acc * 256 + b)
  end.

Definition getView (v : View) (requestIndex : index) (size : nat) : completion Z :=
  let* i := ToIndex requestIndex in
  if byteLength v <? i + Z.of_nat size then Throw RangeError
  else be_read v i size 0.

Definition getUint8 (v : View) (o : index) : completion Z := getView v o 1.
Definition getUint16 (v : View) (o : index) : completion Z := getView v o 2.
Definition getUint32 (v : View) (o : index) : completion Z := getView v o 4.
(** [getFloat64] yields the number with the bit pattern read. *)
Definition getFloat64 (v : View) (o : index) : completion Z := getView v o 8.

(** Big-endian bytes of a [size]-byte unsigned integer. *)
Fixpoint be_bytes (size : nat) (x : Z) : list Z :=
  match size with
  | O => []
  | S size' => Z.land (Z.shiftr x (8 * Z.of_nat size')) 255 :: be_bytes size' x
  end.

(** [setFloat64(o, value)]: overwrite 8 bytes with the pattern of
    [value]. *)
Definition setFloat64 (v : View) (o : index) (bits : Z) : completion View :=
  let* i := ToIndex o in
  if byteLength v <? i + 8 then Throw RangeError
  else
    let start := Z.to_nat (byteOffset v + i) in
    Normal (mkView (take start (buffer v) ++ be_bytes 8 bits
                      ++ drop (start + 8)%nat (buffer v))
              (byteOffset v) (byteLength v)).

(** [new DataView(new ArrayBuffer(n))] *)
Definition fresh (n : nat) : View := mkView (replicate n 0) 0 (Z.of_nat n).

End DataView.

(** [new Uint8Array(buffer, byteOffset, length)] over an existing
    ArrayBuffer; [length] may be [undefined], then the array extends to the
    end of the buffer.  The bounds are those of the ArrayBuffer, not of
    the view the caller holds. *)
Definition Uint8Array_over (buf : list Z) (o : index) (len : option Z)
  : completion View :=
  let* offset := ToIndex o in
  let bufferByteLength := Z.of_nat (length buf) in
  match len with
  | None =>
      if bufferByteLength - offset <? 0 then Throw RangeError
      else Normal (mkView buf offset (bufferByteLength - offset))
  | Some l =>
      if bufferByteLength <? offset + l then Throw RangeError
      else Normal (mkView buf offset l)
  end.

(** The view that shows [win] inside the buffer [front ++ win ++ back]:
    what [new Uint8Array(buffer, front.length, win.length)] and
    [subarray] give. *)
Definition window (front win back : list Z) : View :=
  mkView (front ++ win ++ back) (Z.of_nat (length front)) (Z.of_nat (length win)).

(** The unsigned integer that a big-endian byte sequence denotes, after
    [acc]. *)
Definition be_value (acc : Z) (bs : list Z) : Z :=
  foldl (fun a b => a * 256 + b) acc bs.

(** ** Text encoding

    A string is held by its UTF-8 bytes.  [TextEncoder.encode] yields
    them; [TextDecoder.decode] is modelled on well-formed input, where it
    is the inverse (it never throws: ill-formed input is replaced, which
    this model does not track). *)

Definition TextEncoder_encode (s : string) : list Z :=
  map (fun b => Z.of_N (Byte.to_N b)) (list_byte_of_string s).

Definition byte_of_Z (z : Z) : Byte.byte :=
  default Byte.x00 (Byte.of_N (Z.to_N (z mod 256))).

Definition TextDecoder_decode (bytes : list Z) : string :=
  string_of_list_byte (map byte_of_Z bytes).

(** ** Values

    The JavaScript values the codec handles.  A number carries its
    binary64 pattern.  A [VMap] is a plain object: for an object given to
    [encode], its own enumerable properties in [Object.keys] order, each
    key as a [VText]; for a decoded map, the assignments
    [map[key.value] = val.value] in the order performed, the key as it was
    decoded (before its coercion to a property key). *)

Inductive Value : Type :=
| VNull
| VUndefined
| VBool (b : bool)
| VNumber (bits : Z)
| VText (s : string)
| VBytes (bytes : list Z)          (* a Uint8Array, by content *)
| VArray (items : list Value)
| VMap (entries : list (Value * Value)).

Module CBOR.

(** *** Encoder *)

Definition push (buffer : list Z) (x : Z) : list Z := buffer ++ [x].

(** [encodeUnsigned(value, majorType, buffer)].  [value] is a number
    with a non-negative integer value, given as that integer.  The
    buffer is a plain array: it receives the numbers as computed, and
    [new Uint8Array(buffer)] in [encode] reduces them to bytes. *)
Definition encodeUnsigned (value majorType : Z) (buffer : list Z) : list Z :=
  let type := JS.shl majorType 5 in
  if value <? 24 then
    push buffer (JS.bor type value)
  else if value <? 256 then
    push (push buffer (JS.bor type 24)) value
  else if value <? 65536 then
    push (push (push buffer (JS.bor type 25))
            (JS.sar value 8))
      (JS.band value 255)
  else if value <? 4294967296 then
    push (push (push (push (push buffer (JS.bor type 26))
                        (JS.sar value 24))
                  (JS.band (JS.sar value 16) 255))
            (JS.band (JS.sar value 8) 255))
      (JS.band value 255)
  else buffer.

(** The loop [for (let i = 0; i < 8; i++) buffer.push(view.getUint8(i))]. *)
Fixpoint push_view_bytes (view : View) (i : Z) (n : nat) (buffer : list Z)
  : completion (list Z) :=
  match n with
  | O => Normal buffer
  | S n' =>
      let* b := DataView.getUint8 view (Idx i) in
      push_view_bytes view (i + 1) n' (push buffer b)
  end.

(** The number branch of [encodeItem].  For an integer valued number
    the comparisons and [-value - 1] are taken on the integer value
    (the subtraction is exact below 2^53 and stays above 2^32 beyond,
    where [encodeUnsigned] emits nothing either way). *)
Definition encodeNumber (bits : Z) (buffer : list Z) : completion (list Z) :=
  if JS.Number_isInteger bits then
    let value := JS.Number_toZ bits in
    if 0 <=? value then Normal (encodeUnsigned value 0 buffer)
    else Normal (encodeUnsigned (- value - 1) 1 buffer)
  else
    let buffer := push buffer 0xFB in
    let* view := DataView.setFloat64 (DataView.fresh 8) (Idx 0) bits in
    push_view_bytes view 0 8 buffer.

Fixpoint encodeItem (value : Value) (buffer : list Z) : completion (list Z) :=
  match value with
  | VNull => Normal (push buffer 0xF6)
  | VUndefined => Normal (push buffer 0xF7)
  | VBool b => Normal (push buffer (if b then 0xF5 else 0xF4))
  | VNumber bits => encodeNumber bits buffer
  | VText s =>
      let encoded := TextEncoder_encode s in
      Normal (encodeUnsigned (Z.of_nat (length encoded)) 3 buffer ++ encoded)
  | VBytes bytes =>
      Normal (encodeUnsigned (Z.of_nat (length bytes)) 2 buffer ++ bytes)
  | VArray items =>
      (fix each (items : list Value) (buffer : list Z) : completion (list Z) :=
         match items with
         | [] => Normal buffer
         | item :: rest =>
             let* buffer := encodeItem item buffer in
             each rest buffer
         end) items (encodeUnsigned (Z.of_nat (length items)) 4 buffer)
  | VMap entries =>
      (fix each (entries : list (Value * Value)) (buffer : list Z)
         : completion (list Z) :=
         match entries with
         | [] => Normal buffer
         | (key, val) :: rest =>
             let* buffer := encodeItem key buffer in
             let* buffer := encodeItem val buffer in
             each rest buffer
         end) entries (encodeUnsigned (Z.of_nat (length entries)) 5 buffer)
  end.

(** [encode(value)]: the bytes of the resulting Uint8Array. *)
Definition encode (value : Value) : completion (list Z) :=
  let* buffer := encodeItem value [] in
  Normal (map JS.ToUint8 buffer).

(** *** Decoder *)

(** A counted loop [for (let i = 0; i < count; i++) body], the count
    in binary so that a declared count of 2^32 - 1 costs nothing until
    the body is run; it stops at the first exception. *)
Fixpoint repeatM {S : Type} (count : positive) (body : S -> completion S) (s : S)
  : completion S :=
  match count with
  | xH => body s
  | xO half =>
      let* s := repeatM half body s in
      repeatM half body s
  | xI half =>
      let* s := body s in
      let* s := repeatM half body s in
      repeatM half body s
  end.

(** [i < value] is false from the start when [value] is [undefined]. *)
Definition forM {S : Type} (value : option Z) (body : S -> completion S) (s : S)
  : completion S :=
  match value with
  | Some (Zpos count) => repeatM count body s
  | _ => Normal s
  end.

(** The object [{ value, bytesUsed }] that [decodeItem] returns. *)
Record decoded : Type := mkDecoded { r_value : Value; r_bytesUsed : index }.

(** The first part of [decodeItem]: either one of its early [return]s,
    or the local variables [value] ([None] when left [undefined]) and
    [bytesUsed] with which the [switch] is entered. *)
Inductive head : Type :=
| Return (r : decoded)
| Argument (value : option Z) (bytesUsed : Z).

Definition decodeHead (view : View) (offset : index) (info : Z) : completion head :=
  if info <? 24 then Normal (Argument (Some info) 1)
  else if info =? 24 then
    let* v := DataView.getUint8 view (index_add offset (Idx 1)) in
    Normal (Argument (Some v) 2)
  else if info =? 25 then
    let* v := DataView.getUint16 view (index_add offset (Idx 1)) in
    Normal (Argument (Some v) 3)
  else if info =? 26 then
    let* v := DataView.getUint32 view (index_add offset (Idx 1)) in
    Normal (Argument (Some v) 5)
  else if info =? 0xF4 then Normal (Return (mkDecoded (VBool false) (Idx 1)))
  else if info =? 0xF5 then Normal (Return (mkDecoded (VBool true) (Idx 1)))
  else if info =? 0xF6 then Normal (Return (mkDecoded VNull (Idx 1)))
  else if info =? 0xF7 then Normal (Return (mkDecoded VUndefined (Idx 1)))
  else Normal (Argument None 1).

(** [bytesUsed + value], NaN when [value] is [undefined]. *)
Definition plus_value (bytesUsed : Z) (value : option Z) : index :=
  match value with
  | Some v => Idx (bytesUsed + v)
  | None => IdxNaN
  end.

Definition unsupported (majorType : Z) : exn :=
  Error ("Unsupported CBOR type: "
           +:+ String (ascii_of_nat (48 + Z.to_nat majorType)) EmptyString).

(** [decodeItem(view, offset)].  [fuel] bounds the depth of the
    recursion; running out of it is the engine's RangeError for an
    exhausted call stack. *)
Fixpoint decodeItem (fuel : nat) (view : View) (offset : index) : completion decoded :=
  match fuel with
  | O => Throw RangeError
  | S fuel =>
      let* byte := DataView.getUint8 view offset in
      let majorType := JS.sar byte 5 in
      let info := JS.band byte 0x1F in
      let* h := decodeHead view offset info in
      match h with
      | Return r => Normal r
      | Argument value bytesUsed =>
          let start := index_add (index_add (Idx (byteOffset view)) offset) (Idx bytesUsed) in
          if majorType =? 0 then
            Normal (mkDecoded
                      match value with
                      | Some v => VNumber (JS.Number_ofZ v)
                      | None => VUndefined
                      end (Idx bytesUsed))
          else if majorType =? 1 then
            Normal (mkDecoded
                      match value with
                      | Some v => VNumber (JS.Number_ofZ (-1 - v))
                      | None => VNumber JS.NaN
                      end (Idx bytesUsed))
          else if majorType =? 2 then
            let* bytes := Uint8Array_over (buffer view) start value in
            Normal (mkDecoded (VBytes (view_bytes bytes)) (plus_value bytesUsed value))
          else if majorType =? 3 then
            let* bytes := Uint8Array_over (buffer view) start value in
            Normal (mkDecoded (VText (TextDecoder_decode (view_bytes bytes)))
                      (plus_value bytesUsed value))
          else if majorType =? 4 then
            let* (array, arrayOffset) :=
              forM value
                (fun '(array, arrayOffset) =>
                   let* item := decodeItem fuel view arrayOffset in
                   Normal (array ++ [item.(r_value)],
                           index_add arrayOffset item.(r_bytesUsed)))
                ([], index_add offset (Idx bytesUsed)) in
            Normal (mkDecoded (VArray array) (index_sub arrayOffset offset))
          else if majorType =? 5 then
            let* (map, mapOffset) :=
              forM value
                (fun '(map, mapOffset) =>
                   let* key := decodeItem fuel view mapOffset in
                   let mapOffset := index_add mapOffset key.(r_bytesUsed) in
                   let* val := decodeItem fuel view mapOffset in
                   let mapOffset := index_add mapOffset val.(r_bytesUsed) in
                   Normal (map ++ [(key.(r_value), val.(r_value))], mapOffset))
                ([], index_add offset (Idx bytesUsed)) in
            Normal (mkDecoded (VMap map) (index_sub mapOffset offset))
          else if (majorType =? 7) && (info =? 27) then
            let* float := DataView.getFloat64 view (index_add offset (Idx 1)) in
            Normal (mkDecoded (VNumber float) (Idx 9))
          else Throw (unsupported majorType)
      end
  end.

(** [decode(data)], with an explicit recursion budget. *)
Definition decode_with (fuel : nat) (data : View) : completion Value :=
  let view := mkView (buffer data) (byteOffset data) (byteLength data) in
  let* result := decodeItem fuel view (Idx 0) in
  Normal result.(r_value).

(** *** Notions used to state the properties *)

(** The four widths of an argument, in bytes after the initial byte,
    and whether a width can hold the magnitude [n]. *)
Definition widths : list Z := [0; 1; 2; 4].

Definition holds (width n : Z) : bool :=
  if width =? 0 then n <? 24 else n <? 2 ^ (8 * width).

(** The width [encodeUnsigned] emits: the bytes pushed, less the
    initial byte. *)
Definition emitted_width (value majorType : Z) : Z :=
  Z.of_nat (length (encodeUnsigned value majorType [])) - 1.

(** The encoding of a magnitude below 2^32 under a major type, as the
    specification words it: the class tag in the three high bits of the
    initial byte, and the smallest of inline (0 to 23), one byte, two
    bytes big-endian, four bytes big-endian that represents it. *)
Definition argument_bytes (majorType n : Z) : list Z :=
  if n <? 24 then [majorType * 32 + n]
  else if n <? 256 then [majorType * 32 + 24; n]
  else if n <? 65536 then majorType * 32 + 25 :: DataView.be_bytes 2 n
  else majorType * 32 + 26 :: DataView.be_bytes 4 n.

(** The magnitude that is encoded for the integer [n]. *)
Definition magnitude (n : Z) : Z := if 0 <=? n then n else - n - 1.

(** The bytes a view shows from [i] on, read one at a time. *)
Fixpoint read_bytes (view : View) (i : Z) (n : nat) : completion (list Z) :=
  match n with
  | O => Normal []
  | S n' =>
      let* b := DataView.getUint8 view (Idx i) in
      let* l := read_bytes view (i + 1) n' in
      Normal (b :: l)
  end.

(** The number 5.0: sign 0, exponent 1025, fraction 2^50. *)
Definition five : Z := 0x4014000000000000.

(** A nested value without [null], [undefined] and booleans. *)
Definition nested : Value :=
  VArray [VText "abc"; VBytes [1; 2; 255]; VNumber (JS.Number_ofZ (-300));
          VNumber 0x3FF8000000000000;
          VMap [(VText "checksum", VText "5151")]].

(** The loops of the array and object branches of [encodeItem]. *)
Definition encodeItems : list Value -> list Z -> completion (list Z) :=
  fix each (items : list Value) (buffer : list Z) : completion (list Z) :=
    match items with
    | [] => Normal buffer
    | item :: rest =>
        let* buffer := encodeItem item buffer in
        each rest buffer
    end.

Definition encodeEntries : list (Value * Value) -> list Z -> completion (list Z) :=
  fix each (entries : list (Value * Value)) (buffer : list Z) : completion (list Z) :=
    match entries with
    | [] => Normal buffer
    | (key, val) :: rest =>
        let* buffer := encodeItem key buffer in
        let* buffer := encodeItem val buffer in
        each rest buffer
    end.

(** A counted loop, the count in unary. *)
Fixpoint iterM {St : Type} (count : nat) (body : St -> completion St) (s : St)
  : completion St :=
  match count with
  | O => Normal s
  | S count =>
      let* s := body s in
      iterM count body s
  end.

(** The encoding of a value as the specification words it: one fixed
    byte for each of [null], [undefined], [true], [false]; an integer by
    its magnitude under the class 0, or 1 when negative; any other number
    as 0xFB and its eight bytes; text and byte strings by their length
    and their bytes under the classes 3 and 2; arrays and maps by their
    count under the classes 4 and 5, then the encodings of the elements,
    or of each key and its value, one after the other. *)
Fixpoint encoding (v : Value) : list Z :=
  match v with
  | VNull => [0xF6]
  | VUndefined => [0xF7]
  | VBool b => [if b then 0xF5 else 0xF4]
  | VNumber bits =>
      if JS.Number_isInteger bits then
        let n := JS.Number_toZ bits in
        argument_bytes (if 0 <=? n then 0 else 1) (magnitude n)
      else 0xFB :: DataView.be_bytes 8 bits
  | VText s =>
      argument_bytes 3 (Z.of_nat (length (TextEncoder_encode s)))
        ++ TextEncoder_encode s
  | VBytes bytes => argument_bytes 2 (Z.of_nat (length bytes)) ++ bytes
  | VArray items =>
      argument_bytes 4 (Z.of_nat (length items)) ++ concat (map encoding items)
  | VMap entries =>
      argument_bytes 5 (Z.of_nat (length entries))
        ++ concat (map (fun '(key, val) => encoding key ++ encoding val) entries)
  end.

(** A key of a plain object that an assignment [map[key] = val] makes
    an own property: a string other than __proto__. *)
Definition property_key (key : Value) : bool :=
  match key with
  | VText s => negb (String.eqb s "__proto__"%string)
  | _ => false
  end.

(** The values on which the codec is considered below: no [null],
    [undefined] or boolean at any depth; an integral number is the
    number of an integer of magnitude within 2^32 (which leaves out the
    negative zero); any other number is a binary64 pattern; lengths and
    counts are below 2^32; a byte string holds bytes; the keys of a map
    are property keys. *)
Fixpoint supported (v : Value) : bool :=
  match v with
  | VNull | VUndefined | VBool _ => false
  | VNumber bits =>
      if JS.Number_isInteger bits then
        let n := JS.Number_toZ bits in
        (bits =? JS.Number_ofZ n) && (-4294967296 <=? n) && (n <? 4294967296)
      else (0 <=? bits) && (bits <? 18446744073709551616)
  | VText s => Z.of_nat (length (TextEncoder_encode s)) <? 4294967296
  | VBytes bytes =>
      (Z.of_nat (length bytes) <? 4294967296)
      && forallb (fun b => (0 <=? b) && (b <? 256)) bytes
  | VArray items =>
      (Z.of_nat (length items) <? 4294967296) && forallb supported items
  | VMap entries =>
      (Z.of_nat (length entries) <? 4294967296)
      && forallb (fun '(key, val) => property_key key && supported key && supported val)
           entries
  end.

(** Whether a value holds no [null] and no boolean, at any depth. *)
Fixpoint no_null_or_boolean (v : Value) : bool :=
  match v with
  | VNull | VBool _ => false
  | VArray items => forallb no_null_or_boolean items
  | VMap entries =>
      forallb (fun '(key, val) => no_null_or_boolean key && no_null_or_boolean val) entries
  | _ => true
  end.

(** The bytes [encode] returns. *)
Definition encoded (v : Value) : list Z :=
  match encode v with
  | Normal bytes => bytes
  | Throw _ => []
  end.

(** [decode(data)].  A nested call of [decodeItem] that is not the
    re-entry of an enclosing one reads its first byte at a fresh place
    of the view, so a recursion deeper than the view is long (plus the
    NaN offset) never returns; the budget below therefore only cuts
    recursions that exhaust the call stack. *)
Definition decode (data : View) : completion Value :=
  decode_with (S (S (Z.to_nat (byteLength data)))) data.

End CBOR.

(** ** Promises and timers

    A promise is named by its index in the table of promises created so
    far; [resolve] and [reject] only act on a pending promise. *)

Inductive promise (A : Type) : Type :=
| Pending
| Fulfilled (v : A)
| Rejected (e : exn).
Arguments Pending {A}.
Arguments Fulfilled {A} v.
Arguments Rejected {A} e.

Definition settle {A} (p : nat) (outcome : promise A) (table : list (promise A))
  : list (promise A) :=
  match table !! p with
  | Some Pending => <[p := outcome]> table
  | _ => table
  end.

(** [array.indexOf(x)], [None] for -1. *)
Fixpoint indexOf `{EqDecision A} (x : A) (l : list A) : option nat :=
  match l with
  | [] => None
  | y :: l' => if decide (y = x) then Some O else S <$> indexOf x l'
  end.

(** [array.splice(index, 1)] *)
Definition splice1 {A} (i : nat) (l : list A) : list A := delete i l.

(** ** WebSerialCore *)

Module WebSerialCore.

Local Open Scope string_scope.

Record state : Type := mkState {
  connected : bool;
  writer : bool;                  (* [this.writer] is set *)
  buffer : string;
  responseResolvers : list nat;   (* each [resolve] by the promise it settles *)
  (* the environment of the object *)
  promises : list (promise string);
  timers : list (Z * nat);        (* pending [setTimeout]s: deadline, promise *)
  clock : Z;                      (* milliseconds *)
  written : list string           (* what [writer.write] was given *)
}.

Definition constructor : state :=
  mkState false false EmptyString [] [] [] 0 [].

Definition set_resolvers (l : list nat) (st : state) : state :=
  mkState st.(connected) st.(writer) st.(buffer) l
    st.(promises) st.(timers) st.(clock) st.(written).

Definition set_promises (t : list (promise string)) (st : state) : state :=
  mkState st.(connected) st.(writer) st.(buffer) st.(responseResolvers)
    t st.(timers) st.(clock) st.(written).

Definition resolve (p : nat) (v : string) (st : state) : state :=
  set_promises (settle p (Fulfilled v) st.(promises)) st.

(** [handleResponse(line)] *)
Definition handleResponse (line : string) (st : state) : state :=
  match st.(responseResolvers) with
  | resolver :: rest => resolve resolver line (set_resolvers rest st)
  | [] => st
  end.

(** [s.split('\n')]: never empty, the last element is what follows
    the last line feed. *)
Fixpoint split_lines (s : string) : list string :=
  match s with
  | EmptyString => [EmptyString]
  | String c s' =>
      if Ascii.eqb c "010"%char then EmptyString :: split_lines s'
      else
        match split_lines s' with
        | first :: others => String c first :: others
        | [] => [String c EmptyString]
        end
  end.

(** Whether [s.trim()] is the empty string: [s] consists of white
    space and line terminators only (the string is UTF-8). *)
Fixpoint blank (s : string) : bool :=
  match s with
  | EmptyString => true
  | String c s' =>
      let n := nat_of_ascii c in
      if ((9 <=? n) && (n <=? 13) || (n =? 32))%nat then blank s'
      else
        match s' with
        | String c1 s1 =>
            let n1 := nat_of_ascii c1 in
            if ((n =? 194) && (n1 =? 160))%nat then blank s1       (* U+00A0 *)
            else
              match s1 with
              | String c2 s2 =>
                  let n2 := nat_of_ascii c2 in
                  if ((n =? 225) && (n1 =? 154) && (n2 =? 128)          (* U+1680 *)
                      || (n =? 226) && (n1 =? 128)
                         && ((128 <=? n2) && (n2 <=? 138)               (* U+2000-200A *)
                             || (n2 =? 168) || (n2 =? 169)              (* U+2028, U+2029 *)
                             || (n2 =? 175))                            (* U+202F *)
                      || (n =? 226) && (n1 =? 129) && (n2 =? 159)       (* U+205F *)
                      || (n =? 227) && (n1 =? 128) && (n2 =? 128)       (* U+3000 *)
                      || (n =? 239) && (n1 =? 187) && (n2 =? 191))%nat  (* U+FEFF *)
                  then blank s2
                  else false
              | EmptyString => false
              end
        | EmptyString => false
        end
  end.

Definition set_buffer (b : string) (st : state) : state :=
  mkState st.(connected) st.(writer) b st.(responseResolvers)
    st.(promises) st.(timers) st.(clock) st.(written).

(** [processBuffer()] *)
Definition processBuffer (st : state) : state :=
  let lines := split_lines st.(buffer) in
  let st := set_buffer (List.last lines EmptyString) st in
  foldl (fun st line => if blank line then st else handleResponse line st)
    st (removelast lines).

(** The body of the read loop in [startReading] for one chunk, given
    as the text [this.decoder.decode(value)]. *)
Definition receive (text : string) (st : state) : state :=
  processBuffer (set_buffer (st.(buffer) +:+ text) st).

Definition not_connected : exn := Error "WebSerial이 연결되지 않았습니다".

(** [sendCommand(command)].  [write] is the outcome of
    [this.writer.write(command + '\n')].  The result is the exception
    the call fails with, or the promise it returns. *)
Definition sendCommand (command : string) (write : completion unit) (st : state)
  : state * completion nat :=
  if negb st.(connected) || negb st.(writer) then (st, Throw not_connected)
  else
    match write with
    | Throw error => (st, Throw error)
    | Normal _ =>
        let p := length st.(promises) in
        (mkState st.(connected) st.(writer) st.(buffer)
           (st.(responseResolvers) ++ [p])
           (st.(promises) ++ [Pending])
           (st.(timers) ++ [(st.(clock) + 5000, p)])
           st.(clock)
           (st.(written) ++ [command +:+ String "010"%char EmptyString]),
         Normal p)
    end.

(** The callback given to [setTimeout] in [sendCommand], for the
    promise [p]. *)
Definition timeout_callback (p : nat) (st : state) : state :=
  match indexOf p st.(responseResolvers) with
  | Some index =>
      resolve p "TIMEOUT" (set_resolvers (splice1 index st.(responseResolvers)) st)
  | None => st
  end.

(** Time passes: the callbacks of the timers that are due run, in the
    order the timers were set (all delays are equal, so this is the
    order of the deadlines). *)
Definition elapse (ms : Z) (st : state) : state :=
  let now := st.(clock) + ms in
  let due := filter (fun t => t.1 <= now) st.(timers) in
  let rest := filter (fun t => ¬ t.1 <= now) st.(timers) in
  foldl (fun st t => timeout_callback t.2 st)
    (mkState st.(connected) st.(writer) st.(buffer) st.(responseResolvers)
       st.(promises) rest now st.(written))
    due.

(** [sendCommand] in the two parts that its [await] separates: the
    check made before [writer.write] is called, and what runs once the
    write has settled. *)
Definition sendCommand_check (st : state) : completion unit :=
  if negb st.(connected) || negb st.(writer) then Throw not_connected else Normal tt.

Definition sendCommand_resume (command : string) (write : completion unit) (st : state)
  : state * completion nat :=
  match write with
  | Throw error => (st, Throw error)
  | Normal _ =>
      let p := length st.(promises) in
      (mkState st.(connected) st.(writer) st.(buffer)
         (st.(responseResolvers) ++ [p])
         (st.(promises) ++ [Pending])
         (st.(timers) ++ [(st.(clock) + 5000, p)])
         st.(clock)
         (st.(written) ++ [command +:+ String "010"%char EmptyString]),
       Normal p)
  end.

Definition set_connected (b : bool) (st : state) : state :=
  mkState b st.(writer) st.(buffer) st.(responseResolvers)
    st.(promises) st.(timers) st.(clock) st.(written).

Definition set_writer (b : bool) (st : state) : state :=
  mkState st.(connected) b st.(buffer) st.(responseResolvers)
    st.(promises) st.(timers) st.(clock) st.(written).

(** [disconnect()].  [port] is whether [this.port] is set, which the
    state above does not hold; [writer_close] and [port_close] are the
    outcomes of [this.writer.close()] and [this.port.close()].  An
    exception ends the [try] block and is logged.  The result is the
    state and whether [this.port] is still set. *)
Definition disconnect (port : bool) (writer_close port_close : completion unit) (st : state)
  : state * bool :=
  let closed_writer :=
    if st.(writer) then
      let* _ := writer_close in Normal (set_writer false st)
    else Normal st in
  match closed_writer with
  | Throw _ => (st, port)
  | Normal st1 =>
      let closed_port :=
        if port then let* _ := port_close in Normal false
        else Normal port in
      match closed_port with
      | Throw _ => (st1, port)
      | Normal port1 => (set_connected false st1, port1)
      end
  end.

(** [isConnected()] *)
Definition isConnected (st : state) : bool := st.(connected).

(** *** Notions used to state the properties *)

(** Resolvers and timers only name promises that exist. *)
Definition wf (st : state) : Prop :=
  Forall (fun q => (q < length st.(promises))%nat) st.(responseResolvers)
  /\ Forall (fun t => (t.2 < length st.(promises))%nat) st.(timers).

(** The resolver of the pending promise [p] is the last of the queue,
    and occurs only there. *)
Definition waiting_last (p : nat) (st : state) : Prop :=
  exists l, st.(responseResolvers) = (l ++ [p])%list /\ (p ∉ l)
            /\ st.(promises) !! p = Some Pending.

Definition LF : string := String "010"%char EmptyString.

(** The complete lines of a text and what follows its last line feed. *)
Definition complete_lines (s : string) : list string := removelast (split_lines s).
Definition unterminated (s : string) : string := List.last (split_lines s) EmptyString.

(** Whether a string holds a line feed. *)
Fixpoint has_LF (s : string) : bool :=
  match s with
  | EmptyString => false
  | String c s' => Ascii.eqb c "010"%char || has_LF s'
  end.

(** A connected port on which nothing has happened yet. *)
Definition opened : state := mkState true true EmptyString [] [] [] 0 [].

(** Two commands are sent, then the device answers the second one
    first. *)
Definition crossed : state :=
  let '(st, _) := sendCommand "get a" (Normal tt) opened in
  let '(st, _) := sendCommand "get b" (Normal tt) st in
  receive ("value of b" +:+ LF +:+ "value of a" +:+ LF) st.

(** A command is sent and five seconds pass without a line. *)
Definition unanswered : state :=
  let '(st, _) := sendCommand "get a" (Normal tt) opened in
  elapse 5000 st.

(** A command is sent and the device answers with the line TIMEOUT. *)
Definition answered_TIMEOUT : state :=
  let '(st, _) := sendCommand "get a" (Normal tt) opened in
  receive ("TIMEOUT" +:+ LF) st.

End WebSerialCore.

(** ** VelocityDriveClient

    The classes [MUP1Protocol], [CoAPMessage] and [CBORCodec] the client
    calls live in a file that is not among the sources at hand; what the
    client uses of them is taken as a parameter. *)

Module Client.

Local Open Scope string_scope.
Local Open Scope list_scope.

(** The header fields and payload of a decoded CoAP message that the
    client reads; [payload] is [None] when [coap.payload] is falsy. *)
Record CoAP : Type := mkCoAP {
  messageId : Z;
  code : Z;
  payload : option (list Z)
}.

Section WithProtocol.

(** The state of [this.protocol], what [processData] yields and
    what [parsePingResponse] yields. *)
Context {Protocol Frame DeviceInfo : Type}.

Variable createCoAPMessage :
  string -> string -> option (list Z) -> Protocol -> Protocol * completion (list Z).
Variable parsePingResponse :
  list Z -> Protocol -> Protocol * completion (option DeviceInfo).
Variable processData :
  list Z -> Protocol -> Protocol * completion (list Frame).
Variable CoAPMessage_decode : Frame -> completion (option CoAP).
Variable CBORCodec_decode : list Z -> completion Value.
Variable CBORCodec_encode : Value -> completion (list Z).

(** The data an event is emitted with. *)
Inductive event_data : Type :=
| NoData
| RawData (direction : string) (data : list Z)
| Discovered (info : DeviceInfo)
| CatalogId (id : string)
| DataReceived (messageId code : Z) (data : Value)
| Failure (error : exn).

(** The functions registered as listeners: the closure [handler] of
    a YANG request, which knows its promise and its timer, or a
    listener registered from outside, whose calls are recorded. *)
Inductive callback : Type :=
| Handler (p : nat) (timeout : nat)
| Listener (id : nat).

#[local] Instance callback_eq_dec : EqDecision callback.
Proof. solve_decision. Defined.

Record state : Type := mkState {
  protocol : Protocol;
  connected : bool;
  writer : bool;                              (* [this.writer] is set *)
  readable : bool;                            (* [this.port.readable] *)
  deviceInfo : option DeviceInfo;
  yangCatalogId : option string;
  eventListeners : gmap string (list callback);
  (* the environment of the object *)
  reading : bool;                             (* [readLoop] has not returned *)
  link : completion unit;                     (* how [writer.write] settles *)
  promises : list (promise event_data);
  timers : list (nat * (Z * nat));            (* id, deadline, promise to reject *)
  next_timer : nat;
  clock : Z;                                  (* milliseconds *)
  written : list (list Z);                    (* what [writer.write] was given *)
  calls : list (nat * string * event_data)    (* calls of outside listeners *)
}.

Definition set_protocol (x : Protocol) (st : state) : state :=
  mkState x st.(connected) st.(writer) st.(readable) st.(deviceInfo)
    st.(yangCatalogId) st.(eventListeners) st.(reading) st.(link)
    st.(promises) st.(timers) st.(next_timer) st.(clock) st.(written) st.(calls).

Definition set_deviceInfo (x : option DeviceInfo) (st : state) : state :=
  mkState st.(protocol) st.(connected) st.(writer) st.(readable) x
    st.(yangCatalogId) st.(eventListeners) st.(reading) st.(link)
    st.(promises) st.(timers) st.(next_timer) st.(clock) st.(written) st.(calls).

Definition set_yangCatalogId (x : option string) (st : state) : state :=
  mkState st.(protocol) st.(connected) st.(writer) st.(readable) st.(deviceInfo)
    x st.(eventListeners) st.(reading) st.(link)
    st.(promises) st.(timers) st.(next_timer) st.(clock) st.(written) st.(calls).

Definition set_eventListeners (x : gmap string (list callback)) (st : state) : state :=
  mkState st.(protocol) st.(connected) st.(writer) st.(readable) st.(deviceInfo)
    st.(yangCatalogId) x st.(reading) st.(link)
    st.(promises) st.(timers) st.(next_timer) st.(clock) st.(written) st.(calls).

Definition set_reading (x : bool) (st : state) : state :=
  mkState st.(protocol) st.(connected) st.(writer) st.(readable) st.(deviceInfo)
    st.(yangCatalogId) st.(eventListeners) x st.(link)
    st.(promises) st.(timers) st.(next_timer) st.(clock) st.(written) st.(calls).

Definition set_promises (x : list (promise event_data)) (st : state) : state :=
  mkState st.(protocol) st.(connected) st.(writer) st.(readable) st.(deviceInfo)
    st.(yangCatalogId) st.(eventListeners) st.(reading) st.(link)
    x st.(timers) st.(next_timer) st.(clock) st.(written) st.(calls).

Definition set_timers (x : list (nat * (Z * nat))) (st : state) : state :=
  mkState st.(protocol) st.(connected) st.(writer) st.(readable) st.(deviceInfo)
    st.(yangCatalogId) st.(eventListeners) st.(reading) st.(link)
    st.(promises) x st.(next_timer) st.(clock) st.(written) st.(calls).

Definition set_written (x : list (list Z)) (st : state) : state :=
  mkState st.(protocol) st.(connected) st.(writer) st.(readable) st.(deviceInfo)
    st.(yangCatalogId) st.(eventListeners) st.(reading) st.(link)
    st.(promises) st.(timers) st.(next_timer) st.(clock) x st.(calls).

Definition set_calls (x : list (nat * string * event_data)) (st : state) : state :=
  mkState st.(protocol) st.(connected) st.(writer) st.(readable) st.(deviceInfo)
    st.(yangCatalogId) st.(eventListeners) st.(reading) st.(link)
    st.(promises) st.(timers) st.(next_timer) st.(clock) st.(written) x.

(** The state the constructor leaves, around a given protocol object. *)
Definition constructor (proto : Protocol) : state :=
  mkState proto false false false None None ∅ false (Normal tt) [] [] 0 0 [] [].

Definition resolve (p : nat) (data : event_data) (st : state) : state :=
  set_promises (settle p (Fulfilled data) st.(promises)) st.

Definition reject (p : nat) (e : exn) (st : state) : state :=
  set_promises (settle p (Rejected e) st.(promises)) st.

Definition clearTimeout (id : nat) (st : state) : state :=
  set_timers (filter (fun t => t.1 ≠ id) st.(timers)) st.

(** [on(event, callback)] *)
Definition on (event : string) (cb : callback) (st : state) : state :=
  let listeners := default [] (st.(eventListeners) !! event) in
  set_eventListeners (<[event := listeners ++ [cb]]> st.(eventListeners)) st.

(** [off(event, callback)] *)
Definition off (event : string) (cb : callback) (st : state) : state :=
  match st.(eventListeners) !! event with
  | Some listeners =>
      match indexOf cb listeners with
      | Some index =>
          set_eventListeners
            (<[event := splice1 index listeners]> st.(eventListeners)) st
      | None => st
      end
  | None => st
  end.

(** A call [callback(data)] made by [emit(event, data)]. *)
Definition call (event : string) (cb : callback) (data : event_data) (st : state)
  : state :=
  match cb with
  | Handler p timeout =>
      resolve p data (off "dataReceived" (Handler p timeout) (clearTimeout timeout st))
  | Listener id => set_calls (st.(calls) ++ [(id, event, data)]) st
  end.

(** [listeners.forEach(callback => callback(data))] from index [k]
    on, for [n] more indices: the length is read once, the array is
    the live one, and an index the array no longer has is skipped. *)
Fixpoint forEach (n : nat) (k : nat) (event : string) (data : event_data) (st : state)
  : state :=
  match n with
  | O => st
  | S n' =>
      let st :=
        match default [] (st.(eventListeners) !! event) !! k with
        | Some cb => call event cb data st
        | None => st
        end in
      forEach n' (S k) event data st
  end.

(** [emit(event, data)] *)
Definition emit (event : string) (data : event_data) (st : state) : state :=
  match st.(eventListeners) !! event with
  | Some listeners => forEach (length listeners) 0 event data st
  | None => st
  end.

(** [sendRaw(data)] *)
Definition sendRaw (data : list Z) (st : state) : state * completion unit :=
  if negb st.(connected) || negb st.(writer) then
    (st, Throw (Error "Not connected to device"))
  else
    match st.(link) with
    | Normal _ => (set_written (st.(written) ++ [data]) st, Normal tt)
    | Throw error => (emit "error" (Failure error) st, Throw error)
    end.

(** [!this.yangCatalogId]: [null] and the empty string are falsy. *)
Definition catalog_missing (st : state) : bool :=
  match st.(yangCatalogId) with
  | None => true
  | Some id => String.eqb id EmptyString
  end.

(** The executor of the promise a YANG request returns: it sets the
    timer, builds [handler] and registers it for "dataReceived". *)
Definition new_request_promise (st : state) : state * nat :=
  let p := length st.(promises) in
  let timeout := st.(next_timer) in
  let st :=
    mkState st.(protocol) st.(connected) st.(writer) st.(readable) st.(deviceInfo)
      st.(yangCatalogId) st.(eventListeners) st.(reading) st.(link)
      (st.(promises) ++ [Pending])
      (st.(timers) ++ [(timeout, (st.(clock) + 10000, p))])
      (S timeout) st.(clock) st.(written) st.(calls) in
  (on "dataReceived" (Handler p timeout) st, p).

(** What [yangGet], [yangSet] and [yangDelete] share once the
    catalog check has passed and the payload is known: build the
    message, send it, return the promise. *)
Definition request (method path : string) (body : option (list Z)) (st : state)
  : state * completion nat :=
  let '(proto, message) := createCoAPMessage method path body st.(protocol) in
  let st := set_protocol proto st in
  match message with
  | Throw e => (st, Throw e)
  | Normal coapMessage =>
      let '(st, sent) := sendRaw coapMessage st in
      match sent with
      | Throw e => (st, Throw e)
      | Normal _ =>
          let '(st, p) := new_request_promise st in
          (st, Normal p)
      end
  end.

Definition catalog_not_loaded : exn := Error "YANG catalog not loaded".

(** [yangGet(path)]: the exception the call fails with, or the
    promise it returns. *)
Definition yangGet (path : string) (st : state) : state * completion nat :=
  if catalog_missing st then (st, Throw catalog_not_loaded)
  else request "GET" path None st.

(** [yangSet(path, value)] *)
Definition yangSet (path : string) (value : Value) (st : state)
  : state * completion nat :=
  if catalog_missing st then (st, Throw catalog_not_loaded)
  else
    match CBORCodec_encode value with
    | Throw e => (st, Throw e)
    | Normal body => request "PUT" path (Some body) st
    end.

(** [yangDelete(path)] *)
Definition yangDelete (path : string) (st : state) : state * completion nat :=
  if catalog_missing st then (st, Throw catalog_not_loaded)
  else request "DELETE" path None st.

(** The callback of the timer of a YANG request. *)
Definition timeout_callback (p : nat) (st : state) : state :=
  reject p (Error "Request timeout") st.

(** Time passes: the timers that are due fire, in the order they
    were set (all delays are equal). *)
Definition elapse (ms : Z) (st : state) : state :=
  let now := st.(clock) + ms in
  let due := filter (fun t => (t.2.1 <= now)%Z) st.(timers) in
  let rest := filter (fun t => ¬ (t.2.1 <= now)%Z) st.(timers) in
  foldl (fun st t => timeout_callback t.2.2 st)
    (mkState st.(protocol) st.(connected) st.(writer) st.(readable) st.(deviceInfo)
       st.(yangCatalogId) st.(eventListeners) st.(reading) st.(link)
       st.(promises) rest st.(next_timer) now st.(written) st.(calls))
    due.

(** [getYangCatalog()] *)
Definition getYangCatalog (st : state) : state * completion unit :=
  let '(proto, message) :=
    createCoAPMessage "FETCH" "/ietf-constrained-yang-library:yang-library/checksum"
      None st.(protocol) in
  let st := set_protocol proto st in
  match message with
  | Throw e => (st, Throw e)
  | Normal coapMessage =>
      let '(st, sent) := sendRaw coapMessage st in
      match sent with
      | Throw e => (st, Throw e)
      | Normal _ => (emit "rawData" (RawData "send" coapMessage) st, Normal tt)
      end
  end.

(** Whether [ToPropertyKey(key)] is the string "checksum": a text is
    itself, an array of one element is that element's string, and no
    other value of the codec has this string. *)
Fixpoint is_checksum_key (key : Value) : bool :=
  match key with
  | VText s => String.eqb s "checksum"
  | VArray [item] => is_checksum_key item
  | _ => false
  end.

(** [isYangCatalogResponse(data)]:
    [data && typeof data === 'object' && 'checksum' in data]. *)
Definition isYangCatalogResponse (data : Value) : bool :=
  match data with
  | VMap entries => existsb (fun entry => is_checksum_key entry.1) entries
  | _ => false
  end.

Definition hex_digit (n : Z) : ascii :=
  if (n <? 10)%Z then ascii_of_nat (48 + Z.to_nat n) else ascii_of_nat (87 + Z.to_nat n).

(** [extractCatalogId(payload)]: two lower case hex digits a byte. *)
Fixpoint extractCatalogId (payload : list Z) : string :=
  match payload with
  | [] => EmptyString
  | b :: rest =>
      String (hex_digit (b / 16)) (String (hex_digit (b mod 16)) (extractCatalogId rest))
  end.

(** [handleCoAPFrame(frame)] *)
Definition handleCoAPFrame (frame : Frame) (st : state) : state * completion unit :=
  match CoAPMessage_decode frame with
  | Throw e => (st, Throw e)
  | Normal None => (st, Normal tt)
  | Normal (Some coap) =>
      match coap.(payload) with
      | None => (st, Normal tt)
      | Some bytes =>
          match CBORCodec_decode bytes with
          | Throw e => (st, Throw e)
          | Normal decoded =>
              if isYangCatalogResponse decoded then
                let id := extractCatalogId bytes in
                (emit "yangCatalogReceived" (CatalogId id)
                   (set_yangCatalogId (Some id) st), Normal tt)
              else
                (emit "dataReceived"
                   (DataReceived coap.(messageId) coap.(code) decoded) st, Normal tt)
          end
      end
  end.

(** [for (const frame of frames) await this.handleCoAPFrame(frame)] *)
Fixpoint handleFrames (frames : list Frame) (st : state) : state * completion unit :=
  match frames with
  | [] => (st, Normal tt)
  | frame :: rest =>
      let '(st, c) := handleCoAPFrame frame st in
      match c with
      | Throw e => (st, Throw e)
      | Normal _ => handleFrames rest st
      end
  end.

Fixpoint starts_with (pattern text : list Z) : bool :=
  match pattern, text with
  | [], _ => true
  | a :: pattern', b :: text' => (a =? b)%Z && starts_with pattern' text'
  | _ :: _, [] => false
  end.

(** [text.includes(pattern)] for an ASCII pattern, on the bytes the
    text was decoded from. *)
Fixpoint includes (pattern text : list Z) : bool :=
  starts_with pattern text
  || match text with
     | [] => false
     | _ :: text' => includes pattern text'
     end.

(** [handleData(data)] *)
Definition handleData (data : list Z) (st : state) : state * completion unit :=
  let st := emit "rawData" (RawData "receive" data) st in
  if includes (TextEncoder_encode "VelocitySP-v") data then
    let '(proto, parsed) := parsePingResponse data st.(protocol) in
    let st := set_protocol proto st in
    match parsed with
    | Throw e => (st, Throw e)
    | Normal None => (st, Normal tt)
    | Normal (Some info) =>
        let st := set_deviceInfo (Some info) st in
        let st := emit "deviceDiscovered" (Discovered info) st in
        getYangCatalog st
    end
  else
    let '(proto, frames) := processData data st.(protocol) in
    let st := set_protocol proto st in
    match frames with
    | Throw e => (st, Throw e)
    | Normal frames => handleFrames frames st
    end.

(** What [reader.read()] settles with. *)
Inductive read_result : Type :=
| Chunk (value : list Z)
| Done
| ReadError (error : exn).

(** The call [readLoop()], up to its first [await]: the loop is
    entered when the port is readable and the client connected. *)
Definition readLoop (st : state) : state :=
  set_reading (st.(readable) && st.(connected)) st.

(** The [catch] clause of [readLoop], which leaves the loop. *)
Definition readLoop_catch (error : exn) (st : state) : state :=
  set_reading false
    (if st.(connected) then emit "error" (Failure error) st else st).

(** One [await reader.read()] of a running [readLoop] settles with
    [r], and the loop runs on to its next [await] or to its end. *)
Definition deliver (r : read_result) (st : state) : state :=
  if negb st.(reading) then st
  else
    match r with
    | Done => readLoop st
    | ReadError error => readLoop_catch error st
    | Chunk value =>
        let '(st, c) := handleData value st in
        match c with
        | Normal _ => st
        | Throw error => readLoop_catch error st
        end
    end.

(** *** Connecting and disconnecting *)

(** [this.protocol.createPingMessage()] *)
Variable createPingMessage : Protocol -> Protocol * completion (list Z).

Definition set_connected (x : bool) (st : state) : state :=
  mkState st.(protocol) x st.(writer) st.(readable) st.(deviceInfo)
    st.(yangCatalogId) st.(eventListeners) st.(reading) st.(link)
    st.(promises) st.(timers) st.(next_timer) st.(clock) st.(written) st.(calls).

Definition set_writer (x : bool) (st : state) : state :=
  mkState st.(protocol) st.(connected) x st.(readable) st.(deviceInfo)
    st.(yangCatalogId) st.(eventListeners) st.(reading) st.(link)
    st.(promises) st.(timers) st.(next_timer) st.(clock) st.(written) st.(calls).

Definition set_readable (x : bool) (st : state) : state :=
  mkState st.(protocol) st.(connected) st.(writer) x st.(deviceInfo)
    st.(yangCatalogId) st.(eventListeners) st.(reading) st.(link)
    st.(promises) st.(timers) st.(next_timer) st.(clock) st.(written) st.(calls).

(** [discoverDevice()] *)
Definition discoverDevice (st : state) : state * completion unit :=
  let '(proto, message) := createPingMessage st.(protocol) in
  let st := set_protocol proto st in
  match message with
  | Throw e => (st, Throw e)
  | Normal pingMessage =>
      let '(st, sent) := sendRaw pingMessage st in
      match sent with
      | Throw e => (st, Throw e)
      | Normal _ => (emit "rawData" (RawData "send" pingMessage) st, Normal tt)
      end
  end.

(** [connect(options)].  [opened] is how requesting the port, opening
    it and setting up the writer end: with an exception, or with a port
    that is readable and a writer.  [readLoop()] is called, and runs up
    to its first [await], before [this.connected] is set.  The steps
    after the port is open run to the end of [connect] with no read
    settling in between. *)
Definition connect (opened : completion unit) (st : state) : state * completion bool :=
  match opened with
  | Throw error => (emit "error" (Failure error) st, Throw error)
  | Normal _ =>
      let st := set_writer true (set_readable true st) in
      let st := readLoop st in
      let st := set_connected true st in
      let st := emit "connected" NoData st in
      let '(st, discovered) := discoverDevice st in
      match discovered with
      | Throw error => (emit "error" (Failure error) st, Throw error)
      | Normal _ => (st, Normal true)
      end
  end.

(** [disconnect()].  [reader] and [port] are whether [this.reader] and
    [this.port] are set, which the state above does not hold; the three
    completions are the outcomes of [this.writer.close()],
    [this.reader.cancel()] and [this.port.close()].  The result is the
    state and whether [this.reader] and [this.port] are still set.
    [this.connected] is cleared before the first [await]; the reads that
    settle while [disconnect] waits are the steps of [deliver], taken
    after it. *)
Definition disconnect (reader port : bool)
    (writer_close reader_cancel port_close : completion unit) (st : state)
  : state * (bool * bool) :=
  let st := set_connected false st in
  let closed_writer :=
    if st.(writer) then let* _ := writer_close in Normal (set_writer false st)
    else Normal st in
  match closed_writer with
  | Throw error => (emit "error" (Failure error) st, (reader, port))
  | Normal st1 =>
      let cancelled := if reader then let* _ := reader_cancel in Normal false
                       else Normal reader in
      match cancelled with
      | Throw error => (emit "error" (Failure error) st1, (reader, port))
      | Normal reader1 =>
          let closed_port := if port then let* _ := port_close in Normal false
                             else Normal port in
          match closed_port with
          | Throw error => (emit "error" (Failure error) st1, (reader1, port))
          | Normal port1 => (emit "disconnected" NoData st1, (reader1, port1))
          end
      end
  end.

(** *** Notions used to state the properties *)

(** The listeners registered for an event. *)
Definition listeners (event : string) (st : state) : list callback :=
  default [] (st.(eventListeners) !! event).

(** Timers only name promises that exist. *)
Definition wf (st : state) : Prop :=
  Forall (fun t => (t.2.2 < length st.(promises))%nat) st.(timers).



(** The digit that a lower case hex character stands for. *)
Definition hex_value (c : ascii) : Z :=
  let n := Z.of_nat (nat_of_ascii c) in
  if (n <? 58)%Z then (n - 48)%Z else (n - 87)%Z.

End WithProtocol.

End Client.

(** ** A bench to run the client

    Simple stand-ins for the functions of the protocol file that is not
    at hand, to run the client on concrete inputs.  The properties below
    are proved for every choice of these functions; the stand-ins only
    serve the concrete runs.  A frame is a message id followed by the
    payload; every chunk is one frame; the payload codec is the CBOR
    codec above. *)

Module Bench.

Import Client.
Local Open Scope string_scope.
Local Open Scope list_scope.

(** The protocol object only counts the message ids it has given out. *)
Definition createCoAPMessage (method path : string) (body : option (list Z)) (next : Z)
  : Z * completion (list Z) :=
  (next + 1,
   Normal (next :: TextEncoder_encode method ++ 32 :: TextEncoder_encode path
             ++ default [] body)).

Definition parsePingResponse (data : list Z) (next : Z)
  : Z * completion (option unit) :=
  (next, Normal None).

Definition processData (data : list Z) (next : Z) : Z * completion (list (list Z)) :=
  (next, Normal [data]).

Definition createPingMessage (next : Z) : Z * completion (list Z) :=
  (next, Normal (TextEncoder_encode "p")).

Definition CoAPMessage_decode (frame : list Z) : completion (option CoAP) :=
  match frame with
  | id :: body => Normal (Some (mkCoAP id 69 (Some body)))
  | [] => Normal None
  end.

Definition CBORCodec_decode (bytes : list Z) : completion Value :=
  CBOR.decode (Uint8Array_from bytes).

Definition CBORCodec_encode (value : Value) : completion (list Z) :=
  CBOR.encode value.

Definition yangGet := Client.yangGet (DeviceInfo := unit) createCoAPMessage.
Definition yangSet := Client.yangSet (DeviceInfo := unit) createCoAPMessage CBORCodec_encode.
Definition yangDelete := Client.yangDelete (DeviceInfo := unit) createCoAPMessage.
Definition deliver :=
  Client.deliver createCoAPMessage parsePingResponse processData
    CoAPMessage_decode CBORCodec_decode.

(** A connected client that has got its catalog id, reading. *)
Definition ready : @state Z unit :=
  mkState 1 true true true None (Some "5151") ∅ true (Normal tt) [] [] 0 0 [] [].

(** A connected client that has not got its catalog id yet. *)
Definition discovering : @state Z unit :=
  mkState 1 true true true None None ∅ true (Normal tt) [] [] 0 0 [] [].

(** The CBOR text "a" and the CBOR text "b". *)
Definition text_a : list Z := [0x61; 0x61].
Definition text_b : list Z := [0x61; 0x62].

(** Two requests are made (message ids 1 and 2, promises 0 and 1),
    then the device answers the second one first. *)
Definition first_sent : @state Z unit := (yangGet "/a" ready).1.
Definition both_sent : @state Z unit := (yangGet "/b" first_sent).1.

Definition crossed : @state Z unit :=
  let st := deliver (Chunk (2 :: text_b)) both_sent in
  deliver (Chunk (1 :: text_a)) st.

(** Listener 0 for "dataReceived" and listener 1 for "error". *)
Definition listening : @state Z unit :=
  on "dataReceived" (Listener 0) (on "error" (Listener 1) ready).

(** A text of declared length 2 with one byte only. *)
Definition truncated_text : list Z := [0x62; 0x61].

(** A frame whose payload does not decode arrives, then a valid one. *)
Definition after_bad_frame : @state Z unit :=
  let st := deliver (Chunk (7 :: truncated_text)) listening in
  deliver (Chunk (8 :: text_a)) st.

(** A request is made and ten seconds pass without an answer. *)
Definition unanswered : @state Z unit :=
  let '(st, _) := yangGet "/a" ready in
  elapse 10000 st.

(** A client as the constructor leaves it. *)
Definition fresh : @state Z unit :=
  mkState 1 false false false None None ∅ false (Normal tt) [] [] 0 0 [] [].

(** A client that has got a catalog id and is not connected. *)
Definition offline : @state Z unit :=
  mkState 1 false false false None (Some "5151") ∅ false (Normal tt) [] [] 0 0 [] [].

(** Listener 0 is registered for "dataReceived" after a request was
    made. *)
Definition watched : @state Z unit := on "dataReceived" (Listener 0) first_sent.

(** The CBOR map with the one entry "checksum": 1. *)
Definition checksum_payload : list Z :=
  [0xA1; 0x68; 99; 104; 101; 99; 107; 115; 117; 109; 0x01].

(** The device banner. *)
Definition banner : list Z := TextEncoder_encode "VelocitySP-v2025.06".

End Bench.

(** * Properties *)

(** ** Lists and promise tables *)

Lemma settle_lookup {A} (p : nat) (o : promise A) table :
  table !! p = Some Pending -> settle p o table !! p = Some o.
Proof.
  intros H. unfold settle. rewrite H. apply list_lookup_insert_eq.
  by eapply lookup_lt_Some.
Qed.

Lemma settle_lookup_ne {A} (p q : nat) (o : promise A) table :
  p <> q -> settle p o table !! q = table !! q.
Proof.
  intros H. unfold settle. destruct (table !! p) as [[]|]; try done.
  by apply list_lookup_insert_ne.
Qed.

Lemma lookup_fresh_pending {A} (table : list (promise A)) more :
  (table ++ Pending :: more) !! length table = Some Pending.
Proof. by rewrite list_lookup_middle. Qed.

Lemma indexOf_app_ne `{EqDecision A} (x y : A) l :
  x <> y -> indexOf x (l ++ [y]) = indexOf x l.
Proof.
  intros H. induction l as [|z l IH]; simpl.
  - by rewrite decide_False.
  - destruct (decide (z = x)); [done|]. by rewrite IH.
Qed.

Lemma indexOf_lt `{EqDecision A} (x : A) l i :
  indexOf x l = Some i -> (i < length l)%nat.
Proof.
  revert i. induction l as [|z l IH]; intros i; simpl; [done|].
  destruct (decide (z = x)).
  - intros [= <-]. lia.
  - destruct (indexOf x l) as [j|]; simpl; [|done].
    intros [= <-]. specialize (IH j eq_refl). lia.
Qed.

Lemma indexOf_app_first `{EqDecision A} (x : A) l r :
  x ∉ l -> indexOf x (l ++ x :: r) = Some (length l).
Proof.
  induction l as [|z l IH]; intros H; simpl.
  - by rewrite decide_True.
  - apply not_elem_of_cons in H as [Hne Hl].
    rewrite decide_False by done. by rewrite IH.
Qed.

Lemma delete_app_l {A} (l k : list A) i :
  (i < length l)%nat -> delete i (l ++ k) = delete i l ++ k.
Proof.
  revert i. induction l as [|z l IH]; intros i H; simpl in *; [lia|].
  destruct i; [done|]. simpl. f_equal. apply IH. lia.
Qed.

Lemma delete_middle {A} (l r : list A) x : delete (length l) (l ++ x :: r) = l ++ r.
Proof. induction l as [|z l IH]; simpl; [done|]. by f_equal. Qed.

Lemma not_elem_of_delete {A} (l : list A) x i : x ∉ l -> x ∉ delete i l.
Proof. intros H Hin. apply H. by eapply list_elem_of_delete_inv. Qed.

Lemma Forall_filter_keep {A} (Q P : A -> Prop) `{!forall x, Decision (P x)} l :
  Forall Q l -> Forall Q (filter P l).
Proof.
  rewrite !Forall_forall. intros HQ x Hx. apply HQ.
  by apply list_elem_of_filter in Hx as [_ Hx].
Qed.

Ltac reduce_default := cbv beta iota delta [default from_option Datatypes.id].

(** ** Numbers and bit operations *)

Section NumberFacts.

Import JS.

(** The fields of the pattern [sign * 2^63 + e * 2^52 + m]. *)
Lemma b64_fields (s : bool) e m :
  0 <= e < 2048 -> 0 <= m < 2 ^ 52 ->
  let bits := (if s then 2 ^ 63 else 0) + e * 2 ^ 52 + m in
  b64_sign bits = s /\ b64_exponent bits = e /\ b64_fraction bits = m.
Proof.
  intros He Hm bits. unfold b64_sign, b64_exponent, b64_fraction.
  assert (Hbits : bits = m + 2 ^ 52 * (e + 2 ^ 11 * (if s then 1 else 0))).
  { unfold bits. destruct s; lia. }
  split; [|split].
  - rewrite Z.testbit_eqb by lia. rewrite Hbits.
    replace (m + 2 ^ 52 * (e + 2 ^ 11 * (if s then 1 else 0)))
      with ((m + 2 ^ 52 * e) + (if s then 1 else 0) * 2 ^ 63) by (destruct s; lia).
    rewrite Z.div_add by lia. rewrite Z.div_small by lia.
    by destruct s.
  - change 2047 with (Z.ones 11). rewrite Z.land_ones by lia.
    rewrite Z.shiftr_div_pow2 by lia. rewrite Hbits.
    rewrite (Z.mul_comm (2 ^ 52)), Z.div_add by lia.
    rewrite (Z.div_small m) by lia. rewrite Z.add_0_l.
    rewrite (Z.mul_comm (2 ^ 11)), Z.mod_add by lia. apply Z.mod_small. lia.
  - change (2 ^ 52 - 1) with (Z.ones 52). rewrite Z.land_ones by lia.
    rewrite Hbits, (Z.mul_comm (2 ^ 52)), Z.mod_add by lia. apply Z.mod_small. lia.
Qed.

Lemma Number_ofZ_nonzero n :
  n <> 0 -> Z.abs n < 2 ^ 53 ->
  exists k m,
    0 <= k <= 52 /\ 0 <= m < 2 ^ 52
    /\ 2 ^ 52 + m = Z.abs n * 2 ^ (52 - k)
    /\ Number_ofZ n = (if n <? 0 then 2 ^ 63 else 0) + (k + 1023) * 2 ^ 52 + m.
Proof.
  intros Hn Hlt. set (a := Z.abs n). set (k := Z.log2 a).
  assert (Ha : 0 < a) by (unfold a; lia).
  destruct (Z.log2_spec a Ha) as [Hlo Hhi]. fold k in Hlo, Hhi.
  assert (Hk0 : 0 <= k) by apply Z.log2_nonneg.
  assert (Hk : k <= 52).
  { assert (k < 53); [|lia]. apply Z.log2_lt_pow2; [done|]. exact Hlt. }
  assert (Hpow : 2 ^ k * 2 ^ (52 - k) = 2 ^ 52).
  { rewrite <- Z.pow_add_r by lia. f_equal. lia. }
  assert (Hp : 0 < 2 ^ (52 - k)) by (apply Z.pow_pos_nonneg; lia).
  assert (Hsucc : 2 ^ Z.succ k * 2 ^ (52 - k) = 2 ^ 53).
  { rewrite <- Z.pow_add_r by lia. f_equal. lia. }
  exists k, (a * 2 ^ (52 - k) - 2 ^ 52).
  split; [lia|]. split; [nia|]. split; [lia|].
  unfold Number_ofZ. rewrite (proj2 (Z.eqb_neq n 0)) by done. reflexivity.
Qed.

Lemma Number_ofZ_integer n :
  Z.abs n < 2 ^ 53 ->
  Number_isInteger (Number_ofZ n) = true /\ Number_toZ (Number_ofZ n) = n.
Proof.
  intros Hlt. destruct (decide (n = 0)) as [->|Hn]; [by vm_compute|].
  destruct (Number_ofZ_nonzero n Hn Hlt) as (k & m & Hk & Hm & Hval & ->).
  destruct (b64_fields (n <? 0) (k + 1023) m) as (Hs & He & Hf); [lia|lia|].
  cbv zeta in Hs, He, Hf.
  assert (Hp : 0 < 2 ^ (52 - k)) by (apply Z.pow_pos_nonneg; lia).
  unfold Number_isInteger, Number_toZ. rewrite Hs, He, Hf.
  rewrite (proj2 (Z.eqb_neq (k + 1023) 2047)) by lia.
  rewrite (proj2 (Z.eqb_neq (k + 1023) 0)) by lia.
  destruct (Z.leb_spec 1075 (k + 1023)) as [Hge|Hlt'].
  - assert (k = 52) as -> by lia. split; [done|].
    change (52 + 1023 - 1075) with 0. change (52 - 52) with 0 in Hval.
    rewrite Hval. destruct (Z.ltb_spec n 0); lia.
  - replace (1075 - (k + 1023)) with (52 - k) by lia. rewrite Hval. split.
    + rewrite Z.mod_mul by lia. reflexivity.
    + rewrite Z.div_mul by lia. destruct (Z.ltb_spec n 0); lia.
Qed.

Lemma ToInt32_mod_256 z : ToInt32 z mod 256 = z mod 256.
Proof.
  unfold ToInt32. change (2 ^ 32) with 4294967296. change (2 ^ 31) with 2147483648.
  destruct (z mod 4294967296 <? 2147483648); Z.div_mod_to_equations; lia.
Qed.

Lemma land_255 z : Z.land z 255 = z mod 256.
Proof. change 255 with (Z.ones 8). by rewrite Z.land_ones by lia. Qed.

Lemma sar_mod_256 n s :
  s = 0 \/ s = 8 \/ s = 16 \/ s = 24 ->
  sar n s mod 256 = Z.land (Z.shiftr n s) 255.
Proof.
  intros Hs. rewrite land_255. unfold sar, ToInt32.
  change (2 ^ 32) with 4294967296. change (2 ^ 31) with 2147483648.
  destruct Hs as [-> | [-> | [-> | ->]]].
  - change (0 mod 32) with 0. rewrite !Z.shiftr_0_r.
    destruct (n mod 4294967296 <? 2147483648); Z.div_mod_to_equations; lia.
  - change (8 mod 32) with 8. rewrite !(Z.shiftr_div_pow2 _ 8) by lia.
    change (2 ^ 8) with 256.
    destruct (n mod 4294967296 <? 2147483648); Z.div_mod_to_equations; lia.
  - change (16 mod 32) with 16. rewrite !(Z.shiftr_div_pow2 _ 16) by lia.
    change (2 ^ 16) with 65536.
    destruct (n mod 4294967296 <? 2147483648); Z.div_mod_to_equations; lia.
  - change (24 mod 32) with 24. rewrite !(Z.shiftr_div_pow2 _ 24) by lia.
    change (2 ^ 24) with 16777216.
    destruct (n mod 4294967296 <? 2147483648); Z.div_mod_to_equations; lia.
Qed.

Lemma band_255_mod z : band z 255 mod 256 = z mod 256.
Proof.
  unfold band. change (ToInt32 255) with 255.
  rewrite land_255, Z.mod_mod by lia. apply ToInt32_mod_256.
Qed.

Lemma initial_byte mt x :
  0 <= mt < 8 -> 0 <= x < 32 -> ToUint8 (bor (shl mt 5) x) = mt * 32 + x.
Proof.
  intros Hmt Hx.
  assert (H : Forall (fun mt => Forall (fun x => ToUint8 (bor (shl mt 5) x) = mt * 32 + x)
                                  (seqZ 0 32)) (seqZ 0 8)).
  { apply (bool_decide_unpack _). vm_compute. exact I. }
  rewrite Forall_forall in H. specialize (H mt).
  rewrite Forall_forall in H. apply H; apply elem_of_seqZ; lia.
Qed.

Lemma initial_byte_fields mt x :
  0 <= mt < 8 -> 0 <= x < 32 ->
  sar (mt * 32 + x) 5 = mt /\ band (mt * 32 + x) 0x1F = x.
Proof.
  intros Hmt Hx.
  assert (H : Forall (fun mt => Forall (fun x => sar (mt * 32 + x) 5 = mt
                                              /\ band (mt * 32 + x) 0x1F = x)
                                  (seqZ 0 32)) (seqZ 0 8)).
  { apply (bool_decide_unpack _). vm_compute. exact I. }
  rewrite Forall_forall in H. specialize (H mt).
  rewrite Forall_forall in H. apply H; apply elem_of_seqZ; lia.
Qed.

End NumberFacts.

(** ** The CBOR codec *)

Section CBORFacts.

Import CBOR.

Lemma encodeUnsigned_length value majorType buffer :
  Z.of_nat (length (encodeUnsigned value majorType buffer)) =
  Z.of_nat (length buffer) +
    (if value <? 24 then 1
     else if value <? 256 then 2
     else if value <? 65536 then 3
     else if value <? 4294967296 then 5 else 0).
Proof.
  unfold encodeUnsigned, push.
  repeat case_match; rewrite ?length_app; simpl; lia.
Qed.

Lemma emitted_width_cases value majorType :
  emitted_width value majorType =
    if value <? 24 then 0
    else if value <? 256 then 1
    else if value <? 65536 then 2
    else if value <? 4294967296 then 4 else -1.
Proof.
  unfold emitted_width. rewrite encodeUnsigned_length.
  repeat case_match; simpl; lia.
Qed.

Lemma encodeUnsigned_short value majorType :
  (length (encodeUnsigned value majorType []) <= 5)%nat.
Proof. unfold encodeUnsigned, push. repeat case_match; simpl; lia. Qed.

Lemma encodeUnsigned_out_of_range value majorType buffer :
  4294967296 <= value -> encodeUnsigned value majorType buffer = buffer.
Proof.
  intros H. unfold encodeUnsigned.
  repeat case_match; try reflexivity; lia.
Qed.

Lemma push_view_bytes_read view n : forall i buffer,
  push_view_bytes view i n buffer =
  let* l := read_bytes view i n in Normal (buffer ++ l).
Proof.
  induction n as [|n IH]; intros i buffer; cbn [push_view_bytes read_bytes cbind].
  - by rewrite app_nil_r.
  - destruct (DataView.getUint8 view (Idx i)) as [b|e]; cbn [cbind]; [|done].
    rewrite IH. destruct (read_bytes view (i + 1) n); cbn [cbind]; [|done].
    unfold push. by rewrite <- app_assoc.
Qed.

Lemma float_bytes_pushed bits buffer :
  (let* view := DataView.setFloat64 (DataView.fresh 8) (Idx 0) bits in
   push_view_bytes view 0 8 buffer)
  = Normal (buffer ++ DataView.be_bytes 8 bits).
Proof.
  assert (Hset : DataView.setFloat64 (DataView.fresh 8) (Idx 0) bits
                 = Normal (mkView (DataView.be_bytes 8 bits) 0 8)).
  { unfold DataView.setFloat64, DataView.fresh. cbn -[DataView.be_bytes].
    by rewrite app_nil_r. }
  rewrite Hset. cbn [cbind]. rewrite push_view_bytes_read.
  assert (Hlen : length (DataView.be_bytes 8 bits) = 8%nat) by reflexivity.
  revert Hlen. generalize (DataView.be_bytes 8 bits). intros l Hlen.
  do 9 (destruct l as [|? l]; try discriminate Hlen).
  reflexivity.
Qed.

Lemma encodeNumber_normal bits buffer :
  encodeNumber bits buffer =
  Normal (if JS.Number_isInteger bits then
            if 0 <=? JS.Number_toZ bits then encodeUnsigned (JS.Number_toZ bits) 0 buffer
            else encodeUnsigned (- JS.Number_toZ bits - 1) 1 buffer
          else buffer ++ 0xFB :: DataView.be_bytes 8 bits).
Proof.
  unfold encodeNumber. destruct (JS.Number_isInteger bits).
  - by destruct (0 <=? JS.Number_toZ bits).
  - rewrite float_bytes_pushed. unfold push. by rewrite <- app_assoc.
Qed.

Lemma encode_number bits :
  encode (VNumber bits) =
  Normal (map JS.ToUint8
            (if JS.Number_isInteger bits then
               if 0 <=? JS.Number_toZ bits then encodeUnsigned (JS.Number_toZ bits) 0 []
               else encodeUnsigned (- JS.Number_toZ bits - 1) 1 []
             else 0xFB :: DataView.be_bytes 8 bits)).
Proof.
  unfold encode. cbn [encodeItem]. rewrite encodeNumber_normal. reflexivity.
Qed.

Lemma be_bytes_ToUint8 size x :
  map JS.ToUint8 (DataView.be_bytes size x) = DataView.be_bytes size x.
Proof.
  induction size as [|size IH]; [done|].
  cbn [DataView.be_bytes map]. rewrite IH. f_equal.
  unfold JS.ToUint8. apply Z.mod_small.
  change 255 with (Z.ones 8). rewrite Z.land_ones by lia.
  apply Z.mod_pos_bound. lia.
Qed.

(** C9: [encode] returns normally for every number; [encodeUnsigned]
    leaves the buffer as it is for a magnitude of 2^32 or more; so the
    encoding of an integer whose magnitude (n, or -n-1 when negative)
    is 2^32 or more is the empty byte sequence. *)
Theorem encode_silent_out_of_range :
  (forall bits, exists bytes, encode (VNumber bits) = Normal bytes)
  /\ (forall value majorType buffer,
         4294967296 <= value -> encodeUnsigned value majorType buffer = buffer)
  /\ (forall bits,
         JS.Number_isInteger bits = true ->
         4294967296 <= magnitude (JS.Number_toZ bits) ->
         encode (VNumber bits) = Normal []).
Proof.
  split; [| split].
  - intros bits. rewrite encode_number. eauto.
  - intros. by apply encodeUnsigned_out_of_range.
  - intros bits Hint Hmag. rewrite encode_number, Hint. unfold magnitude in Hmag.
    destruct (0 <=? JS.Number_toZ bits);
      rewrite encodeUnsigned_out_of_range by exact Hmag; reflexivity.
Qed.

(** C4, as amended: a number that is not integral is encoded as the
    byte 0xFB followed by the eight bytes of its binary64 pattern, most
    significant first, nine bytes in all; a number whose value is
    integral is encoded by [encodeUnsigned] on its magnitude, in at most
    five bytes. *)
Theorem number_encoding_forms bits :
  (JS.Number_isInteger bits = false ->
   encode (VNumber bits) = Normal (0xFB :: DataView.be_bytes 8 bits)
   /\ length (0xFB :: DataView.be_bytes 8 bits) = 9%nat)
  /\ (JS.Number_isInteger bits = true ->
      exists bytes,
        encode (VNumber bits) = Normal bytes /\ (length bytes <= 5)%nat
        /\ bytes = map JS.ToUint8
             (if 0 <=? JS.Number_toZ bits
              then encodeUnsigned (JS.Number_toZ bits) 0 []
              else encodeUnsigned (- JS.Number_toZ bits - 1) 1 [])).
Proof.
  split; intros Hint; rewrite encode_number, Hint.
  - split; [| reflexivity]. cbn [map]. rewrite be_bytes_ToUint8. reflexivity.
  - eexists. split; [reflexivity|]. split; [| reflexivity].
    rewrite length_map. destruct (0 <=? _); apply encodeUnsigned_short.
Qed.

Lemma be_bytes_2 n : DataView.be_bytes 2 n = [Z.land (Z.shiftr n 8) 255; Z.land (Z.shiftr n 0) 255].
Proof. reflexivity. Qed.

Lemma be_bytes_4 n :
  DataView.be_bytes 4 n
  = [Z.land (Z.shiftr n 24) 255; Z.land (Z.shiftr n 16) 255;
     Z.land (Z.shiftr n 8) 255; Z.land (Z.shiftr n 0) 255].
Proof. reflexivity. Qed.

Lemma encodeUnsigned_bytes n majorType buffer :
  0 <= n < 4294967296 -> 0 <= majorType < 8 ->
  map JS.ToUint8 (encodeUnsigned n majorType buffer)
  = map JS.ToUint8 buffer ++ argument_bytes majorType n.
Proof.
  intros Hn Hmt. unfold encodeUnsigned, argument_bytes, push.
  destruct (Z.ltb_spec n 24) as [H24|H24];
    [|destruct (Z.ltb_spec n 256) as [H256|H256];
      [|destruct (Z.ltb_spec n 65536) as [H64k|H64k];
        [|destruct (Z.ltb_spec n 4294967296); [|lia]]]];
    rewrite ?map_app; cbn [map]; rewrite <- ?app_assoc; cbn [app]; f_equal;
    rewrite initial_byte by lia.
  - done.
  - unfold JS.ToUint8 at 1. rewrite Z.mod_small by lia. done.
  - rewrite be_bytes_2.
    unfold JS.ToUint8. rewrite sar_mod_256 by lia. rewrite band_255_mod.
    rewrite Z.shiftr_0_r, !land_255. done.
  - rewrite be_bytes_4.
    unfold JS.ToUint8. rewrite sar_mod_256 by lia. rewrite !band_255_mod.
    rewrite !sar_mod_256 by lia. by rewrite Z.shiftr_0_r, !land_255.
Qed.

(** C5: for every non-negative integer and every one of the four
    widths (0, 1, 2, 4 bytes after the initial byte) that can hold it,
    the width [encodeUnsigned] emits is one of the four, holds the
    integer and is not larger; the bytes emitted are the initial byte
    with the class tag and the magnitude in that width, big-endian; 23
    is encoded in one byte, 24 in the one-byte-length form, 256 in the
    two-byte form and 65536 in the four-byte form. *)
Theorem width_minimal :
  (forall n majorType w,
      0 <= n -> w ∈ widths -> holds w n = true ->
      emitted_width n majorType ∈ widths
      /\ holds (emitted_width n majorType) n = true
      /\ emitted_width n majorType <= w)
  /\ (forall n majorType buffer,
         0 <= n < 4294967296 -> 0 <= majorType < 8 ->
         map JS.ToUint8 (encodeUnsigned n majorType buffer)
         = map JS.ToUint8 buffer ++ argument_bytes majorType n)
  /\ encode (VNumber (JS.Number_ofZ 23)) = Normal [0x17]
  /\ encode (VNumber (JS.Number_ofZ 24)) = Normal [0x18; 24]
  /\ encode (VNumber (JS.Number_ofZ 256)) = Normal [0x19; 1; 0]
  /\ encode (VNumber (JS.Number_ofZ 65536)) = Normal [0x1A; 0; 1; 0; 0].
Proof.
  split; [| split; [exact encodeUnsigned_bytes | by vm_compute]].
  intros n mt w Hn Hw Hholds.
  rewrite emitted_width_cases.
  unfold widths in *. unfold holds in *.
  repeat (apply elem_of_cons in Hw as [-> | Hw]); [..| by apply elem_of_nil in Hw];
    simpl in Hholds; apply Z.ltb_lt in Hholds;
    repeat case_match; try lia;
    (split; [set_solver | split; [simpl; lia | lia]]).
Qed.

Lemma argument_bytes_in_range majorType n :
  0 <= n < 4294967296 -> 0 <= majorType < 8 ->
  map JS.ToUint8 (argument_bytes majorType n) = argument_bytes majorType n.
Proof.
  intros Hn Hmt. unfold argument_bytes.
  destruct (Z.ltb_spec n 24) as [H24|H24];
    [|destruct (Z.ltb_spec n 256) as [H256|H256];
      [|destruct (Z.ltb_spec n 65536) as [H64k|H64k]]];
    cbn [map]; rewrite ?be_bytes_ToUint8; unfold JS.ToUint8;
    rewrite ?Z.mod_small by lia; reflexivity.
Qed.

Lemma be_read_2 n :
  0 <= n < 65536 ->
  Z.land (Z.shiftr n 8) 255 * 256 + Z.land (Z.shiftr n 0) 255 = n.
Proof.
  intros Hn. rewrite !land_255, Z.shiftr_0_r, (Z.shiftr_div_pow2 _ 8) by lia.
  change (2 ^ 8) with 256. Z.div_mod_to_equations. lia.
Qed.

Lemma be_read_4 n :
  0 <= n < 4294967296 ->
  ((Z.land (Z.shiftr n 24) 255 * 256 + Z.land (Z.shiftr n 16) 255) * 256
   + Z.land (Z.shiftr n 8) 255) * 256 + Z.land (Z.shiftr n 0) 255 = n.
Proof.
  intros Hn. rewrite !land_255, Z.shiftr_0_r.
  rewrite (Z.shiftr_div_pow2 _ 8), (Z.shiftr_div_pow2 _ 16), (Z.shiftr_div_pow2 _ 24)
    by lia.
  change (2 ^ 8) with 256. change (2 ^ 16) with 65536. change (2 ^ 24) with 16777216.
  Z.div_mod_to_equations. lia.
Qed.

Lemma getUint8_at_1 b0 b1 :
  DataView.getUint8 (mkView [b0; b1] 0 (Z.of_nat (length [b0; b1])))
    (index_add (Idx 0) (Idx 1)) = Normal b1.
Proof. reflexivity. Qed.

Lemma getUint16_at_1 b0 b1 b2 :
  DataView.getUint16 (mkView [b0; b1; b2] 0 (Z.of_nat (length [b0; b1; b2])))
    (index_add (Idx 0) (Idx 1)) = Normal (b1 * 256 + b2).
Proof. reflexivity. Qed.

Lemma getUint32_at_1 b0 b1 b2 b3 b4 :
  DataView.getUint32
    (mkView [b0; b1; b2; b3; b4] 0 (Z.of_nat (length [b0; b1; b2; b3; b4])))
    (index_add (Idx 0) (Idx 1)) = Normal (((b1 * 256 + b2) * 256 + b3) * 256 + b4).
Proof. reflexivity. Qed.

(** Decoding what the encoder emits for a magnitude: the initial byte
    gives back the major type, and the head gives back the magnitude
    and the number of bytes. *)
Lemma decode_argument majorType n :
  0 <= n < 4294967296 -> 0 <= majorType < 8 ->
  exists byte,
    let view := Uint8Array_from (argument_bytes majorType n) in
    DataView.getUint8 view (Idx 0) = Normal byte
    /\ JS.sar byte 5 = majorType
    /\ decodeHead view (Idx 0) (JS.band byte 0x1F)
       = Normal (Argument (Some n) (Z.of_nat (length (argument_bytes majorType n)))).
Proof.
  intros Hn Hmt. unfold Uint8Array_from.
  rewrite argument_bytes_in_range by done. unfold argument_bytes.
  destruct (Z.ltb_spec n 24) as [H24|H24];
    [|destruct (Z.ltb_spec n 256) as [H256|H256];
      [|destruct (Z.ltb_spec n 65536) as [H64k|H64k]]].
  - exists (majorType * 32 + n).
    destruct (initial_byte_fields majorType n) as [-> ->]; [lia..|].
    split; [reflexivity|]. split; [reflexivity|].
    unfold decodeHead. rewrite (proj2 (Z.ltb_lt n 24)) by done. done.
  - exists (majorType * 32 + 24).
    destruct (initial_byte_fields majorType 24) as [-> ->]; [lia..|].
    split; [reflexivity|]. split; [reflexivity|].
    unfold decodeHead. change (24 <? 24) with false. change (24 =? 24) with true.
    cbv iota. by rewrite getUint8_at_1.
  - exists (majorType * 32 + 25).
    destruct (initial_byte_fields majorType 25) as [-> ->]; [lia..|].
    split; [reflexivity|]. split; [reflexivity|].
    rewrite be_bytes_2. unfold decodeHead.
    change (25 <? 24) with false. change (25 =? 24) with false.
    change (25 =? 25) with true. cbv iota.
    rewrite getUint16_at_1. cbn [cbind]. by rewrite be_read_2 by lia.
  - exists (majorType * 32 + 26).
    destruct (initial_byte_fields majorType 26) as [-> ->]; [lia..|].
    split; [reflexivity|]. split; [reflexivity|].
    rewrite be_bytes_4. unfold decodeHead.
    change (26 <? 24) with false. change (26 =? 24) with false.
    change (26 =? 25) with false. change (26 =? 26) with true. cbv iota.
    rewrite getUint32_at_1. cbn [cbind]. by rewrite be_read_4 by lia.
Qed.

(** An integer of magnitude below 2^32 round-trips. *)
Lemma integer_round_trip n :
  - 4294967296 <= n < 4294967296 ->
  exists bytes,
    encode (VNumber (JS.Number_ofZ n)) = Normal bytes
    /\ bytes = argument_bytes (if 0 <=? n then 0 else 1) (magnitude n)
    /\ decode (Uint8Array_from bytes) = Normal (VNumber (JS.Number_ofZ n)).
Proof.
  intros Hn.
  destruct (Number_ofZ_integer n) as [Hint Hval].
  { change (2 ^ 53) with 9007199254740992. lia. }
  set (mt := if 0 <=? n then 0 else 1).
  assert (Hmt : 0 <= mt < 8) by (unfold mt; destruct (0 <=? n); lia).
  assert (Hmag : 0 <= magnitude n < 4294967296).
  { unfold magnitude. destruct (Z.leb_spec 0 n); lia. }
  exists (argument_bytes mt (magnitude n)). split; [|split; [done|]].
  - rewrite encode_number, Hint, Hval. unfold mt, magnitude.
    destruct (Z.leb_spec 0 n); rewrite encodeUnsigned_bytes by lia; reflexivity.
  - destruct (decode_argument mt (magnitude n) Hmag Hmt) as (byte & Hget & Hmajor & Hhead).
    cbv zeta in Hget, Hhead.
    unfold decode, decode_with. cbn [byteLength byteOffset buffer Uint8Array_from].
    set (view := Uint8Array_from (argument_bytes mt (magnitude n))) in *.
    change (mkView _ _ _) with view.
    match goal with |- context [decodeItem (S ?f)] => generalize f end. intros fuel.
    cbn [decodeItem]. rewrite Hget. cbn [cbind]. rewrite Hmajor, Hhead. cbn [cbind].
    unfold mt, magnitude. destruct (Z.leb_spec 0 n).
    + reflexivity.
    + cbn. do 3 f_equal. lia.
Qed.

(** *** Round trip of the values that the decoder recognises *)

Lemma be_read_slice bs : forall front back buf pre post len acc,
  buf = pre ++ bs ++ post ->
  DataView.be_read (mkView (front ++ buf ++ back) (Z.of_nat (length front)) len)
    (Z.of_nat (length pre)) (length bs) acc
  = Normal (be_value acc bs).
Proof.
  induction bs as [|b bs IH]; intros front back buf pre post len acc Hbuf; [done|].
  cbn [app] in Hbuf. cbn [length DataView.be_read]. unfold DataView.byte_at.
  cbn [buffer byteOffset].
  assert (Hl : (front ++ buf ++ back) !! Z.to_nat (Z.of_nat (length front) + Z.of_nat (length pre))
               = Some b).
  { rewrite <- Nat2Z.inj_add, Nat2Z.id, Hbuf, lookup_app_r by lia.
    replace (length front + length pre - length front)%nat with (length pre) by lia.
    rewrite <- app_assoc. by apply list_lookup_middle. }
  rewrite Hl. cbn [cbind].
  replace (Z.of_nat (length pre) + 1) with (Z.of_nat (length (pre ++ [b])))
    by (rewrite length_app; cbn; lia).
  rewrite (IH front back buf (pre ++ [b]) post) by (rewrite Hbuf, <- app_assoc; done).
  reflexivity.
Qed.

Lemma getView_slice front back buf pre bs post :
  buf = pre ++ bs ++ post ->
  DataView.getView (window front buf back) (Idx (Z.of_nat (length pre))) (length bs)
  = Normal (be_value 0 bs).
Proof.
  intros Hbuf. unfold DataView.getView, window. cbn [ToIndex byteLength].
  destruct (Z.ltb_spec (Z.of_nat (length pre)) 0); [lia|]. cbn [cbind].
  destruct (Z.ltb_spec (Z.of_nat (length buf))
              (Z.of_nat (length pre) + Z.of_nat (length bs))) as [Hlt|_].
  - rewrite Hbuf, !length_app in Hlt. lia.
  - by eapply be_read_slice.
Qed.

Lemma be_value_be_bytes k : forall acc x,
  0 <= x ->
  be_value acc (DataView.be_bytes k x) = acc * 256 ^ Z.of_nat k + x mod 256 ^ Z.of_nat k.
Proof.
  induction k as [|k IH]; intros acc x Hx.
  - cbn. rewrite Z.mod_1_r. lia.
  - cbn [DataView.be_bytes be_value foldl]. fold (be_value (acc * 256 + Z.land (Z.shiftr x (8 * Z.of_nat k)) 255) (DataView.be_bytes k x)).
    rewrite IH by done. rewrite land_255, Z.shiftr_div_pow2 by lia.
    replace (2 ^ (8 * Z.of_nat k)) with (256 ^ Z.of_nat k)
      by (change 256 with (2 ^ 8); rewrite <- Z.pow_mul_r by lia; done).
    rewrite Nat2Z.inj_succ, Z.pow_succ_r by lia.
    assert (Hp : 0 < 256 ^ Z.of_nat k) by (apply Z.pow_pos_nonneg; lia).
    rewrite (Z.mul_comm 256 (256 ^ Z.of_nat k)).
    rewrite (Z.rem_mul_r x (256 ^ Z.of_nat k) 256) by lia. lia.
Qed.

Lemma be_value_be_bytes_small k x :
  0 <= x < 256 ^ Z.of_nat k -> be_value 0 (DataView.be_bytes k x) = x.
Proof.
  intros Hx. rewrite be_value_be_bytes by lia. rewrite Z.mod_small by lia. lia.
Qed.

Lemma length_be_bytes k x : length (DataView.be_bytes k x) = k.
Proof. induction k as [|k IH]; cbn; [done|]. by rewrite IH. Qed.

Lemma getUint8_slice front back buf pre b post :
  buf = pre ++ b :: post ->
  DataView.getUint8 (window front buf back) (Idx (Z.of_nat (length pre))) = Normal b.
Proof.
  intros Hbuf. exact (getView_slice front back buf pre [b] post Hbuf).
Qed.

Lemma next_index pre (bs : list Z) :
  index_add (Idx (Z.of_nat (length pre))) (Idx (Z.of_nat (length bs)))
  = Idx (Z.of_nat (length (pre ++ bs))).
Proof. cbn. by rewrite length_app, Nat2Z.inj_add. Qed.

(** [decode_argument] at any place of a buffer. *)
Lemma decode_argument_at majorType n front back buf pre post :
  0 <= n < 4294967296 -> 0 <= majorType < 8 ->
  buf = pre ++ argument_bytes majorType n ++ post ->
  exists byte,
    DataView.getUint8 (window front buf back) (Idx (Z.of_nat (length pre))) = Normal byte
    /\ JS.sar byte 5 = majorType
    /\ decodeHead (window front buf back) (Idx (Z.of_nat (length pre))) (JS.band byte 0x1F)
       = Normal (Argument (Some n) (Z.of_nat (length (argument_bytes majorType n)))).
Proof.
  intros Hn Hmt. unfold argument_bytes.
  destruct (Z.ltb_spec n 24) as [H24|H24];
    [|destruct (Z.ltb_spec n 256) as [H256|H256];
      [|destruct (Z.ltb_spec n 65536) as [H64k|H64k]]]; intros Hbuf.
  - exists (majorType * 32 + n).
    destruct (initial_byte_fields majorType n) as [-> ->]; [lia..|].
    split; [by eapply getUint8_slice|]. split; [done|].
    unfold decodeHead. rewrite (proj2 (Z.ltb_lt n 24)) by done. done.
  - exists (majorType * 32 + 24).
    destruct (initial_byte_fields majorType 24) as [-> ->]; [lia..|].
    split; [by eapply getUint8_slice|]. split; [done|].
    unfold decodeHead. change (24 <? 24) with false. change (24 =? 24) with true.
    cbv iota. change (Idx 1) with (Idx (Z.of_nat (length [majorType * 32 + 24]))).
    rewrite next_index.
    rewrite (getUint8_slice front back buf (pre ++ [majorType * 32 + 24]) n post)
      by (rewrite Hbuf, <- app_assoc; done).
    reflexivity.
  - exists (majorType * 32 + 25).
    destruct (initial_byte_fields majorType 25) as [-> ->]; [lia..|].
    split; [by eapply getUint8_slice|]. split; [done|].
    unfold decodeHead.
    change (25 <? 24) with false. change (25 =? 24) with false.
    change (25 =? 25) with true. cbv iota.
    change (Idx 1) with (Idx (Z.of_nat (length [majorType * 32 + 25]))).
    rewrite next_index. unfold DataView.getUint16.
    change 2%nat with (length (DataView.be_bytes 2 n)) at 1.
    rewrite (getView_slice front back buf (pre ++ [majorType * 32 + 25]) (DataView.be_bytes 2 n) post)
      by (rewrite Hbuf, <- app_assoc; done).
    cbn [cbind]. rewrite be_value_be_bytes_small by (change (256 ^ Z.of_nat 2) with 65536; lia).
    reflexivity.
  - exists (majorType * 32 + 26).
    destruct (initial_byte_fields majorType 26) as [-> ->]; [lia..|].
    split; [by eapply getUint8_slice|]. split; [done|].
    unfold decodeHead.
    change (26 <? 24) with false. change (26 =? 24) with false.
    change (26 =? 25) with false. change (26 =? 26) with true. cbv iota.
    change (Idx 1) with (Idx (Z.of_nat (length [majorType * 32 + 26]))).
    rewrite next_index. unfold DataView.getUint32.
    change 4%nat with (length (DataView.be_bytes 4 n)) at 1.
    rewrite (getView_slice front back buf (pre ++ [majorType * 32 + 26]) (DataView.be_bytes 4 n) post)
      by (rewrite Hbuf, <- app_assoc; done).
    cbn [cbind].
    rewrite be_value_be_bytes_small by (change (256 ^ Z.of_nat 4) with 4294967296; lia).
    reflexivity.
Qed.

Lemma payload_slice front back buf pre bs post :
  buf = pre ++ bs ++ post ->
  Uint8Array_over (front ++ buf ++ back)
    (Idx (Z.of_nat (length front) + Z.of_nat (length pre))) (Some (Z.of_nat (length bs)))
  = Normal (mkView (front ++ buf ++ back)
              (Z.of_nat (length front) + Z.of_nat (length pre)) (Z.of_nat (length bs)))
  /\ view_bytes (mkView (front ++ buf ++ back)
                   (Z.of_nat (length front) + Z.of_nat (length pre))
                   (Z.of_nat (length bs))) = bs.
Proof.
  intros Hbuf. split.
  - unfold Uint8Array_over. cbn [ToIndex].
    destruct (Z.ltb_spec (Z.of_nat (length front) + Z.of_nat (length pre)) 0); [lia|].
    cbn [cbind].
    match goal with |- context [if ?c <? ?d then _ else _] =>
      destruct (Z.ltb_spec c d) as [Hlt|_]; [|done] end.
    rewrite Hbuf, !length_app in Hlt. lia.
  - unfold view_bytes. cbn [byteLength byteOffset buffer].
    rewrite <- Nat2Z.inj_add, !Nat2Z.id, Hbuf, <- length_app.
    replace (front ++ (pre ++ bs ++ post) ++ back) with ((front ++ pre) ++ bs ++ post ++ back)
      by (by rewrite <- !app_assoc).
    rewrite drop_app_length. by rewrite take_app_length.
Qed.

Lemma text_round_trip s : TextDecoder_decode (TextEncoder_encode s) = s.
Proof.
  unfold TextDecoder_decode, TextEncoder_encode. rewrite map_map.
  rewrite <- (string_of_list_byte_of_string s) at 2. f_equal.
  induction (list_byte_of_string s) as [|b l IH]; [done|]. cbn [map]. rewrite IH. f_equal.
  unfold byte_of_Z. pose proof (Byte.to_N_bounded b) as Hb.
  rewrite Z.mod_small by lia. rewrite N2Z.id, Byte.of_to_N. reflexivity.
Qed.



(** Induction on a value that reaches the elements of arrays and maps. *)
Lemma Value_ind_nested (P : Value -> Prop) :
  P VNull -> P VUndefined -> (forall b, P (VBool b)) -> (forall bits, P (VNumber bits)) ->
  (forall s, P (VText s)) -> (forall bytes, P (VBytes bytes)) ->
  (forall items, Forall P items -> P (VArray items)) ->
  (forall entries, Forall (fun e => P e.1 /\ P e.2) entries -> P (VMap entries)) ->
  forall v, P v.
Proof.
  intros Hnull Hundef Hbool Hnum Htext Hbytes Harray Hmap.
  fix IH 1. intros [| |b|bits|s|bytes|items|entries].
  - exact Hnull.
  - exact Hundef.
  - apply Hbool.
  - apply Hnum.
  - apply Htext.
  - apply Hbytes.
  - apply Harray. induction items as [|item items IHitems]; constructor.
    + apply IH.
    + exact IHitems.
  - apply Hmap. induction entries as [|[key val] entries IHentries]; constructor.
    + split; apply IH.
    + exact IHentries.
Qed.

Lemma encodeUnsigned_app value majorType buffer :
  encodeUnsigned value majorType buffer = buffer ++ encodeUnsigned value majorType [].
Proof.
  unfold encodeUnsigned, push. repeat case_match; rewrite <- ?app_assoc, ?app_nil_r; reflexivity.
Qed.



Lemma forallb_Forall {A} (f : A -> bool) (P : A -> Prop) l :
  forallb f l = true -> Forall (fun x => f x = true -> P x) l -> Forall P l.
Proof.
  intros Hall HP. apply Forall_forall. intros x Hx.
  rewrite Forall_forall in HP. apply (HP x Hx).
  rewrite forallb_forall in Hall. apply Hall. by apply list_elem_of_In.
Qed.




Lemma iterM_add {St : Type} a b (body : St -> completion St) : forall s,
  iterM (a + b) body s = let* s := iterM a body s in iterM b body s.
Proof.
  induction a as [|a IH]; intros s; [done|].
  cbn [Nat.add iterM]. destruct (body s); cbn [cbind]; [apply IH | done].
Qed.

(** The binary counted loop runs its body [count] times. *)
Lemma repeatM_iterM {St : Type} count (body : St -> completion St) : forall s,
  repeatM count body s = iterM (Pos.to_nat count) body s.
Proof.
  induction count as [half IH|half IH|]; intros s.
  - rewrite Pos2Nat.inj_xI. cbn [repeatM Nat.mul iterM].
    destruct (body s) as [s1|]; cbn [cbind]; [|done].
    rewrite Nat.add_0_r, iterM_add, IH.
    destruct (iterM (Pos.to_nat half) body s1); cbn [cbind]; [apply IH | done].
  - rewrite Pos2Nat.inj_xO. cbn [repeatM Nat.mul].
    rewrite Nat.add_0_r, iterM_add, IH.
    destruct (iterM (Pos.to_nat half) body s); cbn [cbind]; [apply IH | done].
  - change (Pos.to_nat 1) with 1%nat. cbn [repeatM iterM]. by destruct (body s).
Qed.

Lemma forM_iterM {St : Type} n (body : St -> completion St) s :
  forM (Some (Z.of_nat n)) body s = iterM n body s.
Proof.
  destruct n as [|n]; [done|].
  change (forM (Some (Z.of_nat (S n))) body s) with (repeatM (Pos.of_succ_nat n) body s).
  rewrite repeatM_iterM. by rewrite SuccNat2Pos.id_succ.
Qed.

Lemma length_concat_elem {A} (code : A -> list Z) x xs :
  x ∈ xs -> (length (code x) <= length (concat (map code xs)))%nat.
Proof.
  induction 1 as [x xs|x y xs _ IH]; cbn [map concat]; rewrite length_app; lia.
Qed.

(** A loop that decodes one element per turn, from where the previous
    one ended, decodes the elements laid out one after the other. *)
Lemma iterM_decode_each {A} (code : A -> list Z)
    (body : list A * index -> completion (list A * index)) buf xs :
  (forall x acc pre post,
      x ∈ xs -> buf = pre ++ code x ++ post ->
      body (acc, Idx (Z.of_nat (length pre)))
      = Normal (acc ++ [x], Idx (Z.of_nat (length (pre ++ code x))))) ->
  forall acc pre post,
    buf = pre ++ concat (map code xs) ++ post ->
    iterM (length xs) body (acc, Idx (Z.of_nat (length pre)))
    = Normal (acc ++ xs, Idx (Z.of_nat (length (pre ++ concat (map code xs))))).
Proof.
  induction xs as [|x xs IH]; intros Hbody acc pre post Hbuf.
  - cbn. by rewrite !app_nil_r.
  - cbn [map concat] in *. cbn [length iterM].
    rewrite (Hbody x acc pre (concat (map code xs) ++ post))
      by (rewrite ?app_assoc in *; first [apply list_elem_of_here | done]).
    cbn [cbind]. rewrite (IH (fun y acc pre post Hy => Hbody y acc pre post (list_elem_of_further _ _ _ Hy))
                            (acc ++ [x]) (pre ++ code x) post)
      by (rewrite Hbuf, <- !app_assoc; done).
    by rewrite <- !app_assoc.
Qed.

Lemma argument_bytes_length majorType n :
  (1 <= length (argument_bytes majorType n) <= 5)%nat.
Proof. unfold argument_bytes. repeat case_match; cbn; lia. Qed.

Lemma encoding_nonempty v : (1 <= length (encoding v))%nat.
Proof.
  destruct v; cbn [encoding]; try (cbn; lia);
    try (rewrite length_app; pose proof (argument_bytes_length 3 0);
         match goal with |- context [argument_bytes ?mt ?n] =>
           pose proof (argument_bytes_length mt n) end; lia).
  destruct (JS.Number_isInteger bits); [apply argument_bytes_length | cbn; lia].
Qed.

Ltac decode_head mt n payload :=
  match goal with
  | Hbuf : ?buf = ?pre ++ _
    |- context [decodeItem (S _) (window ?front ?buf ?back) (Idx (Z.of_nat (length ?pre)))] =>
      let byte := fresh "byte" in
      let Hget := fresh "Hget" in
      let Hmajor := fresh "Hmajor" in
      let Hhead := fresh "Hhead" in
      destruct (decode_argument_at mt n front back buf pre payload) as (byte & Hget & Hmajor & Hhead);
      [lia | lia | by rewrite Hbuf, <- ?app_assoc |];
      cbn [decodeItem]; rewrite Hget; cbn [cbind]; rewrite Hmajor, Hhead; cbn [cbind]
  end.

(** Wherever the encoding of a value lies in a buffer, [decodeItem]
    at that offset gives the value back and the number of bytes of the
    encoding; a budget of as many calls as the encoding has bytes is
    enough. *)
Lemma decodeItem_encoding v :
  supported v = true -> forall fuel front back buf pre post,
    (length (encoding v) <= fuel)%nat ->
    buf = pre ++ encoding v ++ post ->
    decodeItem fuel (window front buf back) (Idx (Z.of_nat (length pre)))
    = Normal (mkDecoded v (Idx (Z.of_nat (length (encoding v))))).
Proof.
  induction v as [| |b|bits|s|bytes|items IH|entries IH] using Value_ind_nested;
    intros Hsup fuel front back buf pre post Hfuel Hbuf; cbn [supported] in Hsup;
    try discriminate Hsup;
    (destruct fuel as [|fuel];
     [match type of Hfuel with (length (encoding ?v) <= _)%nat =>
        pose proof (encoding_nonempty v) end; lia|]);
    cbn [encoding] in Hbuf, Hfuel |- *.
  - destruct (JS.Number_isInteger bits).
    + apply andb_prop in Hsup as [Hsup Hlt]. apply andb_prop in Hsup as [Heq Hle].
      apply Z.leb_le in Hle. apply Z.ltb_lt in Hlt. apply Z.eqb_eq in Heq.
      unfold magnitude in *.
      destruct (Z.leb_spec 0 (JS.Number_toZ bits)).
      * decode_head 0 (JS.Number_toZ bits) post.
        cbn [Z.eqb]. by rewrite <- Heq.
      * decode_head 1 (- JS.Number_toZ bits - 1) post.
        cbn [Z.eqb Pos.eqb].
        replace (-1 - (- JS.Number_toZ bits - 1)) with (JS.Number_toZ bits) by lia.
        by rewrite <- Heq.
    + apply andb_prop in Hsup as [Hlo Hhi]. apply Z.leb_le in Hlo. apply Z.ltb_lt in Hhi.
      cbn [decodeItem].
      rewrite (getUint8_slice front back buf pre 0xFB (DataView.be_bytes 8 bits ++ post)) by done.
      cbn [cbind]. change (JS.sar 251 5) with 7. change (JS.band 251 31) with 27.
      change (decodeHead (window front buf back) (Idx (Z.of_nat (length pre))) 27)
        with (Normal (Argument None 1)).
      cbn [cbind Z.eqb Pos.eqb andb].
      change (Idx 1) with (Idx (Z.of_nat (length [251]))). rewrite next_index.
      unfold DataView.getFloat64.
      change 8%nat with (length (DataView.be_bytes 8 bits)) at 1.
      rewrite (getView_slice front back buf (pre ++ [251]) (DataView.be_bytes 8 bits) post)
        by (rewrite Hbuf, <- app_assoc; done).
      cbn [cbind].
      rewrite be_value_be_bytes_small
        by (change (256 ^ Z.of_nat 8) with 18446744073709551616; lia).
      reflexivity.
  - apply Z.ltb_lt in Hsup.
    decode_head 3 (Z.of_nat (length (TextEncoder_encode s))) (TextEncoder_encode s ++ post).
    cbn [Z.eqb Pos.eqb index_add window byteOffset buffer].
    rewrite <- Z.add_assoc, <- Nat2Z.inj_add, <- length_app.
    destruct (payload_slice front back buf
                (pre ++ argument_bytes 3 (Z.of_nat (length (TextEncoder_encode s))))
                (TextEncoder_encode s) post) as [Hover Hshown];
      [by rewrite Hbuf, <- ?app_assoc|].
    rewrite Hover. cbn [cbind plus_value]. rewrite Hshown, text_round_trip.
    by rewrite length_app, Nat2Z.inj_add.
  - apply andb_prop in Hsup as [Hlen _]. apply Z.ltb_lt in Hlen.
    decode_head 2 (Z.of_nat (length bytes)) (bytes ++ post).
    cbn [Z.eqb Pos.eqb index_add window byteOffset buffer].
    rewrite <- Z.add_assoc, <- Nat2Z.inj_add, <- length_app.
    destruct (payload_slice front back buf (pre ++ argument_bytes 2 (Z.of_nat (length bytes)))
                bytes post) as [Hover Hshown];
      [by rewrite Hbuf, <- ?app_assoc|].
    rewrite Hover. cbn [cbind plus_value]. rewrite Hshown. by rewrite length_app, Nat2Z.inj_add.
  - apply andb_prop in Hsup as [Hlen Hitems]. apply Z.ltb_lt in Hlen.
    pose proof (forallb_Forall _ _ _ Hitems IH) as Hall.
    rewrite length_app in Hfuel.
    pose proof (argument_bytes_length 4 (Z.of_nat (length items))) as Harg.
    decode_head 4 (Z.of_nat (length items)) (concat (map encoding items) ++ post).
    cbn [Z.eqb Pos.eqb]. rewrite forM_iterM, next_index.
    match goal with |- context [iterM _ ?body _] =>
      rewrite (iterM_decode_each encoding body buf items) with (post := post)
    end.
    + cbn [cbind index_sub app]. do 3 f_equal. rewrite !length_app. lia.
    + intros item acc pre' post' Hitem Hbuf'.
      rewrite Forall_forall in Hall.
      rewrite (Hall item Hitem fuel front back buf pre' post'); [|
        pose proof (length_concat_elem encoding item items Hitem); lia | done].
      cbn [cbind r_value r_bytesUsed]. by rewrite next_index.
    + by rewrite Hbuf, <- ?app_assoc.
  - apply andb_prop in Hsup as [Hlen Hentries]. apply Z.ltb_lt in Hlen.
    rewrite length_app in Hfuel.
    pose proof (argument_bytes_length 5 (Z.of_nat (length entries))) as Harg.
    set (code := fun '(key, val) => encoding key ++ encoding val) in *.
    decode_head 5 (Z.of_nat (length entries)) (concat (map code entries) ++ post).
    cbn [Z.eqb Pos.eqb]. rewrite forM_iterM, next_index.
    match goal with |- context [iterM _ ?body _] =>
      rewrite (iterM_decode_each code body buf entries) with (post := post)
    end.
    + cbn [cbind index_sub app]. do 3 f_equal. rewrite !length_app. lia.
    + intros [key val] acc pre' post' Hentry Hbuf'. unfold code in Hbuf'.
      rewrite Forall_forall in IH. destruct (IH _ Hentry) as [IHkey IHval].
      cbn [fst snd] in IHkey, IHval.
      rewrite forallb_forall in Hentries.
      pose proof Hentry as Hok. apply list_elem_of_In, Hentries in Hok.
      apply andb_prop in Hok as [Hok Hval]. apply andb_prop in Hok as [_ Hkey].
      pose proof (length_concat_elem code (key, val) entries Hentry) as Hsize.
      unfold code at 1 in Hsize. rewrite length_app in Hsize.
      rewrite (IHkey Hkey fuel front back buf pre' (encoding val ++ post'));
        [| lia | by rewrite Hbuf', <- ?app_assoc].
      cbn [cbind r_value r_bytesUsed]. rewrite next_index.
      rewrite (IHval Hval fuel front back buf (pre' ++ encoding key) post');
        [| lia | by rewrite Hbuf', <- ?app_assoc].
      cbn [cbind r_value r_bytesUsed]. rewrite next_index.
      unfold code. by rewrite <- app_assoc.
    + by rewrite Hbuf, <- ?app_assoc.
Qed.



Lemma band_31_range byte : 0 <= JS.band byte 31 < 32.
Proof.
  unfold JS.band. change (JS.ToInt32 31) with (Z.ones 5).
  rewrite Z.land_ones by lia. change (2 ^ 5) with 32.
  apply Z.mod_pos_bound. lia.
Qed.

Lemma decodeHead_argument view offset info h :
  0 <= info < 32 ->
  decodeHead view offset info = Normal h ->
  exists value bytesUsed, h = Argument value bytesUsed.
Proof.
  intros Hinfo. unfold decodeHead.
  destruct (Z.ltb_spec info 24); [intros [= <-]; eauto|].
  destruct (Z.eqb_spec info 24);
    [destruct (DataView.getUint8 _ _); cbn [cbind]; [intros [= <-]; eauto | done]|].
  destruct (Z.eqb_spec info 25);
    [destruct (DataView.getUint16 _ _); cbn [cbind]; [intros [= <-]; eauto | done]|].
  destruct (Z.eqb_spec info 26);
    [destruct (DataView.getUint32 _ _); cbn [cbind]; [intros [= <-]; eauto | done]|].
  destruct (Z.eqb_spec info 244); [lia|].
  destruct (Z.eqb_spec info 245); [lia|].
  destruct (Z.eqb_spec info 246); [lia|].
  destruct (Z.eqb_spec info 247); [lia|].
  intros [= <-]; eauto.
Qed.

Lemma iterM_invariant {St : Type} (Inv : St -> Prop) (body : St -> completion St) n :
  (forall s s', Inv s -> body s = Normal s' -> Inv s') ->
  forall s s', Inv s -> iterM n body s = Normal s' -> Inv s'.
Proof.
  intros Hbody. induction n as [|n IH]; intros s s' Hs; cbn [iterM].
  - by intros [= <-].
  - destruct (body s) as [s1|] eqn:Hb; cbn [cbind]; [|done].
    apply IH. by eapply Hbody.
Qed.

Lemma forM_invariant {St : Type} (Inv : St -> Prop) (body : St -> completion St) value :
  (forall s s', Inv s -> body s = Normal s' -> Inv s') ->
  forall s s', Inv s -> forM value body s = Normal s' -> Inv s'.
Proof.
  intros Hbody s s' Hs. destruct value as [[|count|count]|]; cbn [forM];
    try (by intros [= <-]).
  rewrite repeatM_iterM. by apply iterM_invariant.
Qed.

Lemma forallb_snoc {A} (f : A -> bool) l x :
  forallb f (l ++ [x]) = forallb f l && f x.
Proof. rewrite forallb_app. cbn. by rewrite andb_true_r. Qed.

Lemma decodeItem_no_null_or_boolean fuel : forall view offset r,
  decodeItem fuel view offset = Normal r -> no_null_or_boolean (r_value r) = true.
Proof.
  induction fuel as [|fuel IH]; intros view offset r; [done|].
  cbn [decodeItem].
  destruct (DataView.getUint8 view offset) as [byte|]; cbn [cbind]; [|done].
  pose proof (band_31_range byte) as Hinfo.
  destruct (decodeHead view offset (JS.band byte 31)) as [h|] eqn:Hhead; cbn [cbind]; [|done].
  destruct (decodeHead_argument _ _ _ _ Hinfo Hhead) as (value & bytesUsed & ->).
  destruct (JS.sar byte 5 =? 0); [intros [= <-]; by destruct value|].
  destruct (JS.sar byte 5 =? 1); [intros [= <-]; by destruct value|].
  destruct (JS.sar byte 5 =? 2).
  { destruct (Uint8Array_over _ _ _); cbn [cbind]; [by intros [= <-] | done]. }
  destruct (JS.sar byte 5 =? 3).
  { destruct (Uint8Array_over _ _ _); cbn [cbind]; [by intros [= <-] | done]. }
  destruct (JS.sar byte 5 =? 4).
  { match goal with |- context [forM value ?body ?s] =>
      destruct (forM value body s) as [[array arrayOffset]|] eqn:Hloop end;
      cbn [cbind]; [|done].
    intros [= <-]. cbn [r_value no_null_or_boolean].
    revert Hloop.
    apply (forM_invariant (fun s => forallb no_null_or_boolean s.1 = true)); [|done].
    intros [a o] [a' o'] Ha. cbn [fst] in Ha.
    destruct (decodeItem fuel view o) as [item|] eqn:Hitem; cbn [cbind]; [|done].
    intros ?; simplify_eq. unfold fst. rewrite forallb_snoc, Ha. by apply IH in Hitem. }
  destruct (JS.sar byte 5 =? 5).
  { match goal with |- context [forM value ?body ?s] =>
      destruct (forM value body s) as [[map mapOffset]|] eqn:Hloop end;
      cbn [cbind]; [|done].
    intros [= <-]. cbn [r_value no_null_or_boolean].
    revert Hloop.
    apply (forM_invariant
             (fun s => forallb (fun '(key, val) =>
                                  no_null_or_boolean key && no_null_or_boolean val) s.1
                       = true)); [|done].
    intros [a o] [a' o'] Ha. cbn [fst] in Ha.
    destruct (decodeItem fuel view o) as [key|] eqn:Hkey; cbn [cbind]; [|done].
    destruct (decodeItem fuel view (index_add o (r_bytesUsed key))) as [val|] eqn:Hval;
      cbn [cbind]; [|done].
    intros ?; simplify_eq. unfold fst. rewrite forallb_snoc, Ha.
    apply IH in Hkey. apply IH in Hval. by rewrite Hkey, Hval. }
  destruct ((JS.sar byte 5 =? 7) && (JS.band byte 31 =? 27)); [|done].
  destruct (DataView.getFloat64 _ _); cbn [cbind]; [by intros [= <-] | done].
Qed.

(** X4: whatever bytes [decode] is given, a value it returns holds no
    [null] and no boolean at any depth: the branches of [decodeItem] that
    would return them compare the five low bits of the initial byte with
    0xF4 to 0xF7. *)
Theorem decode_never_yields_null_or_boolean data v :
  decode data = Normal v -> no_null_or_boolean v = true.
Proof.
  unfold decode, decode_with.
  destruct (decodeItem _ _ _) as [r|] eqn:Hr; cbn [cbind]; [|done].
  intros [= <-]. by eapply decodeItem_no_null_or_boolean.
Qed.

Lemma getView_short view i size :
  0 <= i -> byteLength view < i + Z.of_nat size ->
  DataView.getView view (Idx i) size = Throw RangeError.
Proof.
  intros Hi Hlen. unfold DataView.getView. cbn [ToIndex].
  destruct (Z.ltb_spec i 0); [lia|]. cbn [cbind].
  destruct (Z.ltb_spec (byteLength view) (i + Z.of_nat size)); [done | lia].
Qed.

Lemma getView_window_short front back pre p size :
  (length p < size)%nat ->
  DataView.getView (window front (pre ++ p) back) (Idx (Z.of_nat (length pre))) size
  = Throw RangeError.
Proof.
  intros Hp. apply getView_short; [lia|]. cbn [window byteLength].
  rewrite length_app. lia.
Qed.

Lemma Uint8Array_over_short buf i len :
  0 <= i -> Z.of_nat (length buf) < i + len ->
  Uint8Array_over buf (Idx i) (Some len) = Throw RangeError.
Proof.
  intros Hi Hlen. unfold Uint8Array_over. cbn [ToIndex].
  destruct (Z.ltb_spec i 0); [lia|]. cbn [cbind].
  destruct (Z.ltb_spec (Z.of_nat (length buf)) (i + len)); [done | lia].
Qed.

(** A proper prefix of the initial bytes of an item: either the first
    byte is missing, or the bytes of the argument are. *)
Lemma head_truncated majorType n front back pre p q :
  0 <= n < 4294967296 -> 0 <= majorType < 8 ->
  argument_bytes majorType n = p ++ q -> q <> [] ->
  DataView.getUint8 (window front (pre ++ p) back) (Idx (Z.of_nat (length pre)))
  = Throw RangeError
  \/ exists byte,
      DataView.getUint8 (window front (pre ++ p) back) (Idx (Z.of_nat (length pre)))
      = Normal byte
      /\ decodeHead (window front (pre ++ p) back) (Idx (Z.of_nat (length pre)))
           (JS.band byte 0x1F) = Throw RangeError.
Proof.
  intros Hn Hmt Harg Hq.
  destruct p as [|b0 p].
  { left. apply (getView_window_short front back pre [] 1). cbn. lia. }
  right. exists b0. split; [by apply (getUint8_slice front back (pre ++ b0 :: p) pre b0 p)|].
  assert (Hlen : (length (b0 :: p) < length (argument_bytes majorType n))%nat).
  { rewrite Harg, length_app. destruct q; [done|]. cbn [length]. lia. }
  assert (Hnext : forall size, (length p < size)%nat ->
            DataView.getView (window front (pre ++ b0 :: p) back)
              (index_add (Idx (Z.of_nat (length pre))) (Idx 1)) size = Throw RangeError).
  { intros size Hsize.
    change (Idx 1) with (Idx (Z.of_nat (length [b0]))). rewrite next_index.
    replace (pre ++ b0 :: p) with ((pre ++ [b0]) ++ p) by (by rewrite <- app_assoc).
    by apply getView_window_short. }
  revert Harg Hlen. unfold argument_bytes.
  destruct (Z.ltb_spec n 24) as [H24|H24];
    [|destruct (Z.ltb_spec n 256) as [H256|H256];
      [|destruct (Z.ltb_spec n 65536) as [H64k|H64k]]]; intros Harg Hlen;
    cbn [length] in Hlen; rewrite ?length_be_bytes in Hlen; try lia;
    injection Harg as <- _.
  - destruct (initial_byte_fields majorType 24) as [_ ->]; [lia..|].
    unfold decodeHead. change (24 <? 24) with false. change (24 =? 24) with true.
    cbv iota. unfold DataView.getUint8. rewrite Hnext by lia. reflexivity.
  - destruct (initial_byte_fields majorType 25) as [_ ->]; [lia..|].
    unfold decodeHead. change (25 <? 24) with false. change (25 =? 24) with false.
    change (25 =? 25) with true.
    cbv iota. unfold DataView.getUint16. rewrite Hnext by lia. reflexivity.
  - destruct (initial_byte_fields majorType 26) as [_ ->]; [lia..|].
    unfold decodeHead. change (26 <? 24) with false. change (26 =? 24) with false.
    change (26 =? 25) with false. change (26 =? 26) with true.
    cbv iota. unfold DataView.getUint32. rewrite Hnext by lia. reflexivity.
Qed.


(** Where the concatenation of two lists is cut before its end: in the
    first one, or at or after its end. *)
Lemma cut_of_two {A} (a b p q : list A) :
  a ++ b = p ++ q -> q <> [] ->
  (exists k, a = p ++ k /\ k <> []) \/ (exists k, p = a ++ k /\ b = k ++ q).
Proof.
  intros Hcut Hq. apply app_eq_inv in Hcut as [(k & Ha & Hk)|(k & Hp & Hb)].
  - destruct k as [|z k].
    + right. exists []. rewrite app_nil_r in Ha. subst. by rewrite app_nil_r.
    + left. by exists (z :: k).
  - right. by exists k.
Qed.

(** Where a concatenation of codes is cut before its end, one element
    is cut, after the elements before it. *)
Lemma concat_cut {A} (code : A -> list Z) xs : forall p q,
  concat (map code xs) = p ++ q -> q <> [] ->
  exists before x after px qx,
    xs = before ++ x :: after
    /\ p = concat (map code before) ++ px
    /\ code x = px ++ qx /\ qx <> [].
Proof.
  induction xs as [|x xs IH]; intros p q Hcut Hq.
  - cbn in Hcut. symmetry in Hcut. by apply app_eq_nil in Hcut as [_ ->].
  - cbn [map concat] in Hcut.
    destruct (cut_of_two _ _ _ _ Hcut Hq) as [(k & Hx & Hk)|(k & -> & Hxs)].
    + exists [], x, xs, p, k. by repeat split.
    + destruct (IH k q Hxs Hq) as (before & y & after & px & qx & -> & -> & Hy & Hqx).
      exists (x :: before), y, after, px, qx. repeat split; try done.
      cbn [map concat]. by rewrite app_assoc.
Qed.

Ltac out_of_fuel :=
  match goal with
  | Hfuel : (length (encoding ?v) <= 0)%nat |- _ =>
      pose proof (encoding_nonempty v); lia
  end.

(** A buffer that ends inside the encoding of a value: [decodeItem]
    throws a RangeError. *)
Lemma decodeItem_truncated v :
  supported v = true -> forall fuel front buf pre p q,
    (length p < fuel)%nat ->
    encoding v = p ++ q -> q <> [] ->
    buf = pre ++ p ->
    decodeItem fuel (window front buf []) (Idx (Z.of_nat (length pre))) = Throw RangeError.
Proof.
  induction v as [| |b|bits|s|bytes|items IH|entries IH] using Value_ind_nested;
    intros Hsup fuel front buf pre p q Hfuel Hcut Hq Hbuf; cbn [supported] in Hsup;
    try discriminate Hsup;
    (destruct fuel as [|fuel]; [lia|]);
    cbn [encoding] in Hcut.
  - destruct (JS.Number_isInteger bits).
    + apply andb_prop in Hsup as [Hsup Hlt]. apply andb_prop in Hsup as [_ Hle].
      apply Z.leb_le in Hle. apply Z.ltb_lt in Hlt. unfold magnitude in Hcut.
      subst buf. cbn [decodeItem].
      match type of Hcut with argument_bytes ?mt ?n = _ =>
        destruct (head_truncated mt n front [] pre p q) as [Hget|(byte & Hget & Hhead)];
          [destruct (Z.leb_spec 0 (JS.Number_toZ bits)); lia
          |destruct (0 <=? JS.Number_toZ bits); lia | done | done | |]
      end.
      * by rewrite Hget.
      * rewrite Hget. cbn [cbind]. by rewrite Hhead.
    + subst buf. cbn [decodeItem]. destruct p as [|b0 p].
      { unfold DataView.getUint8.
        rewrite (getView_window_short front [] pre [] 1) by (cbn; lia). done. }
      assert (Hp : (length p < 8)%nat).
      { pose proof (f_equal length Hcut) as Hl. cbn [length app] in Hl.
        rewrite length_be_bytes, length_app in Hl.
        destruct q; [done|]. cbn [length] in Hl. lia. }
      injection Hcut as <- _.
      rewrite (getUint8_slice front [] (pre ++ 251 :: p) pre 251 p) by done.
      cbn [cbind]. change (JS.sar 251 5) with 7. change (JS.band 251 31) with 27.
      change (decodeHead (window front (pre ++ 251 :: p) []) (Idx (Z.of_nat (length pre))) 27)
        with (Normal (Argument None 1)).
      cbn [cbind Z.eqb Pos.eqb andb].
      change (Idx 1) with (Idx (Z.of_nat (length [251]))). rewrite next_index.
      unfold DataView.getFloat64.
      replace (pre ++ 251 :: p) with ((pre ++ [251]) ++ p) by (by rewrite <- app_assoc).
      by rewrite getView_window_short.
  - apply Z.ltb_lt in Hsup.
    destruct (cut_of_two _ _ _ _ Hcut Hq) as [(k & Harg & Hk)|(k & -> & Hpay)].
    + subst buf. cbn [decodeItem].
      match type of Harg with argument_bytes ?mt ?n = _ =>
        destruct (head_truncated mt n front [] pre p k ltac:(lia) ltac:(lia) Harg Hk)
          as [Hget|(byte & Hget & Hhead)] end.
      * by rewrite Hget.
      * rewrite Hget. cbn [cbind]. by rewrite Hhead.
    + decode_head 3 (Z.of_nat (length (TextEncoder_encode s))) k.
      cbn [Z.eqb Pos.eqb index_add window byteOffset buffer].
      rewrite Uint8Array_over_short; [done | lia |].
      pose proof (f_equal length Hpay) as Hl. rewrite length_app in Hl.
      rewrite Hbuf, !length_app. destruct q; [done|]. cbn [length] in *. lia.
  - apply andb_prop in Hsup as [Hlen _]. apply Z.ltb_lt in Hlen.
    destruct (cut_of_two _ _ _ _ Hcut Hq) as [(k & Harg & Hk)|(k & -> & Hpay)].
    + subst buf. cbn [decodeItem].
      match type of Harg with argument_bytes ?mt ?n = _ =>
        destruct (head_truncated mt n front [] pre p k ltac:(lia) ltac:(lia) Harg Hk)
          as [Hget|(byte & Hget & Hhead)] end.
      * by rewrite Hget.
      * rewrite Hget. cbn [cbind]. by rewrite Hhead.
    + decode_head 2 (Z.of_nat (length bytes)) k.
      cbn [Z.eqb Pos.eqb index_add window byteOffset buffer].
      rewrite Uint8Array_over_short; [done | lia |].
      pose proof (f_equal length Hpay) as Hl. rewrite length_app in Hl.
      rewrite Hbuf, !length_app. destruct q; [done|]. cbn [length] in *. lia.
  - apply andb_prop in Hsup as [Hlen Hitems]. apply Z.ltb_lt in Hlen.
    pose proof (argument_bytes_length 4 (Z.of_nat (length items))) as Harglen.
    destruct (cut_of_two _ _ _ _ Hcut Hq) as [(k & Harg & Hk)|(k & -> & Hpay)].
    + subst buf. cbn [decodeItem].
      match type of Harg with argument_bytes ?mt ?n = _ =>
        destruct (head_truncated mt n front [] pre p k ltac:(lia) ltac:(lia) Harg Hk)
          as [Hget|(byte & Hget & Hhead)] end.
      * by rewrite Hget.
      * rewrite Hget. cbn [cbind]. by rewrite Hhead.
    + destruct (concat_cut encoding items k q Hpay Hq)
        as (before & x & after & px & qx & Hxs & -> & Hx & Hqx).
      rewrite !length_app in Hfuel.
      assert (Hsize : forall item, item ∈ before -> (length (encoding item) <= fuel)%nat).
      { intros item Hitem. pose proof (length_concat_elem encoding item before Hitem). lia. }
      assert (Hsupp : forall item, item ∈ items -> supported item = true).
      { intros item Hitem. rewrite forallb_forall in Hitems.
        by apply Hitems, list_elem_of_In. }
      decode_head 4 (Z.of_nat (length items)) (concat (map encoding before) ++ px).
      cbn [Z.eqb Pos.eqb]. rewrite forM_iterM, next_index.
      assert (Hcount : length items = (length before + S (length after))%nat)
        by (rewrite Hxs, length_app; done).
      assert (Hin : x ∈ items)
        by (rewrite Hxs; apply elem_of_app; right; apply list_elem_of_here).
      match goal with |- context [iterM (length items) ?body ?s] =>
        replace (iterM (length items) body s)
          with (iterM (length before + S (length after)) body s) by (by rewrite Hcount);
        rewrite iterM_add;
        rewrite (iterM_decode_each encoding body buf before) with (post := px)
      end.
      * cbn [cbind iterM].
        rewrite Forall_forall in IH.
        rewrite (IH x Hin (Hsupp x Hin) fuel front buf
                   ((pre ++ argument_bytes 4 (Z.of_nat (length items)))
                      ++ concat (map encoding before)) px qx);
          [done | lia | exact Hx | exact Hqx | by rewrite Hbuf, <- !app_assoc].
      * intros item acc pre' post' Hitem Hbuf'.
        assert (Hin' : item ∈ items) by (rewrite Hxs; apply elem_of_app; by left).
        rewrite (decodeItem_encoding item (Hsupp item Hin') fuel front [] buf pre' post');
          [| by apply Hsize | done].
        cbn [cbind r_value r_bytesUsed]. by rewrite next_index.
      * by rewrite Hbuf, <- !app_assoc.
  - apply andb_prop in Hsup as [Hlen Hentries]. apply Z.ltb_lt in Hlen.
    pose proof (argument_bytes_length 5 (Z.of_nat (length entries))) as Harglen.
    set (code := fun '(key, val) => encoding key ++ encoding val) in *.
    destruct (cut_of_two _ _ _ _ Hcut Hq) as [(k & Harg & Hk)|(k & -> & Hpay)].
    + subst buf. cbn [decodeItem].
      match type of Harg with argument_bytes ?mt ?n = _ =>
        destruct (head_truncated mt n front [] pre p k ltac:(lia) ltac:(lia) Harg Hk)
          as [Hget|(byte & Hget & Hhead)] end.
      * by rewrite Hget.
      * rewrite Hget. cbn [cbind]. by rewrite Hhead.
    + destruct (concat_cut code entries k q Hpay Hq)
        as (before & [key val] & after & px & qx & Hxs & -> & Hx & Hqx).
      rewrite !length_app in Hfuel.
      assert (Hsize : forall e, e ∈ before ->
                (length (encoding e.1) + length (encoding e.2) <= fuel)%nat).
      { intros [k0 v0] He. pose proof (length_concat_elem code (k0, v0) before He) as Hl.
        unfold code at 1 in Hl. rewrite length_app in Hl. cbn [fst snd]. lia. }
      assert (Hsupp : forall e, e ∈ entries ->
                supported e.1 = true /\ supported e.2 = true).
      { intros [k0 v0] He. rewrite forallb_forall in Hentries.
        apply list_elem_of_In, Hentries in He.
        apply andb_prop in He as [He Hv0]. by apply andb_prop in He as [_ Hk0]. }
      assert (Hin : (key, val) ∈ entries)
        by (rewrite Hxs; apply elem_of_app; right; apply list_elem_of_here).
      destruct (Hsupp _ Hin) as [Hkey Hval].
      cbn [fst snd] in Hkey, Hval.
      rewrite Forall_forall in IH. destruct (IH _ Hin) as [IHkey IHval].
      cbn [fst snd] in IHkey, IHval.
      decode_head 5 (Z.of_nat (length entries)) (concat (map code before) ++ px).
      cbn [Z.eqb Pos.eqb]. rewrite forM_iterM, next_index.
      assert (Hcount : length entries = (length before + S (length after))%nat)
        by (rewrite Hxs, length_app; done).
      match goal with |- context [iterM (length entries) ?body ?s] =>
        replace (iterM (length entries) body s)
          with (iterM (length before + S (length after)) body s) by (by rewrite Hcount);
        rewrite iterM_add;
        rewrite (iterM_decode_each code body buf before) with (post := px)
      end.
      * cbn [cbind iterM]. unfold code in Hx.
        destruct (cut_of_two _ _ _ _ Hx Hqx) as [(k' & Hk1 & Hk2)|(k' & -> & Hv)].
        -- rewrite (IHkey Hkey fuel front buf
                      ((pre ++ argument_bytes 5 (Z.of_nat (length entries)))
                         ++ concat (map code before)) px k');
             [done | lia | exact Hk1 | exact Hk2 | by rewrite Hbuf, <- !app_assoc].
        -- rewrite (decodeItem_encoding key Hkey fuel front [] buf
                      ((pre ++ argument_bytes 5 (Z.of_nat (length entries)))
                         ++ concat (map code before)) k');
             [| rewrite length_app in Hfuel; lia | by rewrite Hbuf, <- !app_assoc].
           cbn [cbind r_value r_bytesUsed]. rewrite next_index.
           rewrite (IHval Hval fuel front buf
                      (((pre ++ argument_bytes 5 (Z.of_nat (length entries)))
                          ++ concat (map code before)) ++ encoding key) k' qx);
             [done | rewrite length_app in Hfuel; lia | exact Hv | exact Hqx
             | by rewrite Hbuf, <- !app_assoc].
      * intros [k0 v0] acc pre' post' He Hbuf'. unfold code in Hbuf'.
        assert (Hin0 : (k0, v0) ∈ entries) by (rewrite Hxs; apply elem_of_app; by left).
        destruct (Hsupp _ Hin0) as [Hk0 Hv0]. pose proof (Hsize _ He) as Hkv0.
        cbn [fst snd] in Hk0, Hv0, Hkv0.
        rewrite (decodeItem_encoding k0 Hk0 fuel front [] buf pre' (encoding v0 ++ post'));
          [| lia | by rewrite Hbuf', <- ?app_assoc].
        cbn [cbind r_value r_bytesUsed]. rewrite next_index.
        rewrite (decodeItem_encoding v0 Hv0 fuel front [] buf (pre' ++ encoding k0) post');
          [| lia | by rewrite Hbuf', <- ?app_assoc].
        cbn [cbind r_value r_bytesUsed]. rewrite next_index.
        unfold code. by rewrite <- app_assoc.
      * by rewrite Hbuf, <- !app_assoc.
Qed.

(** X3: a buffer that ends inside the encoding of a supported value
    (any proper prefix of the encoding, as a buffer or as the end of
    one) makes [decode] throw a RangeError. *)
Theorem decode_rejects_truncated_encoding v front p q :
  supported v = true ->
  encoding v = p ++ q -> q <> [] ->
  decode (window front p []) = Throw RangeError.
Proof.
  intros Hsup Hcut Hq. unfold decode, decode_with.
  cbn [buffer byteOffset byteLength window].
  change (mkView (front ++ p ++ []) (Z.of_nat (length front)) (Z.of_nat (length p)))
    with (window front p []).
  rewrite (decodeItem_truncated v Hsup _ front p [] p q); try done.
  rewrite Nat2Z.id. lia.
Qed.

Lemma encodeItems_appends items :
  Forall (fun item => exists raw, forall buffer,
            encodeItem item buffer = Normal (buffer ++ raw)) items ->
  exists raws,
    Forall2 (fun item raw => forall buffer, encodeItem item buffer = Normal (buffer ++ raw))
      items raws
    /\ forall buffer, encodeItems items buffer = Normal (buffer ++ concat raws).
Proof.
  induction 1 as [|item items [raw Hraw] _ (raws & Hall & Hloop)].
  - exists []. split; [constructor|]. intros buffer. cbn. by rewrite app_nil_r.
  - exists (raw :: raws). split; [by constructor|]. intros buffer.
    cbn [encodeItems]. rewrite Hraw. cbn [cbind]. fold encodeItems.
    rewrite Hloop. cbn [concat]. by rewrite app_assoc.
Qed.

Lemma encodeEntries_appends entries :
  Forall (fun e => (exists raw, forall buffer,
                       encodeItem e.1 buffer = Normal (buffer ++ raw))
                   /\ (exists raw, forall buffer,
                          encodeItem e.2 buffer = Normal (buffer ++ raw))) entries ->
  exists raws,
    Forall2 (fun e raw =>
               (forall buffer, encodeItem e.1 buffer = Normal (buffer ++ raw.1))
               /\ (forall buffer, encodeItem e.2 buffer = Normal (buffer ++ raw.2)))
      entries raws
    /\ forall buffer,
        encodeEntries entries buffer
        = Normal (buffer ++ concat (map (fun raw => raw.1 ++ raw.2) raws)).
Proof.
  induction 1 as [|[key val] entries [[rk Hrk] [rv Hrv]] _ (raws & Hall & Hloop)].
  - exists []. split; [constructor|]. intros buffer. cbn. by rewrite app_nil_r.
  - cbn [fst snd] in Hrk, Hrv.
    exists ((rk, rv) :: raws). split; [by constructor|]. intros buffer.
    cbn [encodeEntries]. rewrite Hrk. cbn [cbind]. rewrite Hrv. cbn [cbind].
    fold encodeEntries. rewrite Hloop. cbn [map concat fst snd].
    by rewrite !app_assoc.
Qed.

(** [encodeItem] never throws: it appends to the buffer, and what it
    appends does not depend on the buffer. *)
Lemma encodeItem_appends v :
  exists raw, forall buffer, encodeItem v buffer = Normal (buffer ++ raw).
Proof.
  induction v as [| |b|bits|s|bytes|items IH|entries IH] using Value_ind_nested.
  - by exists [0xF6].
  - by exists [0xF7].
  - by exists [if b then 0xF5 else 0xF4].
  - exists (if JS.Number_isInteger bits then
              if 0 <=? JS.Number_toZ bits then encodeUnsigned (JS.Number_toZ bits) 0 []
              else encodeUnsigned (- JS.Number_toZ bits - 1) 1 []
            else 0xFB :: DataView.be_bytes 8 bits).
    intros buffer. cbn [encodeItem]. rewrite encodeNumber_normal.
    destruct (JS.Number_isInteger bits); [|done].
    destruct (0 <=? JS.Number_toZ bits); by rewrite encodeUnsigned_app.
  - eexists. intros buffer. cbn [encodeItem]. rewrite encodeUnsigned_app, <- app_assoc.
    reflexivity.
  - eexists. intros buffer. cbn [encodeItem]. rewrite encodeUnsigned_app, <- app_assoc.
    reflexivity.
  - destruct (encodeItems_appends items IH) as (raws & _ & Hloop).
    exists (encodeUnsigned (Z.of_nat (length items)) 4 [] ++ concat raws). intros buffer.
    change (encodeItem (VArray items) buffer)
      with (encodeItems items (encodeUnsigned (Z.of_nat (length items)) 4 buffer)).
    by rewrite encodeUnsigned_app, Hloop, app_assoc.
  - destruct (encodeEntries_appends entries IH) as (raws & _ & Hloop).
    exists (encodeUnsigned (Z.of_nat (length entries)) 5 []
              ++ concat (map (fun raw => raw.1 ++ raw.2) raws)). intros buffer.
    change (encodeItem (VMap entries) buffer)
      with (encodeEntries entries (encodeUnsigned (Z.of_nat (length entries)) 5 buffer)).
    by rewrite encodeUnsigned_app, Hloop, app_assoc.
Qed.


Lemma encodeItem_encoded v buffer :
  exists raw, encodeItem v buffer = Normal (buffer ++ raw)
              /\ map JS.ToUint8 raw = encoded v.
Proof.
  destruct (encodeItem_appends v) as [raw Hraw]. exists raw. split; [done|].
  unfold encoded, encode. by rewrite Hraw.
Qed.



(** C1: the encodings of [null], [undefined], [true] and [false] do
    not decode: [decodeItem] compares the low five bits of the initial
    byte with 0xF4 .. 0xF7, never finds them equal, and throws, however
    deep the recursion may go. *)
Theorem simple_values_do_not_round_trip :
  forall fuel,
    (encode VNull = Normal [0xF6]
     /\ decode_with (S fuel) (Uint8Array_from [0xF6])
        = Throw (Error "Unsupported CBOR type: 7")
     /\ decode (Uint8Array_from [0xF6]) = Throw (Error "Unsupported CBOR type: 7"))
    /\ (encode VUndefined = Normal [0xF7]
        /\ decode_with (S fuel) (Uint8Array_from [0xF7])
           = Throw (Error "Unsupported CBOR type: 7"))
    /\ (encode (VBool true) = Normal [0xF5]
        /\ decode_with (S fuel) (Uint8Array_from [0xF5])
           = Throw (Error "Unsupported CBOR type: 7"))
    /\ (encode (VBool false) = Normal [0xF4]
        /\ decode_with (S fuel) (Uint8Array_from [0xF4])
           = Throw (Error "Unsupported CBOR type: 7")).
Proof. intros fuel. repeat split; reflexivity. Qed.

(** Values without [null], [undefined] and booleans can round-trip,
    for instance [nested]. *)
Lemma nested_value_round_trips :
  match encode nested with
  | Normal bytes => decode (Uint8Array_from bytes) = Normal nested
  | Throw _ => False
  end.
Proof. vm_compute. reflexivity. Qed.

(** C8: an initial byte whose low five bits are 27 to 31 under the
    major types 0 to 5 matches no defined pattern, yet [decodeItem]
    returns a value for it; and a byte string that reaches beyond a
    view is accepted while the underlying buffer has the bytes. *)
Theorem unassigned_descriptor_accepted :
  forall fuel,
    decode_with (S fuel) (Uint8Array_from [0x1C]) = Normal VUndefined
    /\ decode_with (S fuel) (Uint8Array_from [0x3F]) = Normal (VNumber JS.NaN)
    /\ decode_with (S fuel) (Uint8Array_from [0x5C; 1; 2]) = Normal (VBytes [1; 2])
    /\ decode_with (S fuel) (Uint8Array_from [0x9F; 1; 2]) = Normal (VArray [])
    /\ decode_with (S fuel) (Uint8Array_from [0xBF]) = Normal (VMap [])
    /\ decode_with (S fuel) (mkView [0x42; 1; 2; 3] 0 1) = Normal (VBytes [1; 2]).
Proof. intros fuel. repeat split; reflexivity. Qed.

(** What does hold of C8: a major type 6, a major type 7 other than a
    double, a string or a container that needs more bytes than a
    buffer of its own has, all make [decode] throw. *)
Lemma malformed_inputs_rejected :
  decode (Uint8Array_from [0xC0]) = Throw (Error "Unsupported CBOR type: 6")
  /\ decode (Uint8Array_from [0xFF]) = Throw (Error "Unsupported CBOR type: 7")
  /\ decode (Uint8Array_from [0x42; 1]) = Throw RangeError
  /\ decode (Uint8Array_from [0x62; 0x61]) = Throw RangeError
  /\ decode (Uint8Array_from [0x83; 0x01; 0x20]) = Throw RangeError
  /\ decode (Uint8Array_from [0xA1; 0x61; 0x61]) = Throw RangeError
  /\ decode (Uint8Array_from []) = Throw RangeError.
Proof. repeat split; by vm_compute. Qed.

End CBORFacts.

(** ** WebSerialCore *)

Section WebSerialFacts.

Import WebSerialCore.
Local Open Scope string_scope.
Local Open Scope list_scope.

Lemma ws_timeout_callback_other p q st :
  q <> p -> waiting_last p st -> waiting_last p (timeout_callback q st).
Proof.
  intros Hne (l & Hl & Hp & Hpend). unfold timeout_callback.
  rewrite Hl, indexOf_app_ne by done.
  destruct (indexOf q l) as [i|] eqn:Hi; [|by exists l].
  exists (delete i l). cbn. split; [|split].
  - unfold splice1. apply delete_app_l. by eapply indexOf_lt.
  - by apply not_elem_of_delete.
  - by rewrite settle_lookup_ne.
Qed.

Lemma ws_timeout_callbacks_other p (due : list (Z * nat)) st :
  Forall (fun t => t.2 <> p) due -> waiting_last p st ->
  waiting_last p (foldl (fun st t => timeout_callback t.2 st) st due).
Proof.
  intros Hdue. revert st.
  induction Hdue as [|t due Ht _ IH]; intros st Hw; simpl; [done|].
  apply IH. by apply ws_timeout_callback_other.
Qed.

Lemma ws_timeout_callback_own p st :
  waiting_last p st ->
  (timeout_callback p st).(promises) !! p = Some (Fulfilled "TIMEOUT")
  /\ p ∉ (timeout_callback p st).(responseResolvers).
Proof.
  intros (l & Hl & Hp & Hpend). unfold timeout_callback.
  rewrite Hl, indexOf_app_first by done. cbn. unfold splice1.
  rewrite delete_middle, app_nil_r.
  split; [by apply settle_lookup | done].
Qed.

Lemma sendCommand_ok command st :
  st.(connected) = true -> st.(writer) = true ->
  sendCommand command (Normal tt) st =
    (mkState true true st.(buffer)
       (st.(responseResolvers) ++ [length st.(promises)])
       (st.(promises) ++ [Pending])
       (st.(timers) ++ [(st.(clock) + 5000, length st.(promises))])
       st.(clock)
       (st.(written) ++ [command +:+ String "010"%char EmptyString]),
     Normal (length st.(promises))).
Proof. intros Hc Hw. unfold sendCommand. rewrite Hc, Hw. reflexivity. Qed.

Lemma sendCommand_waiting command st st1 p :
  wf st -> sendCommand command (Normal tt) st = (st1, Normal p) ->
  waiting_last p st1
  /\ st1.(timers) = st.(timers) ++ [(st.(clock) + 5000, p)]
  /\ st1.(clock) = st.(clock)
  /\ Forall (fun t => t.2 <> p) st.(timers).
Proof.
  intros [Hres Htim]. unfold sendCommand.
  destruct (negb _ || negb _); [done|]. intros [= <- <-]. cbn.
  split; [|split; [done|split; [done|]]].
  - exists st.(responseResolvers). split; [done|]. split.
    + intros Hin. rewrite Forall_forall in Hres. specialize (Hres _ Hin). lia.
    + apply lookup_fresh_pending.
  - eapply Forall_impl; [exact Htim|]. cbn. intros t Ht. lia.
Qed.

Lemma elapse_after_deadline command st st1 p ms :
  wf st -> sendCommand command (Normal tt) st = (st1, Normal p) -> 5000 <= ms ->
  (elapse ms st1).(promises) !! p = Some (Fulfilled "TIMEOUT")
  /\ p ∉ (elapse ms st1).(responseResolvers).
Proof.
  intros Hwf Hsend Hms.
  destruct (sendCommand_waiting _ _ _ _ Hwf Hsend) as (Hw & Htim & Hclock & Hother).
  unfold elapse. cbv zeta. rewrite Htim, Hclock, !filter_app.
  rewrite (filter_cons_True (fun t : Z * nat => t.1 <= st.(clock) + ms)) by (cbn; lia).
  rewrite filter_nil, foldl_app. cbn [foldl snd].
  apply ws_timeout_callback_own. apply ws_timeout_callbacks_other.
  - apply Forall_filter_keep. exact Hother.
  - destruct Hw as (l & Hl & Hp & Hpend). by exists l.
Qed.

Lemma elapse_before_deadline command st st1 p ms :
  wf st -> sendCommand command (Normal tt) st = (st1, Normal p) -> ms < 5000 ->
  (elapse ms st1).(promises) !! p = Some Pending
  /\ p ∈ (elapse ms st1).(responseResolvers).
Proof.
  intros Hwf Hsend Hms.
  destruct (sendCommand_waiting _ _ _ _ Hwf Hsend) as (Hw & Htim & Hclock & Hother).
  unfold elapse. cbv zeta. rewrite Htim, Hclock, !filter_app.
  rewrite (filter_cons_False (fun t : Z * nat => t.1 <= st.(clock) + ms)) by (cbn; lia).
  rewrite filter_nil, app_nil_r.
  match goal with |- context [foldl ?f ?b ?d] =>
    assert (Hlast : waiting_last p (foldl f b d)) end.
  { apply ws_timeout_callbacks_other.
    - apply Forall_filter_keep. exact Hother.
    - destruct Hw as (l & Hl & Hp & Hpend). by exists l. }
  destruct Hlast as (l & Hl & Hp & Hpend). split; [done|].
  rewrite Hl. set_solver.
Qed.

Lemma handleResponse_first line p rest st :
  st.(responseResolvers) = p :: rest ->
  st.(promises) !! p = Some Pending ->
  (handleResponse line st).(promises) !! p = Some (Fulfilled line)
  /\ (handleResponse line st).(responseResolvers) = rest
  /\ (forall q, q <> p ->
        (handleResponse line st).(promises) !! q = st.(promises) !! q).
Proof.
  intros Hq Hp. unfold handleResponse. rewrite Hq. cbn.
  split; [by apply settle_lookup|]. split; [done|].
  intros q Hne. by apply settle_lookup_ne.
Qed.


(** C10: a command sent on a connected port returns a promise that
    stays pending, its resolver queued, for less than 5000 ms without a
    line; from 5000 ms on it is fulfilled with the string TIMEOUT and
    its resolver is out of the queue; it is never rejected; and a
    device that answers with the line TIMEOUT leaves the promise
    fulfilled with the same string. *)
Theorem sendCommand_timeout_in_band command st :
  wf st -> st.(connected) = true -> st.(writer) = true ->
  exists st1 p,
    sendCommand command (Normal tt) st = (st1, Normal p)
    /\ (forall ms, ms < 5000 ->
          (elapse ms st1).(promises) !! p = Some Pending
          /\ p ∈ (elapse ms st1).(responseResolvers))
    /\ (forall ms, 5000 <= ms ->
          (elapse ms st1).(promises) !! p = Some (Fulfilled "TIMEOUT")
          /\ p ∉ (elapse ms st1).(responseResolvers))
    /\ (forall ms e, (elapse ms st1).(promises) !! p <> Some (Rejected e))
    /\ (st.(responseResolvers) = [] -> st.(buffer) = EmptyString ->
        (receive ("TIMEOUT" +:+ LF) st1).(promises) !! p
        = Some (Fulfilled "TIMEOUT")).
Proof.
  intros Hwf Hc Hw.
  pose proof (sendCommand_ok command st Hc Hw) as Hsend.
  eexists _, _. split; [exact Hsend|].
  split; [|split; [|split]].
  - intros ms Hms. by eapply elapse_before_deadline.
  - intros ms Hms. by eapply elapse_after_deadline.
  - intros ms e. destruct (Z.lt_ge_cases ms 5000) as [Hms|Hms].
    + destruct (elapse_before_deadline _ _ _ _ ms Hwf Hsend Hms) as [-> _]. done.
    + destruct (elapse_after_deadline _ _ _ _ ms Hwf Hsend Hms) as [-> _]. done.
  - intros Hq Hb. unfold receive, processBuffer. cbn. rewrite Hb, Hq. cbn.
    apply settle_lookup. apply lookup_fresh_pending.
Qed.

(** *** Lines and chunks *)

Lemma append_cons x (a b : string) : String x a +:+ b = String x (a +:+ b).
Proof. reflexivity. Qed.


Lemma append_nil_r (a : string) : a +:+ EmptyString = a.
Proof. induction a as [|x a IH]; [done|]. by rewrite append_cons, IH. Qed.




Local Abbreviation step :=
  (fun (st : state) (line : string) => if blank line then st else handleResponse line st).

Lemma handleResponse_set_buffer x line st :
  handleResponse line (set_buffer x st) = set_buffer x (handleResponse line st).
Proof. unfold handleResponse. cbn. by destruct (responseResolvers st). Qed.

Lemma lines_set_buffer x l : forall st,
  foldl step (set_buffer x st) l = set_buffer x (foldl step st l).
Proof.
  induction l as [|line l IH]; intros st; [done|]. cbn [foldl].
  destruct (blank line); [apply IH|]. by rewrite handleResponse_set_buffer, IH.
Qed.

(** One chunk: the complete lines of the buffer continued by the text
    are handled in order, what follows the last line feed is kept. *)
Lemma receive_lines text st :
  receive text st
  = set_buffer (unterminated (st.(buffer) +:+ text))
      (foldl step st (complete_lines (st.(buffer) +:+ text))).
Proof.
  unfold receive, processBuffer. cbn [buffer set_buffer]. cbv zeta.
  change (set_buffer ?x (set_buffer ?y st)) with (set_buffer x st).
  apply lines_set_buffer.
Qed.






Lemma split_lines_one line :
  has_LF line = false -> split_lines (line +:+ LF) = [line; EmptyString].
Proof.
  induction line as [|c line IH]; [done|]. cbn [has_LF].
  intros [Hc Hline]%orb_false_elim. rewrite append_cons. cbn [split_lines].
  by rewrite Hc, IH.
Qed.

Lemma settle_keeps {A} (p q : nat) (o o' : promise A) table :
  table !! p = Some o -> o <> Pending -> settle q o' table !! p = Some o.
Proof.
  intros Hp Ho. destruct (decide (q = p)) as [->|Hne].
  - unfold settle. rewrite Hp. by destruct o.
  - by rewrite settle_lookup_ne.
Qed.

Lemma timeout_callback_keeps q p v st :
  st.(promises) !! p = Some (Fulfilled v) ->
  (timeout_callback q st).(promises) !! p = Some (Fulfilled v).
Proof.
  intros Hp. unfold timeout_callback. destruct (indexOf q _); [|done].
  cbn. by apply settle_keeps.
Qed.

Lemma elapse_keeps ms p v st :
  st.(promises) !! p = Some (Fulfilled v) ->
  (elapse ms st).(promises) !! p = Some (Fulfilled v).
Proof.
  intros Hp. unfold elapse. cbv zeta.
  match goal with |- context [foldl ?f ?s0 ?due] =>
    assert (Hs0 : s0.(promises) !! p = Some (Fulfilled v)) by exact Hp;
    generalize dependent s0; generalize due end.
  intros due. induction due as [|t due IH]; intros s0 Hs0; [done|].
  cbn [foldl]. apply IH. by apply timeout_callback_keeps.
Qed.

Lemma receive_one_line line st :
  st.(buffer) = EmptyString -> has_LF line = false ->
  receive (line +:+ LF) st = set_buffer EmptyString (step st line).
Proof.
  intros Hbuf Hline. rewrite receive_lines, Hbuf. unfold complete_lines, unterminated.
  change (EmptyString +:+ (line +:+ LF)) with (line +:+ LF).
  by rewrite split_lines_one.
Qed.

(** X7: a complete line that is not blank is given to the first
    waiting resolver as it is, not trimmed (a carriage return before the
    line feed stays in the answer), and the answer stays whatever time
    passes; a line of white space only is dropped and uses up no
    resolver. *)
Theorem line_delivered_verbatim line p rest st :
  st.(buffer) = EmptyString -> has_LF line = false ->
  st.(responseResolvers) = p :: rest -> st.(promises) !! p = Some Pending ->
  (blank line = false ->
   (receive (line +:+ LF) st).(promises) !! p = Some (Fulfilled line)
   /\ (receive (line +:+ LF) st).(responseResolvers) = rest
   /\ forall ms, (elapse ms (receive (line +:+ LF) st)).(promises) !! p
                 = Some (Fulfilled line))
  /\ (blank line = true ->
      (receive (line +:+ LF) st).(promises) = st.(promises)
      /\ (receive (line +:+ LF) st).(responseResolvers) = p :: rest).
Proof.
  intros Hbuf Hline Hq Hp.
  rewrite (receive_one_line line st Hbuf Hline). split; intros Hblank; rewrite Hblank.
  - destruct (handleResponse_first line p rest st Hq Hp) as (Hfull & Hrest & _).
    split; [done|]. split; [done|]. intros ms. by apply elapse_keeps.
  - done.
Qed.

Lemma lines_without_waiter l : forall st,
  st.(responseResolvers) = [] -> foldl step st l = st.
Proof.
  induction l as [|line l IH]; intros st Hq; [done|]. cbn [foldl].
  destruct (blank line); [by apply IH|].
  unfold handleResponse. rewrite Hq. by apply IH.
Qed.

Lemma sendCommand_two_parts command write st :
  sendCommand command write st
  = match sendCommand_check st with
    | Throw e => (st, Throw e)
    | Normal _ => sendCommand_resume command write st
    end.
Proof.
  unfold sendCommand, sendCommand_check, sendCommand_resume.
  by destruct (negb (connected st) || negb (writer st)).
Qed.

(** X8: text that is handled while no resolver waits is discarded;
    this includes an answer that is handled after [sendCommand] has
    passed its check and before the write has settled: the resolver
    that is then queued finds no line, and the promise ends with
    TIMEOUT. *)
Theorem answer_before_resolver_is_lost command text st :
  wf st -> st.(responseResolvers) = [] ->
  sendCommand_check st = Normal tt ->
  (receive text st).(promises) = st.(promises)
  /\ (receive text st).(responseResolvers) = []
  /\ exists st2 p,
      sendCommand_resume command (Normal tt) (receive text st) = (st2, Normal p)
      /\ st2.(promises) !! p = Some Pending
      /\ st2.(responseResolvers) = [p]
      /\ forall ms, 5000 <= ms ->
           (elapse ms st2).(promises) !! p = Some (Fulfilled "TIMEOUT").
Proof.
  intros Hwf Hq Hcheck.
  assert (Hrecv : receive text st = set_buffer (unterminated (st.(buffer) +:+ text)) st).
  { rewrite receive_lines. by rewrite lines_without_waiter. }
  rewrite Hrecv. cbn [promises responseResolvers set_buffer].
  split; [done|]. split; [done|].
  set (st1 := set_buffer _ st).
  assert (Hwf1 : wf st1) by exact Hwf.
  unfold sendCommand_check in Hcheck.
  destruct (negb (connected st) || negb (writer st)) eqn:Hgate; [done|].
  apply orb_false_elim in Hgate as [Hc%negb_false_iff Hw%negb_false_iff].
  assert (Hcheck1 : sendCommand_check st1 = Normal tt).
  { unfold sendCommand_check. cbn. by rewrite Hc, Hw. }
  assert (Hres : sendCommand_resume command (Normal tt) st1
                 = sendCommand command (Normal tt) st1).
  { by rewrite sendCommand_two_parts, Hcheck1. }
  pose proof (sendCommand_ok command st1 Hc Hw) as Hsend.
  rewrite Hres, Hsend.
  eexists _, _. split; [reflexivity|]. cbn [promises responseResolvers].
  split; [apply lookup_fresh_pending|].
  split; [unfold st1; cbn [responseResolvers set_buffer]; by rewrite Hq|].
  intros ms Hms.
  by destruct (elapse_after_deadline command st1 _ _ ms Hwf1 Hsend Hms).
Qed.

(** *** Late answers and disconnection *)

Lemma timeout_callback_fields q st :
  (timeout_callback q st).(connected) = st.(connected)
  /\ (timeout_callback q st).(writer) = st.(writer)
  /\ (timeout_callback q st).(buffer) = st.(buffer)
  /\ length (timeout_callback q st).(promises) = length st.(promises)
  /\ (forall x, x ∈ (timeout_callback q st).(responseResolvers) ->
                x ∈ st.(responseResolvers)).
Proof.
  unfold timeout_callback. destruct (indexOf q _) as [i|]; [|done]. cbn.
  repeat split; try done.
  - unfold settle. destruct (promises st !! q) as [[]|]; try done.
    apply length_insert.
  - intros x Hx. unfold splice1 in Hx. by eapply list_elem_of_delete_inv.
Qed.

Lemma timeout_callbacks_fields (due : list (Z * nat)) : forall s0,
  (foldl (fun st t => timeout_callback t.2 st) s0 due).(connected) = s0.(connected)
  /\ (foldl (fun st t => timeout_callback t.2 st) s0 due).(writer) = s0.(writer)
  /\ (foldl (fun st t => timeout_callback t.2 st) s0 due).(buffer) = s0.(buffer)
  /\ length (foldl (fun st t => timeout_callback t.2 st) s0 due).(promises)
     = length s0.(promises)
  /\ (forall x, x ∈ (foldl (fun st t => timeout_callback t.2 st) s0 due).(responseResolvers)
                -> x ∈ s0.(responseResolvers)).
Proof.
  induction due as [|t due IH]; intros s0; [done|].
  cbn [foldl]. destruct (IH (timeout_callback t.2 s0)) as (-> & -> & -> & -> & Hsub).
  destruct (timeout_callback_fields t.2 s0) as (-> & -> & -> & -> & Hsub').
  repeat split; try done. intros x Hx. by apply Hsub', Hsub.
Qed.

Lemma elapse_fields ms st :
  (elapse ms st).(connected) = st.(connected)
  /\ (elapse ms st).(writer) = st.(writer)
  /\ (elapse ms st).(buffer) = st.(buffer)
  /\ length (elapse ms st).(promises) = length st.(promises)
  /\ (forall x, x ∈ (elapse ms st).(responseResolvers) -> x ∈ st.(responseResolvers)).
Proof.
  unfold elapse. cbv zeta.
  match goal with |- context [foldl ?f ?s0 ?due] =>
    destruct (timeout_callbacks_fields due s0) as (-> & -> & -> & -> & Hsub) end.
  done.
Qed.

(** X9: a line that arrives after a command has timed out answers
    the command sent next: the first promise keeps TIMEOUT, the second
    is fulfilled with the late line. *)
Theorem late_answer_goes_to_next_command a b line ms st :
  wf st -> st.(connected) = true -> st.(writer) = true ->
  st.(responseResolvers) = [] -> st.(buffer) = EmptyString ->
  has_LF line = false -> blank line = false -> 5000 <= ms ->
  exists st1 p st2 q,
    sendCommand a (Normal tt) st = (st1, Normal p)
    /\ sendCommand b (Normal tt) (elapse ms st1) = (st2, Normal q)
    /\ p <> q
    /\ (receive (line +:+ LF) st2).(promises) !! p = Some (Fulfilled "TIMEOUT")
    /\ (receive (line +:+ LF) st2).(promises) !! q = Some (Fulfilled line).
Proof.
  intros Hwf Hc Hw Hq Hbuf Hline Hblank Hms.
  pose proof (sendCommand_ok a st Hc Hw) as Hsend1.
  set (st1 := mkState _ _ _ _ _ _ _ _) in Hsend1.
  set (p := length (promises st)) in *.
  destruct (elapse_after_deadline a st st1 p ms Hwf Hsend1 Hms) as [Hp Hgone].
  destruct (elapse_fields ms st1) as (Hc1 & Hw1 & Hb1 & Hlen1 & Hsub).
  assert (Hq1 : (elapse ms st1).(responseResolvers) = []).
  { destruct (responseResolvers (elapse ms st1)) as [|x l] eqn:Hl; [done|].
    exfalso. assert (Hx : x ∈ responseResolvers st1) by (apply Hsub; rewrite ?Hl; left).
    unfold st1 in Hx. cbn [responseResolvers] in Hx. rewrite Hq in Hx.
    apply list_elem_of_singleton in Hx as ->. apply Hgone. rewrite ?Hl. left. }
  pose proof (sendCommand_ok b (elapse ms st1) Hc1 Hw1) as Hsend2.
  assert (Hlen : length (promises (elapse ms st1)) = S p).
  { rewrite Hlen1. unfold st1. cbn [promises]. rewrite length_app. cbn. lia. }
  rewrite Hlen in Hsend2.
  set (st2 := mkState _ _ _ _ _ _ _ _) in Hsend2.
  exists st1, p, st2, (S p). split; [done|]. split; [done|]. split; [lia|].
  rewrite receive_one_line by (try done; unfold st2; cbn [buffer]; by rewrite Hb1).
  rewrite Hblank. cbn [promises set_buffer].
  destruct (handleResponse_first line (S p) [] st2) as (Hfull & _ & Hother).
  { unfold st2. cbn [responseResolvers]. by rewrite Hq1. }
  { unfold st2. cbn [promises]. rewrite <- Hlen. apply lookup_fresh_pending. }
  split; [|done]. rewrite Hother by lia. unfold st2. cbn [promises].
  rewrite lookup_app_l; [done|]. by eapply lookup_lt_Some.
Qed.

Lemma timeout_callback_set_writer b q st :
  timeout_callback q (set_writer b st) = set_writer b (timeout_callback q st).
Proof. unfold timeout_callback. cbn. by destruct (indexOf q _). Qed.

Lemma timeout_callback_set_connected b q st :
  timeout_callback q (set_connected b st) = set_connected b (timeout_callback q st).
Proof. unfold timeout_callback. cbn. by destruct (indexOf q _). Qed.

Lemma timeout_callbacks_same (due : list (Z * nat)) : forall a b,
  promises a = promises b -> responseResolvers a = responseResolvers b ->
  promises (foldl (fun st t => timeout_callback t.2 st) a due)
  = promises (foldl (fun st t => timeout_callback t.2 st) b due).
Proof.
  induction due as [|t due IH]; intros a b Hp Hq; [done|].
  cbn [foldl]. apply IH; unfold timeout_callback; rewrite Hq;
    (destruct (indexOf t.2 _); [|done]); cbn; by rewrite ?Hp, ?Hq.
Qed.

Lemma elapse_promises_set ms st st' :
  st'.(promises) = st.(promises) -> st'.(responseResolvers) = st.(responseResolvers) ->
  st'.(timers) = st.(timers) -> st'.(clock) = st.(clock) ->
  (elapse ms st').(promises) = (elapse ms st).(promises).
Proof.
  intros Hp Hq Ht Hclock. unfold elapse. cbv zeta. rewrite Ht, Hclock.
  by apply timeout_callbacks_same.
Qed.

Lemma disconnect_keeps port writer_close port_close st :
  ((disconnect port writer_close port_close st).1).(promises) = st.(promises)
  /\ ((disconnect port writer_close port_close st).1).(responseResolvers)
     = st.(responseResolvers)
  /\ ((disconnect port writer_close port_close st).1).(timers) = st.(timers)
  /\ ((disconnect port writer_close port_close st).1).(clock) = st.(clock)
  /\ ((disconnect port writer_close port_close st).1).(buffer) = st.(buffer).
Proof.
  unfold disconnect.
  destruct (writer st), writer_close, port, port_close; done.
Qed.

(** X10: [disconnect] marks the object as disconnected only when the
    writer and the port, where set, were closed without an exception; a
    failed close is caught and leaves the object connected.  Once a
    connected object is marked disconnected, its writer and port are
    unset and [sendCommand] throws.  In every case the pending promises
    and their resolvers are left alone, so they end as they would have
    without the call. *)
Theorem disconnect_outcomes port writer_close port_close st :
  let after := disconnect port writer_close port_close st in
  (isConnected after.1 = false <->
   (st.(writer) = false \/ exists u, writer_close = Normal u)
   /\ (port = false \/ exists u, port_close = Normal u)
   \/ st.(connected) = false)
  /\ (isConnected after.1 = false -> st.(connected) = true ->
      after.1.(writer) = false /\ after.2 = false
      /\ forall command write,
          sendCommand command write after.1 = (after.1, Throw not_connected))
  /\ after.1.(promises) = st.(promises)
  /\ after.1.(responseResolvers) = st.(responseResolvers)
  /\ forall ms, (elapse ms after.1).(promises) = (elapse ms st).(promises).
Proof.
  cbv zeta.
  destruct (disconnect_keeps port writer_close port_close st) as (Hp & Hq & Ht & Hclock & _).
  split; [|split; [|split; [done|split; [done|]]]].
  - unfold disconnect, isConnected.
    destruct (writer st), writer_close as [[]|], port, port_close as [[]|],
      (connected st) eqn:Hc; cbn; rewrite ?Hc; split; intros H; try done;
      try (left; split; [first [by left | right; by eexists]
                        | first [by left | right; by eexists]]);
      try (by right);
      destruct H as [[[?|[? ?]] [?|[? ?]]]|?]; done.
  - unfold disconnect, isConnected.
    destruct (writer st) eqn:Hw, writer_close as [[]|], port, port_close as [[]|];
      cbn; intros H Hc; rewrite ?Hc in H; try done;
      (split; [by rewrite ?Hw|split; [done|]]);
      intros command write; unfold sendCommand; cbn; done.
  - intros ms. by apply elapse_promises_set.
Qed.

End WebSerialFacts.

(** ** VelocityDriveClient *)

Section ClientFacts.

Import Client.
Local Open Scope string_scope.
Local Open Scope list_scope.

Context {Protocol Frame DeviceInfo : Type}.
Variable createCoAPMessage :
  string -> string -> option (list Z) -> Protocol -> Protocol * completion (list Z).
Variable parsePingResponse :
  list Z -> Protocol -> Protocol * completion (option DeviceInfo).
Variable processData :
  list Z -> Protocol -> Protocol * completion (list Frame).
Variable CoAPMessage_decode : Frame -> completion (option CoAP).
Variable CBORCodec_decode : list Z -> completion Value.
Variable CBORCodec_encode : Value -> completion (list Z).

Local Abbreviation state := (@Client.state Protocol DeviceInfo).
Local Abbreviation event_data := (@Client.event_data DeviceInfo).
Local Abbreviation request := (Client.request createCoAPMessage).
Local Abbreviation yangGet := (Client.yangGet createCoAPMessage).
Local Abbreviation yangSet := (Client.yangSet createCoAPMessage CBORCodec_encode).
Local Abbreviation yangDelete := (Client.yangDelete createCoAPMessage).
Local Abbreviation handleCoAPFrame :=
  (Client.handleCoAPFrame CoAPMessage_decode CBORCodec_decode).
Local Abbreviation handleFrames :=
  (Client.handleFrames CoAPMessage_decode CBORCodec_decode).
Local Abbreviation handleData :=
  (Client.handleData createCoAPMessage parsePingResponse processData
     CoAPMessage_decode CBORCodec_decode).
Local Abbreviation deliver :=
  (Client.deliver createCoAPMessage parsePingResponse processData
     CoAPMessage_decode CBORCodec_decode).

Implicit Types (st : state) (d : event_data).

(** *** The catalog gate *)

Lemma catalog_unset_missing st : st.(yangCatalogId) = None -> catalog_missing st = true.
Proof. unfold catalog_missing. by intros ->. Qed.

(** C7: while [yangCatalogId] is unset, [yangGet], [yangSet] and
    [yangDelete] fail with the error "YANG catalog not loaded" and leave
    the client as it was: the protocol object has built no message, the
    codec has encoded nothing, nothing was written. *)
Theorem yang_calls_gated path value st :
  st.(yangCatalogId) = None ->
  yangGet path st = (st, Throw (Error "YANG catalog not loaded"))
  /\ yangSet path value st = (st, Throw (Error "YANG catalog not loaded"))
  /\ yangDelete path st = (st, Throw (Error "YANG catalog not loaded")).
Proof.
  intros H%catalog_unset_missing.
  unfold Client.yangGet, Client.yangSet, Client.yangDelete. by rewrite H.
Qed.

(** *** A request that returns a promise *)

Lemma request_Normal method path body st st1 p :
  request method path body st = (st1, Normal p) ->
  p = length st.(promises)
  /\ st1.(promises) = st.(promises) ++ [Pending]
  /\ st1.(eventListeners) =
       <["dataReceived" := listeners "dataReceived" st ++ [Handler p st.(next_timer)]]>
         st.(eventListeners)
  /\ st1.(timers) = st.(timers) ++ [(st.(next_timer), (st.(clock) + 10000, p))]
  /\ st1.(clock) = st.(clock).
Proof.
  unfold Client.request.
  destruct (createCoAPMessage method path body (protocol st)) as [proto [message|e]];
    [|done].
  unfold sendRaw. cbn.
  destruct (negb (connected st) || negb (writer st)); [done|].
  destruct (link st); [|done].
  cbn. intros [= <- <-]. by cbn.
Qed.

Lemma yang_request path value st st1 p :
  yangGet path st = (st1, Normal p)
  \/ yangSet path value st = (st1, Normal p)
  \/ yangDelete path st = (st1, Normal p) ->
  exists method body, request method path body st = (st1, Normal p).
Proof.
  unfold Client.yangGet, Client.yangSet, Client.yangDelete.
  destruct (catalog_missing st); [by intros [|[|]]|].
  intros [H|[H|H]]; [by eauto| |by eauto].
  destruct (CBORCodec_encode value); [by eauto|done].
Qed.

(** *** Timers *)

Lemma timeout_callbacks_other p (due : list (nat * (Z * nat))) st :
  Forall (fun t => t.2.2 <> p) due ->
  (foldl (fun st t => timeout_callback t.2.2 st) st due).(promises) !! p
  = st.(promises) !! p.
Proof.
  intros Hdue. revert st.
  induction Hdue as [|t due Ht _ IH]; intros st; simpl; [done|].
  rewrite IH. cbn. by apply settle_lookup_ne.
Qed.

Lemma request_times_out method path body st st1 p ms :
  wf st -> request method path body st = (st1, Normal p) -> 10000 <= ms ->
  (elapse ms st1).(promises) !! p = Some (Rejected (Error "Request timeout")).
Proof.
  intros Hwf Hreq Hms.
  destruct (request_Normal _ _ _ _ _ _ Hreq) as (Hp & Hprom & _ & Htim & Hclock).
  unfold elapse. cbv zeta. rewrite Htim, Hclock, !filter_app.
  rewrite (filter_cons_True (fun t : nat * (Z * nat) => t.2.1 <= st.(clock) + ms))
    by (cbn; lia).
  rewrite filter_nil, foldl_app. cbn [foldl snd]. unfold timeout_callback at 1, reject.
  cbn. apply settle_lookup. rewrite timeout_callbacks_other.
  - cbn. rewrite Hprom, Hp. apply lookup_fresh_pending.
  - apply Forall_filter_keep. eapply Forall_impl; [exact Hwf|]. cbn. intros t Ht. lia.
Qed.

Lemma request_pending_before method path body st st1 p ms :
  wf st -> request method path body st = (st1, Normal p) -> ms < 10000 ->
  (elapse ms st1).(promises) !! p = Some Pending.
Proof.
  intros Hwf Hreq Hms.
  destruct (request_Normal _ _ _ _ _ _ Hreq) as (Hp & Hprom & _ & Htim & Hclock).
  unfold elapse. cbv zeta. rewrite Htim, Hclock, !filter_app.
  rewrite (filter_cons_False (fun t : nat * (Z * nat) => t.2.1 <= st.(clock) + ms))
    by (cbn; lia).
  rewrite filter_nil, app_nil_r. rewrite timeout_callbacks_other.
  - cbn. rewrite Hprom, Hp. apply lookup_fresh_pending.
  - apply Forall_filter_keep. eapply Forall_impl; [exact Hwf|]. cbn. intros t Ht. lia.
Qed.

(** C6, as amended: a YANG request that got its promise and no answer
    is pending for less than 10000 ms and from then on rejected with
    the error "Request timeout"; a command of WebSerialCore that got no
    line is, from 5000 ms on, not failed but fulfilled with the string
    TIMEOUT, and its resolver is out of the queue. *)
Theorem timeout_outcomes :
  (forall path value st st1 p ms,
      wf st ->
      yangGet path st = (st1, Normal p)
      \/ yangSet path value st = (st1, Normal p)
      \/ yangDelete path st = (st1, Normal p) ->
      (ms < 10000 -> (elapse ms st1).(promises) !! p = Some Pending)
      /\ (10000 <= ms ->
          (elapse ms st1).(promises) !! p = Some (Rejected (Error "Request timeout"))))
  /\ (forall command ws ws1 p ms,
         WebSerialCore.wf ws ->
         WebSerialCore.sendCommand command (Normal tt) ws = (ws1, Normal p) ->
         5000 <= ms ->
         (WebSerialCore.elapse ms ws1).(WebSerialCore.promises) !! p
         = Some (Fulfilled "TIMEOUT")
         /\ p ∉ (WebSerialCore.elapse ms ws1).(WebSerialCore.responseResolvers)).
Proof.
  split.
  - intros path value st st1 p ms Hwf Hcall.
    destruct (yang_request _ _ _ _ _ Hcall) as (method & body & Hreq).
    split; intros Hms.
    + by eapply request_pending_before.
    + by eapply request_times_out.
  - intros command ws ws1 p ms Hwf Hsend Hms. by eapply elapse_after_deadline.
Qed.

(** *** emit *)


Lemma call_handler event p t d st l r :
  st.(eventListeners) !! "dataReceived" = Some (l ++ Handler p t :: r) ->
  Handler p t ∉ l ->
  (call event (Handler p t) d st).(eventListeners)
  = <["dataReceived" := l ++ r]> st.(eventListeners)
  /\ (call event (Handler p t) d st).(promises)
     = settle p (Fulfilled d) st.(promises).
Proof.
  intros Hl Hnot. cbn [call]. unfold off. cbn. rewrite Hl.
  rewrite indexOf_app_first by done. cbn. unfold splice1.
  by rewrite delete_middle.
Qed.

Lemma Handler_not_Listener p t ids : Handler p t ∉ map Listener ids.
Proof. intros Hin. apply list_elem_of_fmap in Hin as (id & [=] & _). Qed.



Lemma emit_preserves event d st :
  (emit event d st).(protocol) = st.(protocol)
  /\ (emit event d st).(connected) = st.(connected)
  /\ (emit event d st).(reading) = st.(reading).
Proof.
  unfold emit. destruct (st.(eventListeners) !! event) as [l|]; [|done].
  generalize (length l) 0%nat. intros n. revert st.
  induction n as [|n IH]; intros st k; cbn [forEach]; [done|].
  destruct (default [] (eventListeners st !! event) !! k) as [[p t|id]|]; [| |apply IH].
  - destruct (IH (call event (Handler p t) d st) (S k)) as (-> & -> & ->).
    cbn. unfold off. cbn. by repeat case_match.
  - destruct (IH (call event (Listener id) d st) (S k)) as (-> & -> & ->). done.
Qed.

(** *** Frames *)


Lemma handleCoAPFrame_decode_error frame coap bytes e st :
  CoAPMessage_decode frame = Normal (Some coap) ->
  coap.(payload) = Some bytes ->
  CBORCodec_decode bytes = Throw e ->
  handleCoAPFrame frame st = (st, Throw e).
Proof.
  intros H1 H2 H3. unfold Client.handleCoAPFrame. by rewrite H1, H2, H3.
Qed.

Lemma handleFrames_throw before frame after st st1 st2 e :
  handleFrames before st = (st1, Normal tt) ->
  handleCoAPFrame frame st1 = (st2, Throw e) ->
  handleFrames (before ++ frame :: after) st = (st2, Throw e).
Proof.
  revert st. induction before as [|f before IH]; intros st; cbn [Client.handleFrames app].
  - intros [= <-] ->. done.
  - destruct (handleCoAPFrame f st) as [st' [[]|e']]; [|done]. apply IH.
Qed.

Lemma readLoop_catch_stops e st :
  (readLoop_catch e st).(reading) = false.
Proof. reflexivity. Qed.

(** C3, as amended: when the payload of a frame of a chunk fails to
    decode, the exception leaves [handleData] and reaches the [catch] of
    [readLoop]: the frames before it have been handled, "error" is
    emitted if the client is connected, the frames after it are not
    handled, the loop has ended, and whatever the reader delivers later
    changes nothing. *)
Theorem decode_error_ends_readLoop data before frame after coap bytes e proto st stb :
  st.(reading) = true ->
  includes (TextEncoder_encode "VelocitySP-v") data = false ->
  processData data st.(protocol) = (proto, Normal (before ++ frame :: after)) ->
  handleFrames before
    (set_protocol proto (emit "rawData" (RawData "receive" data) st))
  = (stb, Normal tt) ->
  CoAPMessage_decode frame = Normal (Some coap) ->
  coap.(payload) = Some bytes ->
  CBORCodec_decode bytes = Throw e ->
  deliver (Chunk data) st
  = set_reading false (if stb.(connected) then emit "error" (Failure e) stb else stb)
  /\ (deliver (Chunk data) st).(reading) = false
  /\ (forall r, deliver r (deliver (Chunk data) st) = deliver (Chunk data) st).
Proof.
  intros Hreading Hping Hframes Hbefore Hdec Hpay Hcbor.
  assert (Hd : deliver (Chunk data) st = readLoop_catch e stb).
  { unfold Client.deliver. rewrite Hreading. cbn [negb].
    unfold Client.handleData. rewrite Hping.
    destruct (emit_preserves "rawData" (RawData "receive" data) st) as (-> & _).
    rewrite Hframes.
    rewrite (handleFrames_throw before frame after _ stb stb e Hbefore); [done|].
    by eapply handleCoAPFrame_decode_error. }
  rewrite Hd. split; [done|]. split; [done|].
  intros r. unfold Client.deliver. by rewrite readLoop_catch_stops.
Qed.

(** *** Two outstanding requests *)




(** *** Registration *)

Lemma indexOf_None `{EqDecision A} (x : A) l : x ∉ l -> indexOf x l = None.
Proof.
  induction l as [|y l IH]; intros Hx; [done|]. cbn [indexOf].
  apply not_elem_of_cons in Hx as [Hne Hl]. rewrite decide_False by done.
  by rewrite IH.
Qed.

Lemma listeners_on event cb st :
  listeners event (on event cb st) = listeners event st ++ [cb].
Proof. unfold listeners, on. cbn. by rewrite lookup_insert_eq. Qed.

Lemma listeners_on_ne event event' cb st :
  event <> event' -> listeners event' (on event cb st) = listeners event' st.
Proof. intros Hne. unfold listeners, on. cbn. by rewrite lookup_insert_ne. Qed.

Lemma listeners_off event cb l r st :
  listeners event st = l ++ cb :: r -> cb ∉ l ->
  listeners event (off event cb st) = l ++ r.
Proof.
  unfold listeners, off. intros Hl Hnot.
  destruct (eventListeners st !! event) as [ls|] eqn:Hev; cbn in Hl.
  - subst ls. rewrite indexOf_app_first by done. cbn. rewrite lookup_insert_eq.
    cbn. unfold splice1. by rewrite delete_middle.
  - by destruct l.
Qed.

Lemma off_unregistered event cb st : cb ∉ listeners event st -> off event cb st = st.
Proof.
  unfold listeners, off. intros Hnot.
  destruct (eventListeners st !! event) as [ls|]; [|done].
  cbn in Hnot. by rewrite indexOf_None.
Qed.

(** X11: [off] removes the first registration of a callback for the event
    and nothing else: a callback that was registered twice is still
    registered once afterwards; for a callback that is not registered
    [off] changes nothing, and [off] after [on] gives the listeners back. *)
Theorem off_removes_first_registration event cb st :
  (forall l r, listeners event st = l ++ cb :: r -> cb ∉ l ->
               listeners event (off event cb st) = l ++ r)
  /\ (cb ∉ listeners event st ->
      off event cb st = st
      /\ listeners event (off event cb (on event cb st)) = listeners event st
      /\ listeners event (off event cb (on event cb (on event cb st)))
         = listeners event st ++ [cb]).
Proof.
  split; [intros l r; apply listeners_off|]. intros Hnot.
  split; [by apply off_unregistered|]. split.
  - rewrite (listeners_off event cb (listeners event st) []).
    + by rewrite app_nil_r.
    + apply listeners_on.
    + done.
  - by rewrite (listeners_off event cb (listeners event st) [cb]);
      [|rewrite !listeners_on, <- app_assoc|].
Qed.

(** *** emit, in full *)

Lemma set_calls_same st : set_calls st.(calls) st = st.
Proof. by destruct st. Qed.

Lemma set_calls_set_calls x y st : set_calls x (set_calls y st) = set_calls x st.
Proof. reflexivity. Qed.

(** The calls [emit] makes to outside listeners, as they are recorded. *)
Lemma forEach_listeners_calls event d ids : forall pre rest n st,
  st.(eventListeners) !! event = Some (pre ++ map Listener ids ++ rest) ->
  forEach (length ids + n) (length pre) event d st
  = forEach n (length pre + length ids) event d
      (set_calls (st.(calls) ++ map (fun id => (id, event, d)) ids) st).
Proof.
  induction ids as [|id ids IH]; intros pre rest n st Hl.
  - cbn [map length Nat.add]. by rewrite Nat.add_0_r, app_nil_r, set_calls_same.
  - cbn [map app] in Hl. cbn [length Nat.add forEach]. rewrite Hl. reduce_default.
    rewrite list_lookup_middle by done. cbn [call].
    set (st1 := set_calls _ st).
    assert (Heq := IH (pre ++ [Listener id]) rest n st1).
    rewrite length_app in Heq. cbn [length] in Heq.
    replace (S (length pre)) with (length pre + 1)%nat by lia.
    rewrite Heq by (cbn; rewrite Hl; by rewrite <- app_assoc).
    unfold st1. rewrite set_calls_set_calls. cbn [calls set_calls map].
    rewrite <- app_assoc. cbn [app]. f_equal. lia.
Qed.

Lemma forEach_beyond event d n : forall k st,
  (length (listeners event st) <= k)%nat -> forEach n k event d st = st.
Proof.
  induction n as [|n IH]; intros k st Hk; [done|]. cbn [forEach].
  fold (listeners event st). rewrite lookup_ge_None_2 by done. apply IH. lia.
Qed.

(** An event whose listeners are all outside listeners: each is
    called once, in order, and nothing else changes. *)
Lemma emit_outside event d ids st :
  listeners event st = map Listener ids ->
  emit event d st = set_calls (st.(calls) ++ map (fun id => (id, event, d)) ids) st.
Proof.
  unfold listeners, emit. intros Hl.
  destruct (eventListeners st !! event) as [ls|] eqn:Hev; cbn in Hl.
  - subst ls. rewrite length_map.
    assert (Heq := forEach_listeners_calls event d ids [] [] 0 st).
    cbn [length app Nat.add] in Heq. rewrite app_nil_r, Nat.add_0_r in Heq.
    rewrite Heq by done. reflexivity.
  - destruct ids; [|done]. cbn [map]. by rewrite app_nil_r, set_calls_same.
Qed.

(** The fields that no call of a listener changes. *)
Lemma call_keeps event cb d st :
  (call event cb d st).(protocol) = st.(protocol)
  /\ (call event cb d st).(connected) = st.(connected)
  /\ (call event cb d st).(writer) = st.(writer)
  /\ (call event cb d st).(deviceInfo) = st.(deviceInfo)
  /\ (call event cb d st).(yangCatalogId) = st.(yangCatalogId)
  /\ (call event cb d st).(link) = st.(link)
  /\ (call event cb d st).(written) = st.(written)
  /\ (call event cb d st).(next_timer) = st.(next_timer)
  /\ (call event cb d st).(clock) = st.(clock).
Proof.
  destruct cb as [p t|id]; [|done]. cbn [call]. unfold off. cbn.
  by repeat case_match.
Qed.

Lemma emit_keeps event d st :
  (emit event d st).(protocol) = st.(protocol)
  /\ (emit event d st).(connected) = st.(connected)
  /\ (emit event d st).(writer) = st.(writer)
  /\ (emit event d st).(deviceInfo) = st.(deviceInfo)
  /\ (emit event d st).(yangCatalogId) = st.(yangCatalogId)
  /\ (emit event d st).(link) = st.(link)
  /\ (emit event d st).(written) = st.(written)
  /\ (emit event d st).(next_timer) = st.(next_timer)
  /\ (emit event d st).(clock) = st.(clock).
Proof.
  unfold emit. destruct (st.(eventListeners) !! event) as [l|]; [|done].
  generalize (length l) 0%nat. intros n. revert st.
  induction n as [|n IH]; intros st k; cbn [forEach]; [done|].
  destruct (default [] (eventListeners st !! event) !! k) as [cb|]; [|apply IH].
  destruct (IH (call event cb d st) (S k)) as (-> & -> & -> & -> & -> & -> & -> & -> & ->).
  apply call_keeps.
Qed.

Lemma forEach_S n k event d st :
  forEach (S n) k event d st
  = forEach n (S k) event d
      match listeners event st !! k with
      | Some cb => call event cb d st
      | None => st
      end.
Proof. reflexivity. Qed.

(** X12: the handler of a pending request removes itself from the
    array that [forEach] is walking in [emit]; the listener registered
    right after it is therefore not called for this event, while the
    listeners before the handler and after the skipped one are called, and
    the promise is fulfilled with the data. *)
Theorem listener_after_handler_is_skipped d ids id ids2 p t st :
  listeners "dataReceived" st
  = map Listener ids ++ Handler p t :: Listener id :: map Listener ids2 ->
  (emit "dataReceived" d st).(calls)
  = st.(calls) ++ map (fun i => (i, "dataReceived", d)) (ids ++ ids2)
  /\ (emit "dataReceived" d st).(promises) = settle p (Fulfilled d) st.(promises)
  /\ listeners "dataReceived" (emit "dataReceived" d st)
     = map Listener ids ++ Listener id :: map Listener ids2.
Proof.
  unfold listeners at 1. intros Hl.
  destruct (eventListeners st !! "dataReceived") as [ls|] eqn:Hev; cbn in Hl;
    [subst ls | by destruct ids].
  set (st1 := set_calls (st.(calls) ++ map (fun i => (i, "dataReceived", d)) ids) st).
  assert (Hev1 : eventListeners st1 !! "dataReceived"
                 = Some (map Listener ids
                           ++ Handler p t :: Listener id :: map Listener ids2))
    by exact Hev.
  destruct (call_handler "dataReceived" p t d st1 (map Listener ids)
              (Listener id :: map Listener ids2) Hev1 (Handler_not_Listener p t ids))
    as (Hls & Hps).
  assert (Hcalls : calls (call "dataReceived" (Handler p t) d st1) = calls st1)
    by (cbn; unfold off; cbn; by repeat case_match).
  set (st2 := call "dataReceived" (Handler p t) d st1) in *.
  assert (Hev2 : eventListeners st2 !! "dataReceived"
                 = Some ((map Listener ids ++ [Listener id]) ++ map Listener ids2 ++ []))
    by (rewrite Hls, lookup_insert_eq, app_nil_r, <- app_assoc; done).
  assert (Hemit : emit "dataReceived" d st
                  = set_calls (calls st2 ++ map (fun i => (i, "dataReceived", d)) ids2) st2).
  { unfold emit. rewrite Hev, length_app, length_map. cbn [length].
    rewrite length_map.
    rewrite (forEach_listeners_calls "dataReceived" d ids []
               (Handler p t :: Listener id :: map Listener ids2) _ st Hev).
    fold st1. cbn [length Nat.add]. rewrite forEach_S. unfold listeners.
    rewrite Hev1. reduce_default.
    rewrite (list_lookup_middle (map Listener ids) _ (Handler p t) (length ids))
      by (by rewrite length_map).
    fold st2. clearbody st2.
    replace (S (length ids)) with (length (map Listener ids ++ [Listener id]))
      by (rewrite length_app, length_map; cbn; lia).
    replace (S (length ids2)) with (length ids2 + 1)%nat by lia.
    rewrite (forEach_listeners_calls "dataReceived" d ids2
               (map Listener ids ++ [Listener id]) [] 1 st2 Hev2).
    apply forEach_beyond.
    unfold listeners. cbn [eventListeners set_calls]. rewrite Hev2. cbn.
    rewrite !length_app, !length_map. cbn. lia. }
  rewrite Hemit. cbn [calls promises set_calls]. unfold listeners.
  cbn [eventListeners set_calls]. rewrite Hev2, Hps, Hcalls. cbn.
  rewrite app_nil_r, <- !app_assoc. cbn [app]. by rewrite map_app.
Qed.

(** *** The catalog id *)

Lemma hex_value_digit n : (0 <= n < 16)%Z -> hex_value (hex_digit n) = n.
Proof.
  intros Hn. rewrite <- (Z2Nat.id n) by lia.
  assert (Hk : (Z.to_nat n < 16)%nat) by lia.
  revert Hk. generalize (Z.to_nat n). clear. intros k Hk.
  do 16 (destruct k as [|k]; [reflexivity|]). lia.
Qed.

Lemma extractCatalogId_length payload :
  String.length (extractCatalogId payload) = (2 * length payload)%nat.
Proof.
  induction payload as [|b payload IH]; [done|].
  cbn [extractCatalogId String.length length]. rewrite IH. lia.
Qed.

(** X14: the catalog id holds two characters for every byte of the
    payload, and two payloads of bytes with the same id are the same
    payload. *)
Theorem extractCatalogId_injective a b :
  Forall (fun x => (0 <= x < 256)%Z) a -> Forall (fun x => (0 <= x < 256)%Z) b ->
  extractCatalogId a = extractCatalogId b ->
  a = b /\ String.length (extractCatalogId a) = (2 * length a)%nat.
Proof.
  intros Ha Hb Heq. split; [|apply extractCatalogId_length].
  revert b Hb Heq. induction Ha as [|x a Hx Ha IH]; intros b Hb Heq.
  - by destruct b.
  - destruct Hb as [|y b Hy Hb]; [done|].
    cbn [extractCatalogId] in Heq. injection Heq as Hhi Hlo Hrest.
    apply (f_equal hex_value) in Hhi, Hlo.
    rewrite !hex_value_digit in Hhi, Hlo
      by (first [apply Z.mod_pos_bound; lia
                | split; [apply Z.div_pos; lia | apply Z.div_lt_upper_bound; lia]]).
    f_equal; [|by apply IH].
    rewrite (Z.div_mod x 16), (Z.div_mod y 16) by lia. by rewrite Hhi, Hlo.
Qed.

Lemma extractCatalogId_empty payload :
  String.eqb (extractCatalogId payload) EmptyString = match payload with [] => true | _ => false end.
Proof. by destruct payload. Qed.

(** X13: a frame whose payload decodes to an object with the key
    checksum sets the catalog id to the hex text of the whole payload,
    calls the listeners of yangCatalogReceived with it and no handler of
    a request, and settles no promise.  From then on [yangGet] goes past
    the catalog check; only for an empty payload the id is the empty
    text and [yangGet] still throws. *)
Theorem catalog_response_opens_gate frame coap bytes v ids st :
  CoAPMessage_decode frame = Normal (Some coap) ->
  coap.(payload) = Some bytes ->
  CBORCodec_decode bytes = Normal v ->
  isYangCatalogResponse v = true ->
  listeners "yangCatalogReceived" st = map Listener ids ->
  exists st',
    handleCoAPFrame frame st = (st', Normal tt)
    /\ st'.(yangCatalogId) = Some (extractCatalogId bytes)
    /\ st'.(promises) = st.(promises)
    /\ st'.(eventListeners) = st.(eventListeners)
    /\ st'.(timers) = st.(timers)
    /\ st'.(calls)
       = st.(calls)
           ++ map (fun i => (i, "yangCatalogReceived", CatalogId (extractCatalogId bytes))) ids
    /\ (bytes <> [] -> forall path, yangGet path st' = request "GET" path None st')
    /\ (bytes = [] -> forall path, yangGet path st' = (st', Throw catalog_not_loaded)).
Proof.
  intros Hdec Hpay Hcbor Hcat Hls.
  unfold Client.handleCoAPFrame. rewrite Hdec, Hpay, Hcbor, Hcat.
  rewrite (emit_outside _ _ ids) by exact Hls.
  eexists. split; [reflexivity|]. cbn.
  repeat (split; [reflexivity|]).
  unfold Client.yangGet, catalog_missing. cbn. rewrite extractCatalogId_empty.
  split; intros Hb path; by destruct bytes.
Qed.

(** *** Discovery *)

(** X15: a chunk that holds the text VelocitySP-v is never given to
    [processData]: whatever frames the chunk holds besides are dropped.
    When [parsePingResponse] yields no device info, nothing is stored or
    written; when it yields one, the info is stored and the catalog FETCH
    is written on a connected client, and the catalog id stays as it
    was. *)
Theorem banner_chunk_is_not_framed data st :
  includes (TextEncoder_encode "VelocitySP-v") data = true ->
  (forall processData',
      Client.handleData createCoAPMessage parsePingResponse processData'
        CoAPMessage_decode CBORCodec_decode data st
      = handleData data st)
  /\ (forall proto,
         parsePingResponse data st.(protocol) = (proto, Normal None) ->
         (handleData data st).2 = Normal tt
         /\ (handleData data st).1.(protocol) = proto
         /\ (handleData data st).1.(deviceInfo) = st.(deviceInfo)
         /\ (handleData data st).1.(written) = st.(written))
  /\ (forall proto info proto' message,
         parsePingResponse data st.(protocol) = (proto, Normal (Some info)) ->
         createCoAPMessage "FETCH" "/ietf-constrained-yang-library:yang-library/checksum"
           None proto = (proto', Normal message) ->
         st.(connected) = true -> st.(writer) = true -> st.(link) = Normal tt ->
         (handleData data st).2 = Normal tt
         /\ (handleData data st).1.(protocol) = proto'
         /\ (handleData data st).1.(deviceInfo) = Some info
         /\ (handleData data st).1.(written) = st.(written) ++ [message]
         /\ (handleData data st).1.(yangCatalogId) = st.(yangCatalogId)).
Proof.
  intros Hping. split; [|split].
  - intros processData'. unfold Client.handleData. by rewrite Hping.
  - intros proto Hparse. unfold Client.handleData. rewrite Hping.
    destruct (emit_keeps "rawData" (RawData "receive" data) st)
      as (Hpr & _ & _ & Hdi & _ & _ & Hwr & _).
    rewrite Hpr, Hparse. cbn. by rewrite Hdi, Hwr.
  - intros proto info proto' message Hparse Hmsg Hc Hw Hlink.
    destruct (emit_keeps "rawData" (RawData "receive" data) st)
      as (Hpr & Hc0 & Hw0 & _ & Hid0 & Hl0 & Hwr0 & _).
    set (st0 := emit "rawData" (RawData "receive" data) st) in *.
    set (st1 := set_deviceInfo (Some info) (set_protocol proto st0)).
    destruct (emit_keeps "deviceDiscovered" (Discovered info) st1)
      as (Hpr2 & Hc2 & Hw2 & Hdi2 & Hid2 & Hl2 & Hwr2 & _).
    set (st2 := emit "deviceDiscovered" (Discovered info) st1) in *.
    assert (Hrun : handleData data st
                   = (emit "rawData" (RawData "send" message)
                        (set_written (written st2 ++ [message]) (set_protocol proto' st2)),
                      Normal tt)).
    { unfold Client.handleData. rewrite Hping. fold st0. rewrite Hpr, Hparse.
      fold st1. fold st2. unfold getYangCatalog. rewrite Hpr2.
      unfold st1 at 1. cbn [protocol set_deviceInfo set_protocol].
      rewrite Hmsg. unfold sendRaw. cbn [connected writer link set_protocol].
      rewrite Hc2, Hw2, Hl2. unfold st1. cbn [connected writer link set_deviceInfo set_protocol].
      by rewrite Hc0, Hw0, Hl0, Hc, Hw, Hlink. }
    rewrite Hrun. cbn [fst snd].
    match goal with |- context [emit "rawData" (RawData "send" message) ?s] =>
      destruct (emit_keeps "rawData" (RawData "send" message) s)
        as (-> & _ & _ & -> & -> & _ & -> & _) end.
    cbn. rewrite Hdi2, Hwr2, Hid2. unfold st1. cbn. by rewrite Hwr0, Hid0.
Qed.

(** *** Calls that fail *)

Lemma request_Throw method path body ids st st1 e :
  listeners "error" st = map Listener ids ->
  request method path body st = (st1, Throw e) ->
  st1.(promises) = st.(promises) /\ st1.(timers) = st.(timers)
  /\ st1.(eventListeners) = st.(eventListeners) /\ st1.(written) = st.(written).
Proof.
  intros Hls. unfold Client.request.
  destruct (createCoAPMessage method path body (protocol st)) as [proto [message|e']].
  - unfold sendRaw. cbn [connected writer link set_protocol].
    destruct (negb (connected st) || negb (writer st)); [by intros [= <- _]|].
    destruct (link st) as [[]|e'']; [done|].
    rewrite (emit_outside _ _ ids) by exact Hls. by intros [= <- _].
  - by intros [= <- _].
Qed.

(** X16: a YANG call that throws has created no promise, no timer and
    no handler and has written nothing, whatever made it throw.  On a
    client with a catalog id that is not connected, [yangGet] throws
    Not connected to device after [createCoAPMessage] was called, so the
    state of the protocol object has moved on. *)
Theorem failed_call_registers_nothing path value ids st :
  listeners "error" st = map Listener ids ->
  (forall st1 e,
      yangGet path st = (st1, Throw e)
      \/ yangSet path value st = (st1, Throw e)
      \/ yangDelete path st = (st1, Throw e) ->
      st1.(promises) = st.(promises) /\ st1.(timers) = st.(timers)
      /\ st1.(eventListeners) = st.(eventListeners) /\ st1.(written) = st.(written))
  /\ (forall proto message,
         catalog_missing st = false ->
         st.(connected) = false \/ st.(writer) = false ->
         createCoAPMessage "GET" path None st.(protocol) = (proto, Normal message) ->
         yangGet path st = (set_protocol proto st, Throw (Error "Not connected to device"))).
Proof.
  intros Hls. split.
  - intros st1 e. unfold Client.yangGet, Client.yangSet, Client.yangDelete.
    destruct (catalog_missing st); [by intros [[= <- _]|[[= <- _]|[= <- _]]]|].
    intros [H|[H|H]]; try (by eapply request_Throw).
    destruct (CBORCodec_encode value); [by eapply request_Throw|].
    by injection H as <- _.
  - intros proto message Hcat Hgate Hmsg. unfold Client.yangGet, Client.request.
    rewrite Hcat, Hmsg. unfold sendRaw. cbn [connected writer set_protocol].
    by destruct Hgate as [-> | ->]; [|rewrite orb_true_r].
Qed.

(** *** Requests, answers and timers *)











Variable createPingMessage : Protocol -> Protocol * completion (list Z).

Local Abbreviation discoverDevice := (Client.discoverDevice createPingMessage).
Local Abbreviation connect := (Client.connect createPingMessage).

(** *** Connecting and disconnecting *)

Lemma emit_reading event d st : (emit event d st).(reading) = st.(reading).
Proof. by destruct (emit_preserves event d st) as (_ & _ & ->). Qed.

Lemma emit_yangCatalogId event d st :
  (emit event d st).(yangCatalogId) = st.(yangCatalogId).
Proof. by destruct (emit_keeps event d st) as (_ & _ & _ & _ & -> & _). Qed.

Lemma emit_connected event d st : (emit event d st).(connected) = st.(connected).
Proof. by destruct (emit_keeps event d st) as (_ & -> & _). Qed.

Lemma discoverDevice_keeps st :
  (discoverDevice st).1.(reading) = st.(reading)
  /\ (discoverDevice st).1.(yangCatalogId) = st.(yangCatalogId)
  /\ (discoverDevice st).1.(connected) = st.(connected).
Proof.
  unfold Client.discoverDevice.
  destruct (createPingMessage (protocol st)) as [proto [message|e]]; [|done].
  unfold sendRaw. cbn [connected writer link set_protocol].
  destruct (negb (connected st) || negb (writer st)); [done|].
  destruct (link st); cbn [fst];
    by rewrite emit_reading, emit_yangCatalogId, emit_connected.
Qed.

(** X19: [connect] calls [readLoop] before it sets [connected]; on a
    client that is not connected the loop condition is therefore false
    and the loop is not entered.  After such a [connect], whether it
    succeeds or throws, no result of a read is handled, the catalog id is
    as before, and a client without catalog id keeps throwing
    YANG catalog not loaded whatever the device sends. *)
Theorem connect_does_not_start_reading opened st :
  st.(connected) = false -> st.(reading) = false ->
  (connect opened st).1.(reading) = false
  /\ (forall r, deliver r (connect opened st).1 = (connect opened st).1)
  /\ (connect opened st).1.(yangCatalogId) = st.(yangCatalogId)
  /\ ((exists u, opened = Normal u) -> (connect opened st).1.(connected) = true)
  /\ (st.(yangCatalogId) = None ->
      forall r path,
        yangGet path (deliver r (connect opened st).1)
        = ((connect opened st).1, Throw catalog_not_loaded)).
Proof.
  intros Hc Hr.
  assert (Hfields : (connect opened st).1.(reading) = false
                    /\ (connect opened st).1.(yangCatalogId) = st.(yangCatalogId)
                    /\ ((exists u, opened = Normal u) ->
                        (connect opened st).1.(connected) = true)).
  { unfold Client.connect. destruct opened as [[]|error].
    - set (st1 := emit "connected" NoData _).
      assert (H1 : reading st1 = false /\ yangCatalogId st1 = yangCatalogId st
                   /\ connected st1 = true).
      { unfold st1. rewrite emit_reading, emit_yangCatalogId, emit_connected.
        cbn. by rewrite Hc. }
      destruct H1 as (Hr1 & Hid1 & Hc1).
      destruct (discoverDevice_keeps st1) as (Hr2 & Hid2 & Hc2).
      destruct (discoverDevice st1) as [st2 [[]|error]]; cbn [fst] in *.
      + by rewrite Hr2, Hid2, Hc2.
      + by rewrite emit_reading, emit_yangCatalogId, emit_connected, Hr2, Hid2, Hc2.
    - cbn [fst]. rewrite emit_reading, emit_yangCatalogId. split; [done|].
      split; [done|]. by intros [u [=]]. }
  destruct Hfields as (Hreading & Hid & Hconn).
  assert (Hdeliver : forall r, deliver r (connect opened st).1 = (connect opened st).1).
  { intros r. unfold Client.deliver. by rewrite Hreading. }
  split; [done|]. split; [done|]. split; [done|]. split; [done|].
  intros Hnone r path. rewrite Hdeliver. unfold Client.yangGet, catalog_missing.
  by rewrite Hid, Hnone.
Qed.

(** X20: [disconnect], however the closing of writer, reader and port
    ends, leaves the client not connected and keeps the device info, the
    catalog id, the listeners and the pending promises with their timers:
    an outstanding request is not settled by it.  Afterwards [sendRaw]
    throws Not connected to device, and the read loop ends when its read
    reports done. *)
Theorem disconnect_leaves_session_state reader port writer_close reader_cancel port_close
    ids_d ids_e st :
  listeners "disconnected" st = map Listener ids_d ->
  listeners "error" st = map Listener ids_e ->
  let st' := (disconnect reader port writer_close reader_cancel port_close st).1 in
  st'.(connected) = false
  /\ st'.(yangCatalogId) = st.(yangCatalogId)
  /\ st'.(deviceInfo) = st.(deviceInfo)
  /\ st'.(promises) = st.(promises)
  /\ st'.(timers) = st.(timers)
  /\ st'.(eventListeners) = st.(eventListeners)
  /\ (forall data, sendRaw data st' = (st', Throw (Error "Not connected to device")))
  /\ (deliver Done st').(reading) = false.
Proof.
  intros Hd He. cbv zeta.
  assert (Hshape : exists c w,
             (disconnect reader port writer_close reader_cancel port_close st).1
             = set_calls c (set_writer w (set_connected false st))).
  { unfold disconnect. cbn [writer set_connected].
    destruct (writer st) eqn:Hw, writer_close as [[]|e1]; cbn [cbind];
      try (rewrite (emit_outside _ _ ids_e) by exact He; cbn [fst];
           by eexists _, (writer st));
      destruct reader, reader_cancel as [[]|e2]; cbn [cbind];
      try (rewrite (emit_outside _ _ ids_e) by exact He; cbn [fst]; by eexists _, _);
      destruct port, port_close as [[]|e3]; cbn [cbind];
      try (rewrite (emit_outside _ _ ids_e) by exact He; cbn [fst]; by eexists _, _);
      try (rewrite (emit_outside _ _ ids_d) by exact Hd; cbn [fst]; by eexists _, _). }
  destruct Hshape as (c & w & ->).
  do 6 (split; [done|]). split.
  - intros data. unfold sendRaw. by cbn.
  - unfold Client.deliver, readLoop. cbn.
    destruct (reading st) eqn:Hreading; cbn; [by rewrite andb_false_r|done].
Qed.

End ClientFacts.

(** ** Concrete runs *)

Section Runs.

Local Open Scope string_scope.
Local Open Scope list_scope.

(** The width of 300 is no more than four bytes (it is two). *)
Lemma width_minimal_witness :
  0 <= 300 /\ 4 ∈ CBOR.widths /\ CBOR.holds 4 300 = true
  /\ CBOR.emitted_width 300 0 <= 4.
Proof.
  assert (H0 : 0 <= 300) by lia.
  assert (H1 : 4 ∈ CBOR.widths) by (unfold CBOR.widths; repeat constructor).
  assert (H2 : CBOR.holds 4 300 = true) by reflexivity.
  split; [exact H0|]. split; [exact H1|]. split; [exact H2|].
  exact (proj2 (proj2 (proj1 width_minimal 300 0 4 H0 H1 H2))).
Defined.

(** 2^32 is encoded as no bytes at all. *)
Lemma encode_silent_out_of_range_witness :
  JS.Number_isInteger (JS.Number_ofZ 4294967296) = true
  /\ 4294967296 <= CBOR.magnitude (JS.Number_toZ (JS.Number_ofZ 4294967296))
  /\ CBOR.encode (VNumber (JS.Number_ofZ 4294967296)) = Normal [].
Proof.
  assert (H1 : JS.Number_isInteger (JS.Number_ofZ 4294967296) = true) by reflexivity.
  assert (H2 : 4294967296 <= CBOR.magnitude (JS.Number_toZ (JS.Number_ofZ 4294967296))).
  { vm_compute. intros H. discriminate H. }
  split; [exact H1|]. split; [exact H2|].
  exact (proj2 (proj2 encode_silent_out_of_range) _ H1 H2).
Defined.

(** 1.5 is encoded in the nine-byte form. *)
Lemma number_encoding_forms_witness :
  JS.Number_isInteger 0x3FF8000000000000 = false
  /\ CBOR.encode (VNumber 0x3FF8000000000000)
     = Normal [0xFB; 0x3F; 0xF8; 0; 0; 0; 0; 0; 0].
Proof.
  split; [reflexivity|].
  exact (proj1 (proj1 (number_encoding_forms 0x3FF8000000000000) eq_refl)).
Defined.

(** C4 as stated fails: the number 5.0 is integral, and it is encoded
    as the single byte 0x05, not in the nine-byte form. *)
Lemma float_five_compact :
  JS.Number_isInteger CBOR.five = true
  /\ JS.Number_toZ CBOR.five = 5
  /\ CBOR.encode (VNumber CBOR.five) = Normal [0x05]
  /\ ~ (exists tail, CBOR.encode (VNumber CBOR.five) = Normal (0xFB :: tail)
                     /\ length tail = 8%nat).
Proof.
  split; [reflexivity|]. split; [reflexivity|]. split; [reflexivity|].
  intros (tail & H & _). vm_compute in H. discriminate H.
Qed.

(** On a fresh connected port an unanswered command is fulfilled with
    TIMEOUT after five seconds. *)
Lemma sendCommand_timeout_in_band_witness :
  WebSerialCore.wf WebSerialCore.opened
  /\ WebSerialCore.connected WebSerialCore.opened = true
  /\ WebSerialCore.writer WebSerialCore.opened = true
  /\ WebSerialCore.promises WebSerialCore.unanswered !! 0%nat
     = Some (Fulfilled "TIMEOUT").
Proof.
  assert (Hwf : WebSerialCore.wf WebSerialCore.opened).
  { split; apply Forall_nil_2. }
  split; [exact Hwf|]. split; [reflexivity|]. split; [reflexivity|].
  destruct (sendCommand_timeout_in_band "get a" WebSerialCore.opened Hwf eq_refl eq_refl)
    as (st1 & p & Hsend & _ & Hafter & _).
  vm_compute in Hsend. injection Hsend as <- <-.
  exact (proj1 (Hafter 5000 (Z.le_refl 5000))).
Defined.

(** A client without catalog id refuses [yangGet]. *)
Lemma yang_calls_gated_witness :
  Client.yangCatalogId Bench.discovering = None
  /\ Bench.yangGet "/a" Bench.discovering
     = (Bench.discovering, Throw (Error "YANG catalog not loaded")).
Proof.
  split; [reflexivity|].
  exact (proj1 (yang_calls_gated Bench.createCoAPMessage Bench.CBORCodec_encode
                  "/a" VNull Bench.discovering eq_refl)).
Defined.

(** A request of the bench client without answer is rejected after
    ten seconds. *)
Lemma timeout_outcomes_witness :
  Client.wf Bench.ready
  /\ Bench.yangGet "/a" Bench.ready = ((Bench.yangGet "/a" Bench.ready).1, Normal 0%nat)
  /\ 10000 <= 10000
  /\ Client.promises Bench.unanswered !! 0%nat
     = Some (Rejected (Error "Request timeout")).
Proof.
  assert (Hwf : Client.wf Bench.ready) by apply Forall_nil_2.
  assert (Hget : Bench.yangGet "/a" Bench.ready
                 = ((Bench.yangGet "/a" Bench.ready).1, Normal 0%nat)) by reflexivity.
  split; [exact Hwf|]. split; [exact Hget|]. split; [apply Z.le_refl|].
  exact (proj2 (proj1 (timeout_outcomes Bench.createCoAPMessage Bench.CBORCodec_encode)
                  "/a" VNull Bench.ready _ 0%nat 10000 Hwf (or_introl Hget))
           (Z.le_refl 10000)).
Defined.

(** C6 as stated fails: the timed out command of WebSerialCore has
    not failed, its promise is fulfilled; and the timed out request of
    the client, though rejected, still has its handler registered. *)
Lemma timeout_without_failure_or_cleanup :
  (WebSerialCore.promises WebSerialCore.unanswered !! 0%nat
   = Some (Fulfilled "TIMEOUT")
   /\ ~ (exists e, WebSerialCore.promises WebSerialCore.unanswered !! 0%nat
                   = Some (Rejected e)))
  /\ (Client.promises Bench.unanswered !! 0%nat
      = Some (Rejected (Error "Request timeout"))
      /\ Client.listeners "dataReceived" Bench.unanswered = [Client.Handler 0 0]
      /\ ~ (Client.Handler 0 0 ∉ Client.listeners "dataReceived" Bench.unanswered)).
Proof.
  split; [split|split; [|split]].
  - reflexivity.
  - intros (e & H). vm_compute in H. discriminate H.
  - reflexivity.
  - reflexivity.
  - intros H. apply H. vm_compute. constructor.
Qed.



(** On the bench, a frame with a truncated text ends the read loop. *)
Lemma decode_error_ends_readLoop_witness :
  Client.reading Bench.listening = true
  /\ Bench.CBORCodec_decode Bench.truncated_text = Throw RangeError
  /\ Client.reading (Bench.deliver (Client.Chunk (7 :: Bench.truncated_text))
                       Bench.listening) = false.
Proof.
  assert (Hd : Bench.CBORCodec_decode Bench.truncated_text = Throw RangeError)
    by reflexivity.
  split; [reflexivity|]. split; [exact Hd|].
  exact (proj1 (proj2
    (decode_error_ends_readLoop Bench.createCoAPMessage Bench.parsePingResponse
       Bench.processData Bench.CoAPMessage_decode Bench.CBORCodec_decode
       (7 :: Bench.truncated_text) [] (7 :: Bench.truncated_text) []
       (Client.mkCoAP 7 69 (Some Bench.truncated_text)) Bench.truncated_text
       RangeError 1 Bench.listening
       (Client.set_protocol 1
          (Client.emit "rawData"
             (Client.RawData "receive" (7 :: Bench.truncated_text)) Bench.listening))
       eq_refl eq_refl eq_refl eq_refl eq_refl eq_refl Hd))).
Defined.

(** C3 as stated fails: after a frame whose payload does not decode,
    the read loop has ended; the only call of a listener is the one for
    "error", and the valid frame that arrives next is not dispatched,
    though the same frame is dispatched to the listener while the loop
    runs. *)
Lemma later_frame_not_dispatched :
  Client.reading Bench.after_bad_frame = false
  /\ Client.calls Bench.after_bad_frame = [(1%nat, "error", Client.Failure RangeError)]
  /\ ~ (exists d, (0%nat, "dataReceived", d) ∈ Client.calls Bench.after_bad_frame)
  /\ Client.calls (Bench.deliver (Client.Chunk (8 :: Bench.text_a)) Bench.listening)
     = [(0%nat, "dataReceived", Client.DataReceived 8 69 (VText "a"))].
Proof.
  split; [reflexivity|]. split; [reflexivity|]. split; [|reflexivity].
  intros (d & H). vm_compute in H.
  apply list_elem_of_singleton in H. discriminate H.
Qed.

(** *** Runs of the codec properties *)



(** The text "ab" without its last byte. *)
Lemma decode_rejects_truncated_encoding_witness :
  CBOR.supported (VText "ab") = true
  /\ CBOR.encoding (VText "ab") = [0x62; 0x61] ++ [0x62]
  /\ [0x62] <> []
  /\ CBOR.decode (window [] [0x62; 0x61] []) = Throw RangeError.
Proof.
  assert (H : CBOR.supported (VText "ab") = true) by (vm_compute; reflexivity).
  assert (Hcut : CBOR.encoding (VText "ab") = [0x62; 0x61] ++ [0x62])
    by (vm_compute; reflexivity).
  assert (Hq : [0x62] <> []) by discriminate.
  split; [exact H|]. split; [exact Hcut|]. split; [exact Hq|].
  exact (decode_rejects_truncated_encoding (VText "ab") [] [0x62; 0x61] [0x62] H Hcut Hq).
Defined.

(** The array [1]. *)
Lemma decode_never_yields_null_or_boolean_witness :
  CBOR.decode (Uint8Array_from [0x81; 0x01]) = Normal (VArray [VNumber (JS.Number_ofZ 1)])
  /\ CBOR.no_null_or_boolean (VArray [VNumber (JS.Number_ofZ 1)]) = true.
Proof.
  assert (H : CBOR.decode (Uint8Array_from [0x81; 0x01])
              = Normal (VArray [VNumber (JS.Number_ofZ 1)])) by (vm_compute; reflexivity).
  split; [exact H|].
  exact (decode_never_yields_null_or_boolean _ _ H).
Defined.


(** *** Runs of the serial core properties *)

(** A device that ends its lines with carriage return and line feed. *)
Lemma line_delivered_verbatim_witness :
  (WebSerialCore.receive ("OK" +:+ String "013"%char EmptyString +:+ WebSerialCore.LF)
     (WebSerialCore.sendCommand "get a" (Normal tt) WebSerialCore.opened).1)
    .(WebSerialCore.promises) !! 0%nat
  = Some (Fulfilled ("OK" +:+ String "013"%char EmptyString)).
Proof.
  exact (proj1 (proj1 (line_delivered_verbatim
                         ("OK" +:+ String "013"%char EmptyString) 0%nat []
                         (WebSerialCore.sendCommand "get a" (Normal tt) WebSerialCore.opened).1
                         eq_refl eq_refl eq_refl eq_refl) eq_refl)).
Defined.

Lemma answer_before_resolver_is_lost_witness :
  (WebSerialCore.receive ("late" +:+ WebSerialCore.LF) WebSerialCore.opened)
    .(WebSerialCore.responseResolvers) = [].
Proof.
  assert (Hwf : WebSerialCore.wf WebSerialCore.opened) by (split; constructor).
  exact (proj1 (proj2 (answer_before_resolver_is_lost "get a" ("late" +:+ WebSerialCore.LF)
                         WebSerialCore.opened Hwf eq_refl eq_refl))).
Defined.

Lemma late_answer_goes_to_next_command_witness :
  exists st1 p st2 q,
    WebSerialCore.sendCommand "get a" (Normal tt) WebSerialCore.opened = (st1, Normal p)
    /\ WebSerialCore.sendCommand "get b" (Normal tt) (WebSerialCore.elapse 5000 st1)
       = (st2, Normal q)
    /\ p <> q
    /\ (WebSerialCore.receive ("value of a" +:+ WebSerialCore.LF) st2)
         .(WebSerialCore.promises) !! p = Some (Fulfilled "TIMEOUT")
    /\ (WebSerialCore.receive ("value of a" +:+ WebSerialCore.LF) st2)
         .(WebSerialCore.promises) !! q = Some (Fulfilled "value of a").
Proof.
  assert (Hwf : WebSerialCore.wf WebSerialCore.opened) by (split; constructor).
  assert (Hms : 5000 <= 5000) by lia.
  exact (late_answer_goes_to_next_command "get a" "get b" "value of a" 5000
           WebSerialCore.opened Hwf eq_refl eq_refl eq_refl eq_refl eq_refl eq_refl Hms).
Defined.

(** The writer closes and the port does not; then both close. *)
Lemma disconnect_outcomes_witness :
  WebSerialCore.isConnected
    (WebSerialCore.disconnect true (Normal tt) (Throw RangeError) WebSerialCore.opened).1
  = true
  /\ WebSerialCore.sendCommand "get a" (Normal tt)
       (WebSerialCore.disconnect true (Normal tt) (Normal tt) WebSerialCore.opened).1
     = ((WebSerialCore.disconnect true (Normal tt) (Normal tt) WebSerialCore.opened).1,
        Throw WebSerialCore.not_connected).
Proof.
  split; [reflexivity|].
  exact (proj2 (proj2 (proj1 (proj2 (disconnect_outcomes true (Normal tt) (Normal tt)
                                       WebSerialCore.opened)) eq_refl eq_refl))
           "get a" (Normal tt)).
Defined.

(** A listener that is registered twice on the bench client is still
    registered once after [off]. *)
Lemma off_removes_first_registration_witness :
  (Client.Listener 0 ∉ Client.listeners "dataReceived" Bench.ready)
  /\ Client.listeners "dataReceived"
       (Client.off "dataReceived" (Client.Listener 0)
          (Client.on "dataReceived" (Client.Listener 0)
             (Client.on "dataReceived" (Client.Listener 0) Bench.ready)))
     = Client.listeners "dataReceived" Bench.ready ++ [Client.Listener 0].
Proof.
  assert (H : Client.Listener 0 ∉ Client.listeners "dataReceived" Bench.ready)
    by exact (not_elem_of_nil (Client.Listener 0)).
  split; [exact H|].
  exact (proj2 (proj2 (proj2 (off_removes_first_registration "dataReceived"
                                (Client.Listener 0) Bench.ready) H))).
Defined.

(** The listener registered after a request is not called for the
    answer to the request. *)
Lemma listener_after_handler_is_skipped_witness :
  Client.listeners "dataReceived" Bench.watched
  = map Client.Listener [] ++ Client.Handler 0 0 :: Client.Listener 0 :: map Client.Listener []
  /\ Client.calls (Client.emit "dataReceived" (Client.DataReceived 1 69 (VText "a"))
                     Bench.watched)
     = Client.calls Bench.watched
         ++ map (fun i => (i, "dataReceived", Client.DataReceived 1 69 (VText "a")))
              ([] ++ []).
Proof.
  split; [reflexivity|].
  exact (proj1 (listener_after_handler_is_skipped
                  (Client.DataReceived 1 69 (VText "a")) [] 0%nat [] 0%nat 0%nat
                  Bench.watched eq_refl)).
Defined.

(** The checksum answer gives the bench client its catalog id. *)
Lemma catalog_response_opens_gate_witness :
  Bench.CBORCodec_decode Bench.checksum_payload
  = Normal (VMap [(VText "checksum", VNumber 4607182418800017408)])
  /\ Client.isYangCatalogResponse (VMap [(VText "checksum", VNumber 4607182418800017408)])
     = true
  /\ exists st',
       Client.handleCoAPFrame Bench.CoAPMessage_decode Bench.CBORCodec_decode
         (5 :: Bench.checksum_payload) Bench.discovering = (st', Normal tt)
       /\ Client.yangCatalogId st'
          = Some (Client.extractCatalogId Bench.checksum_payload).
Proof.
  assert (Hd : Bench.CBORCodec_decode Bench.checksum_payload
               = Normal (VMap [(VText "checksum", VNumber 4607182418800017408)]))
    by reflexivity.
  split; [exact Hd|]. split; [reflexivity|].
  destruct (catalog_response_opens_gate Bench.createCoAPMessage Bench.CoAPMessage_decode
              Bench.CBORCodec_decode (5 :: Bench.checksum_payload)
              (Client.mkCoAP 5 69 (Some Bench.checksum_payload)) Bench.checksum_payload
              (VMap [(VText "checksum", VNumber 4607182418800017408)]) []
              Bench.discovering eq_refl eq_refl Hd eq_refl eq_refl)
    as (st' & Hrun & Hid & _).
  exists st'. split; [exact Hrun | exact Hid].
Defined.

(** The id 5151 comes from the bytes 0x51 0x51 only. *)
Lemma extractCatalogId_injective_witness :
  Forall (fun x => 0 <= x < 256) [0x51; 0x51]
  /\ Client.extractCatalogId [0x51; 0x51] = Client.extractCatalogId [0x51; 0x51]
  /\ String.length (Client.extractCatalogId [0x51; 0x51]) = (2 * 2)%nat.
Proof.
  assert (H : Forall (fun x => 0 <= x < 256) [0x51; 0x51])
    by (repeat constructor; lia).
  split; [exact H|]. split; [reflexivity|].
  exact (proj2 (extractCatalogId_injective [0x51; 0x51] [0x51; 0x51] H H eq_refl)).
Defined.

(** The banner of the device is a chunk of its own on the bench and
    ends [handleData] without an exception. *)
Lemma banner_chunk_is_not_framed_witness :
  Client.includes (TextEncoder_encode "VelocitySP-v") Bench.banner = true
  /\ (Client.handleData Bench.createCoAPMessage Bench.parsePingResponse Bench.processData
        Bench.CoAPMessage_decode Bench.CBORCodec_decode Bench.banner Bench.ready).2
     = Normal tt.
Proof.
  split; [reflexivity|].
  exact (proj1 (proj1 (proj2 (banner_chunk_is_not_framed Bench.createCoAPMessage
                                Bench.parsePingResponse Bench.processData
                                Bench.CoAPMessage_decode Bench.CBORCodec_decode
                                Bench.banner Bench.ready eq_refl))
                  1 eq_refl)).
Defined.

(** [yangGet] on the client that is not connected. *)
Lemma failed_call_registers_nothing_witness :
  Client.listeners "error" Bench.offline = map Client.Listener []
  /\ Client.catalog_missing Bench.offline = false
  /\ Bench.yangGet "/a" Bench.offline
     = (Client.set_protocol 2 Bench.offline, Throw (Error "Not connected to device")).
Proof.
  split; [reflexivity|]. split; [reflexivity|].
  exact (proj2 (failed_call_registers_nothing Bench.createCoAPMessage
                  Bench.CBORCodec_encode "/a" VNull [] Bench.offline eq_refl)
           2 [1; 71; 69; 84; 32; 47; 97] eq_refl (or_introl eq_refl) eq_refl).
Defined.



(** After [connect] on a fresh client the checksum answer of the
    device is not read, and [yangGet] throws. *)
Lemma connect_does_not_start_reading_witness :
  Client.connected Bench.fresh = false /\ Client.reading Bench.fresh = false
  /\ Client.yangCatalogId Bench.fresh = None
  /\ Client.connected (Client.connect Bench.createPingMessage (Normal tt) Bench.fresh).1
     = true
  /\ Bench.yangGet "/a"
       (Bench.deliver (Client.Chunk (5 :: Bench.checksum_payload))
          (Client.connect Bench.createPingMessage (Normal tt) Bench.fresh).1)
     = ((Client.connect Bench.createPingMessage (Normal tt) Bench.fresh).1,
        Throw Client.catalog_not_loaded).
Proof.
  split; [reflexivity|]. split; [reflexivity|]. split; [reflexivity|].
  pose proof (connect_does_not_start_reading Bench.createCoAPMessage
                Bench.parsePingResponse Bench.processData Bench.CoAPMessage_decode
                Bench.CBORCodec_decode Bench.createPingMessage (Normal tt) Bench.fresh
                eq_refl eq_refl) as (_ & _ & _ & Hc & Hget).
  split; [exact (Hc (ex_intro _ tt eq_refl))|].
  exact (Hget eq_refl (Client.Chunk (5 :: Bench.checksum_payload)) "/a").
Defined.

(** [disconnect] while a request is pending leaves its promise
    pending. *)
Lemma disconnect_leaves_session_state_witness :
  Client.listeners "disconnected" Bench.first_sent = map Client.Listener []
  /\ Client.listeners "error" Bench.first_sent = map Client.Listener []
  /\ Client.connected
       (Client.disconnect true true (Normal tt) (Normal tt) (Normal tt) Bench.first_sent).1
     = false
  /\ Client.promises
       (Client.disconnect true true (Normal tt) (Normal tt) (Normal tt) Bench.first_sent).1
     = Client.promises Bench.first_sent.
Proof.
  split; [reflexivity|]. split; [reflexivity|].
  pose proof (disconnect_leaves_session_state Bench.createCoAPMessage
                Bench.parsePingResponse Bench.processData Bench.CoAPMessage_decode
                Bench.CBORCodec_decode true true (Normal tt) (Normal tt) (Normal tt)
                [] [] Bench.first_sent eq_refl eq_refl) as (Hc & _ & _ & Hp & _).
  split; [exact Hc | exact Hp].
Defined.

End Runs.
